(** * Schema-alignment merge engine and rule-based health scanner

    A shallow embedding of [src/core/merger.py] (class [TableMerger]) and
    [src/core/scanner.py] (class [DataHealthScanner]) together with the
    properties the design document states about them.

    Modelling conventions.
    - A Python [str] is a Rocq [string] holding its UTF-8 bytes; the ordering
      on bytes is the ordering on code points, so [sorted] is the byte order.
    - A table cell is [option string]: [None] is pandas' missing marker
      (NaN); every file is read with [dtype=str], so no other value occurs.
    - A Python [float] is a binary64 [float] of the kernel, with its IEEE
      comparisons (every comparison with NaN is false).
    - What the code calls in CPython, [re] and pandas without the
      repository defining it ([float(s)], [str(x)] on a float, [round],
      [re.compile], [Series.quantile], the CSV and Excel readers) is a field
      of the class [Runtime]; every definition and theorem is parametric in
      it, and [Ref.runtime] is one concrete instance used in examples.
    - The free-text [message] of a defect record is not part of the model:
      no property below reads it. *)

From Stdlib Require Import ZArith Floats Uint63 Ascii String DecimalString.
From stdpp Require Import base decidable option list strings gmap sorting.

Local Open Scope string_scope.
Local Open Scope nat_scope.
Local Open Scope list_scope.

(** ** Python string primitives *)

Module Py.

Definition bytes (l : list nat) : string :=
  foldr (λ n s, String (ascii_of_nat n) s) EmptyString l.

(** [str.isspace] on ASCII: TAB..CR, FS..US and the blank. *)
Definition is_space (c : ascii) : bool :=
  let n := nat_of_ascii c in
  (Nat.leb 9 n && Nat.leb n 13) || (Nat.leb 28 n && Nat.leb n 32).

(** The remaining white-space code points, as UTF-8 byte sequences:
    U+0085, U+00A0, U+1680, U+2000..U+200A, U+2028, U+2029, U+202F,
    U+205F and U+3000. *)
Definition wide_spaces : list (list ascii) :=
  map (map ascii_of_nat)
    ([ [194; 133]; [194; 160]; [225; 154; 128] ]
     ++ map (λ k, [226; 128; 128 + k]) (seq 0 11)
     ++ [ [226; 128; 168]; [226; 128; 169]; [226; 128; 175];
          [226; 129; 159]; [227; 128; 128] ]).

Fixpoint drop_prefix (p l : list ascii) : option (list ascii) :=
  match p, l with
  | [], _ => Some l
  | a :: p', b :: l' => if decide (a = b) then drop_prefix p' l' else None
  | _ :: _, [] => None
  end.

(** One leading white-space character removed, if there is one. *)
Definition drop_space (toks : list (list ascii)) (l : list ascii)
  : option (list ascii) :=
  match l with
  | [] => None
  | c :: l' =>
      if is_space c then Some l'
      else head (omap (λ t, drop_prefix t l) toks)
  end.

Fixpoint lstrip_go (toks : list (list ascii)) (fuel : nat) (l : list ascii)
  : list ascii :=
  match fuel with
  | O => l
  | S fuel' =>
      match drop_space toks l with
      | Some l' => lstrip_go toks fuel' l'
      | None => l
      end
  end.

Definition lstrip_list (l : list ascii) : list ascii :=
  lstrip_go wide_spaces (length l) l.

Definition rstrip_list (l : list ascii) : list ascii :=
  reverse (lstrip_go (map reverse wide_spaces) (length l) (reverse l)).

(** [s.strip()] *)
Definition strip (s : string) : string :=
  string_of_list_ascii (rstrip_list (lstrip_list (list_ascii_of_string s))).

Definition lower_ascii (c : ascii) : ascii :=
  let n := nat_of_ascii c in
  if Nat.leb 65 n && Nat.leb n 90 then ascii_of_nat (n + 32) else c.

(** [s.lower()] on the ASCII letters.  The only use in the code compares
    the result with ["nan"], and no character outside ASCII lower-cases
    to [n] or [a], so that comparison is the one Python makes. *)
Fixpoint lower (s : string) : string :=
  match s with
  | EmptyString => EmptyString
  | String c s' => String (lower_ascii c) (lower s')
  end.

(** [s.endswith(c)] for a one-character suffix. *)
Definition endswith (c : ascii) (s : string) : bool :=
  match reverse (list_ascii_of_string s) with
  | d :: _ => bool_decide (c = d)
  | [] => false
  end.

Fixpoint drop_while_eq (c : ascii) (l : list ascii) : list ascii :=
  match l with
  | d :: l' => if decide (c = d) then drop_while_eq c l' else l
  | [] => []
  end.

(** [s.rstrip(c)] for a one-character set. *)
Definition rstrip_char (c : ascii) (s : string) : string :=
  string_of_list_ascii
    (reverse (drop_while_eq c (reverse (list_ascii_of_string s)))).

End Py.

(** ** Tables, values and the run-time library *)

(** A cell: a string, or [None] for the missing marker (NaN). *)
Definition cell : Type := option string.

(** A [DataFrame] with text columns: the column labels in order and the rows,
    each row listing its cells in column order. *)
Record DataFrame := mkDF { columns : list string; rows : list (list cell) }.

(** [pd.DataFrame()] *)
Definition empty_frame : DataFrame := mkDF [] [].

(** The rows are as wide as the header. *)
Definition rectangular (df : DataFrame) : Prop :=
  Forall (λ r, length r = length (columns df)) (rows df).

(** The values the helpers of the scanner receive ([Any] in the source):
    cells of a table, and the floats of the series that [Series.apply]
    builds. *)
Inductive value :=
  | VNone
  | VFloat (f : float)
  | VStr (s : string).

Definition cell_value (c : cell) : value :=
  match c with
  | Some s => VStr s
  | None => VFloat nan
  end.

(** What [_read_table] gets from pandas: a frame, or the text of the
    exception raised. *)
Definition read_result : Type := string + DataFrame.

Class Runtime := {
  (** [float(s)]; [None] stands for [ValueError]. *)
  py_float : string → option float;
  (** [str(x)] for a float [x]. *)
  py_str_float : float → string;
  (** [round(x, 4)] *)
  py_round4 : float → float;
  (** [re.compile(p)]: the [search] predicate of the compiled pattern, or
      [None] for [re.error]. *)
  re_compile : string → option (string → bool);
  (** [Series.quantile(q)] over the values left by [dropna()]. *)
  pd_quantile : list float → float → float;
  (** [pd.read_csv(path, encoding="utf-8-sig", dtype=str)] *)
  pd_read_csv : string → read_result;
  (** [pd.read_excel(path, sheet_name=0, dtype=str)] *)
  pd_read_excel : string → read_result;
}.

(** ** The reconciliation report and the defect manifest *)

Inductive Status := st_ok | st_read_error | st_fatal_mismatch.

(** One entry of [report["tables"]]. *)
Record TableEntry := mkEntry {
  file : string;
  row_count : nat;
  missing_columns : list string;
  extra_columns : list string;
  status : Status;
  match_rate : option float;
  entry_error : option string;
  entry_message : option string;
}.

(** [schema_report].  A key the dictionary lacks is the empty list here
    ([tables], [reference_columns]), as [schema_report.get("tables") or []]
    reads it, and [None] for [error] and [merge_warning]. *)
Record Report := mkReport {
  error : option string;
  reference_file : string;
  reference_columns : list string;
  tables : list TableEntry;
  merged_row_count : nat;
  fatal_mismatch_count : nat;
  merge_warning : option string;
}.

Inductive ErrorType :=
  | null_structural
  | null_business
  | type_inconsistent
  | duplicate
  | outlier
  | pattern_mismatch
  | constraint_violation.

Inductive Severity := structural | business.

(** One element of [errors]. *)
Record Defect := mkDefect {
  row_index : nat;
  col_name : string;
  error_type : ErrorType;
  severity : Severity;
}.

#[global] Instance ErrorType_eq_dec : EqDecision ErrorType.
Proof. solve_decision. Defined.
#[global] Instance Severity_eq_dec : EqDecision Severity.
Proof. solve_decision. Defined.
#[global] Instance Status_eq_dec : EqDecision Status.
Proof. solve_decision. Defined.
#[global] Instance Defect_eq_dec : EqDecision Defect.
Proof. solve_decision. Defined.

(** [counts] of the manifest. *)
Record Counts := mkCounts {
  structural_nulls : nat;
  business_nulls : nat;
  type_errors : nat;
  duplicates : nat;
  outliers : nat;
  pattern_mismatches : nat;
  constraint_violations : nat;
  total : nat;
}.

Record Manifest := mkManifest {
  errors : list Defect;
  summary : string;
  counts : Counts;
}.

(** One element of [constraints]: a dictionary that may lack any of its
    keys ([c.get("left")], [c.get("right")], [c.get("op", ">")]). *)
Record Constraint := mkConstraint {
  c_left : option string;
  c_op : option string;
  c_right : option string;
}.

(** The fields of a [DataHealthScanner] object. *)
Record DataHealthScanner := mkScanner {
  composite_key_columns : list string;
  numeric_columns : list string;
  outlier_columns : list string;
  pattern_columns : list (string * string);
  constraints : list Constraint;
}.

(** ** Access to a table *)

Fixpoint index_of (c : string) (cols : list string) : option nat :=
  match cols with
  | [] => None
  | d :: cols' => if decide (d = c) then Some 0 else S <$> index_of c cols'
  end.

(** [row[col]] for a row of a frame with the labels [cols]. *)
Definition row_get (cols : list string) (r : list cell) (c : string) : cell :=
  match index_of c cols with
  | Some j => default None (r !! j)
  | None => None
  end.

(** [df.iloc[i][col]] *)
Definition iloc (df : DataFrame) (i : nat) (c : string) : cell :=
  match rows df !! i with
  | Some r => row_get (columns df) r c
  | None => None
  end.

(** [col in df.columns] *)
Definition has_column (df : DataFrame) (c : string) : bool :=
  bool_decide (c ∈ columns df).

(** [enumerate(rows, start)] *)
Fixpoint enumerate_from {A} (i : nat) (l : list A) : list (nat * A) :=
  match l with
  | [] => []
  | x :: l' => (i, x) :: enumerate_from (S i) l'
  end.

(** [len(df)] *)
Definition nrows (df : DataFrame) : nat := length (rows df).

(** ** The health scanner ([scanner.py]) *)

Section Scanner.
Context `{RT : Runtime}.

(** [pd.isna(value)] *)
Definition pd_isna (v : value) : bool :=
  match v with
  | VNone => true
  | VFloat f => is_nan f
  | VStr _ => false
  end.

(** [str(value)] *)
Definition py_str (v : value) : string :=
  match v with
  | VNone => "None"
  | VFloat f => py_str_float f
  | VStr s => s
  end.

Fixpoint file_index_from (row_index cum i : nat) (ts : list TableEntry)
  : nat :=
  match ts with
  | [] => 0
  | t :: ts' =>
      let n := row_count t in
      if Nat.ltb row_index (cum + n) then i
      else file_index_from row_index (cum + n) (S i) ts'
  end.

Definition _row_index_to_file_index (row_index : nat) (schema_report : Report)
  : nat :=
  file_index_from row_index 0 0 (tables schema_report).

Fixpoint missing_from (i : nat) (ts : list TableEntry)
    (out : gmap nat (gset string)) : gmap nat (gset string) :=
  match ts with
  | [] => out
  | t :: ts' =>
      missing_from (S i) ts' (<[i := list_to_set (missing_columns t)]> out)
  end.

Definition _get_missing_columns_by_file (schema_report : Report)
  : gmap nat (gset string) :=
  missing_from 0 (tables schema_report) ∅.

Definition _is_empty (v : value) : bool :=
  if pd_isna v then true
  else
    let s := Py.strip (py_str v) in
    bool_decide (s = "") || bool_decide (Py.lower s = "nan").

Definition _is_numeric_value (v : value) : bool :=
  if pd_isna v || bool_decide (Py.strip (py_str v) = "") then true
  else
    let s := Py.strip (py_str v) in
    match py_float s with
    | Some _ => true
    | None =>
        if Py.endswith "%" s then
          match py_float (Py.strip (Py.rstrip_char "%" s)) with
          | Some _ => true
          | None => false
          end
        else false
    end.

Definition _to_float (v : value) : option float :=
  if pd_isna v || bool_decide (Py.strip (py_str v) = "") then None
  else
    let s := Py.strip (py_str v) in
    match py_float s with
    | Some f => Some f
    | None =>
        if Py.endswith "%" s then
          py_float (Py.strip (Py.rstrip_char "%" s))
        else None
    end.

(** An element of the series [Series.apply(_to_float)] returns.  pandas
    stores a [None] of a float series as NaN; [pd.isna] holds of both. *)
Definition opt_value (o : option float) : value :=
  match o with
  | Some f => VFloat f
  | None => VNone
  end.

(** [Series.dropna()] on the results of [_to_float]. *)
Definition dropna (l : list (option float)) : list float :=
  omap (λ o, match o with
             | Some f => if is_nan f then None else Some f
             | None => None
             end) l.

Definition _outlier_bounds_iqr (series : list value)
  : option float * option float :=
  let k := 1.5%float in
  let numeric := dropna (map _to_float series) in
  if Nat.ltb (length numeric) 4 then (None, None)
  else
    let q1 := pd_quantile numeric 0.25%float in
    let q3 := pd_quantile numeric 0.75%float in
    let iqr := (q3 - q1)%float in
    if (iqr =? 0)%float then (Some q1, Some q3)
    else (Some (q1 - k * iqr)%float, Some (q3 + k * iqr)%float).

Definition _eval_constraint (left_val : option float) (op : string)
    (right_val : option float) : bool :=
  match left_val, right_val with
  | Some l, Some r =>
      if decide (op = ">") then (r <? l)%float
      else if decide (op = "<") then (l <? r)%float
      else if decide (op = ">=") then (r <=? l)%float
      else if decide (op = "<=") then (l <=? r)%float
      else if decide (op = "==") then (l =? r)%float
      else true
  | _, _ => true
  end.

(** [df[col]] *)
Definition column (df : DataFrame) (c : string) : list cell :=
  map (λ r, row_get (columns df) r c) (rows df).

Section Passes.
Variable self : DataHealthScanner.
Variable df : DataFrame.
Variable schema_report : Report.

(** 1. nulls *)
Definition null_pass : list Defect :=
  let missing_by_file := _get_missing_columns_by_file schema_report in
  flat_map (λ ir : nat * list cell,
    let file_idx := _row_index_to_file_index ir.1 schema_report in
    let missing_cols := default ∅ (missing_by_file !! file_idx) in
    flat_map (λ col,
      let val := cell_value (row_get (columns df) ir.2 col) in
      if negb (_is_empty val) then []
      else if bool_decide (col ∈ missing_cols)
      then [mkDefect ir.1 col null_structural structural]
      else [mkDefect ir.1 col null_business business])
      (columns df))
    (enumerate_from 0 (rows df)).

(** 2. type consistency *)
Definition type_pass : list Defect :=
  flat_map (λ col,
    if negb (has_column df col) then []
    else
      flat_map (λ ir : nat * list cell,
        let val := cell_value (row_get (columns df) ir.2 col) in
        if _is_empty val then []
        else if negb (_is_numeric_value val)
        then [mkDefect ir.1 col type_inconsistent business]
        else [])
        (enumerate_from 0 (rows df)))
    (numeric_columns self).

(** The key of a row: [str(cell) if pd.notna(cell) else ""] per column. *)
Definition row_key (key_cols : list string) (r : list cell)
  : list string :=
  map (λ c, default "" (row_get (columns df) r c)) key_cols.

Fixpoint dup_from (key_cols : list string) (i : nat)
    (rs : list (list cell)) (seen : gset (list string)) : list Defect :=
  match rs with
  | [] => []
  | r :: rs' =>
      let key := row_key key_cols r in
      if bool_decide (key ∈ seen) then
        mkDefect i (String.concat "," key_cols) duplicate business
          :: dup_from key_cols (S i) rs' seen
      else dup_from key_cols (S i) rs' ({[key]} ∪ seen)
  end.

(** 3. duplicates *)
Definition dup_pass : list Defect :=
  let key_cols :=
    filter (λ c, c ∈ columns df) (composite_key_columns self) in
  match key_cols with
  | [] => []
  | _ :: _ => dup_from key_cols 0 (rows df) ∅
  end.

(** The rows of one column the outlier check flags, given its bounds. *)
Definition outlier_rows (col : string) (lower upper : option float)
  : list Defect :=
  flat_map (λ ir : nat * list cell,
    let val := cell_value (row_get (columns df) ir.2 col) in
    if _is_empty val then []
    else
      match _to_float val with
      | None => []
      | Some f =>
          if from_option (λ lo, (f <? lo)%float) false lower
             || from_option (λ up, (up <? f)%float) false upper
          then [mkDefect ir.1 col outlier business]
          else []
      end)
    (enumerate_from 0 (rows df)).

Definition outlier_column (col : string) : list Defect :=
  if negb (has_column df col) then []
  else
    let ser :=
      map (λ v, opt_value (_to_float (cell_value v))) (column df col) in
    match _outlier_bounds_iqr ser with
    | (None, None) => []
    | (lower, upper) => outlier_rows col lower upper
    end.

(** 4. outliers.  [list(set(a) | set(b))]: the columns once each, in
    the order the set yields them. *)
Definition all_outlier_cols : list string :=
  elements (list_to_set (numeric_columns self)
            ∪ list_to_set (outlier_columns self) : gset string).

Definition outlier_pass : list Defect :=
  flat_map outlier_column all_outlier_cols.

(** 5. patterns *)
Definition pattern_pass : list Defect :=
  flat_map (λ cp : string * string,
    let col := cp.1 in
    if negb (has_column df col) then []
    else
      match re_compile cp.2 with
      | None => []
      | Some search =>
          flat_map (λ ir : nat * list cell,
            let val := cell_value (row_get (columns df) ir.2 col) in
            if _is_empty val then []
            else if negb (search (Py.strip (py_str val)))
            then [mkDefect ir.1 col pattern_mismatch business]
            else [])
            (enumerate_from 0 (rows df))
      end)
    (pattern_columns self).

(** [not x] for an optional string: [None] and [""] are false. *)
Definition falsy (o : option string) : bool :=
  match o with
  | None => true
  | Some s => bool_decide (s = "")
  end.

Definition constraint_rows (left_col right_col op : string)
  : list Defect :=
  flat_map (λ ir : nat * list cell,
    let left_val := _to_float (cell_value (row_get (columns df) ir.2 left_col)) in
    let right_val := _to_float (cell_value (row_get (columns df) ir.2 right_col)) in
    if negb (_eval_constraint left_val op right_val)
    then [mkDefect ir.1 (left_col +:+ " vs " +:+ right_col)
            constraint_violation business]
    else [])
    (enumerate_from 0 (rows df)).

Definition constraint_check (c : Constraint) : list Defect :=
  let op := default ">" (c_op c) in
  match c_left c, c_right c with
  | Some left_col, Some right_col =>
      if falsy (c_left c) || falsy (c_right c)
         || negb (has_column df left_col)
         || negb (has_column df right_col)
      then []
      else constraint_rows left_col right_col op
  | _, _ => []
  end.

(** 6. cross-column constraints *)
Definition constraint_pass : list Defect :=
  flat_map constraint_check (constraints self).

Definition scan_errors : list Defect :=
  null_pass ++ type_pass ++ dup_pass ++ outlier_pass ++ pattern_pass
    ++ constraint_pass.

End Passes.

(** [f"{n}"] *)
Definition py_str_nat (n : nat) : string :=
  NilZero.string_of_uint (Nat.to_uint n).

(** [parts]: one entry per count above zero, in the order of the source. *)
Definition summary_parts (c : Counts) : list string :=
  (if Nat.ltb 0 (structural_nulls c)
   then [py_str_nat (structural_nulls c) +:+ " 处结构性空值（合并缺列）"]
   else [])
  ++ (if Nat.ltb 0 (business_nulls c)
      then [py_str_nat (business_nulls c) +:+ " 处业务空值"] else [])
  ++ (if Nat.ltb 0 (type_errors c)
      then [py_str_nat (type_errors c) +:+ " 处类型不一致"] else [])
  ++ (if Nat.ltb 0 (duplicates c)
      then [py_str_nat (duplicates c) +:+ " 处重复项"] else [])
  ++ (if Nat.ltb 0 (outliers c)
      then [py_str_nat (outliers c) +:+ " 处异常值"] else [])
  ++ (if Nat.ltb 0 (pattern_mismatches c)
      then [py_str_nat (pattern_mismatches c) +:+ " 处格式不匹配"] else [])
  ++ (if Nat.ltb 0 (constraint_violations c)
      then [py_str_nat (constraint_violations c) +:+ " 处逻辑约束违反"]
      else []).

(** ["发现 " + "，".join(parts) if parts else "未发现异常"] *)
Definition make_summary (c : Counts) : string :=
  match summary_parts c with
  | [] => "未发现异常"
  | parts => "发现 " +:+ String.concat "，" parts
  end.

Definition count_type (t : ErrorType) (errs : list Defect) : nat :=
  length (filter (λ e, error_type e = t) errs).

Definition make_counts (errs : list Defect) : Counts :=
  {| structural_nulls :=
       length (filter (λ e, severity e = structural) errs);
     business_nulls := count_type null_business errs;
     type_errors := count_type type_inconsistent errs;
     duplicates := count_type duplicate errs;
     outliers := count_type outlier errs;
     pattern_mismatches := count_type pattern_mismatch errs;
     constraint_violations := count_type constraint_violation errs;
     total := length errs |}.

(** [DataHealthScanner.scan] *)
Definition scan (self : DataHealthScanner) (df : DataFrame)
    (schema_report : Report) : Manifest :=
  let errs := scan_errors self df schema_report in
  let c := make_counts errs in
  {| errors := errs; summary := make_summary c; counts := c |}.

(** [DataHealthScanner.__init__]: [x or default] replaces [None] and the
    empty list. *)
Definition or_default {A} (o : option (list A)) (d : list A) : list A :=
  match o with
  | None | Some [] => d
  | Some l => l
  end.

Definition new_scanner (composite_key numeric outl : option (list string))
    (patterns : option (list (string * string)))
    (cons : option (list Constraint)) : DataHealthScanner :=
  {| composite_key_columns := or_default composite_key ["姓名"; "班级"];
     numeric_columns := or_default numeric ["分数"];
     outlier_columns := or_default outl [];
     pattern_columns := or_default patterns [];
     constraints := or_default cons [] |}.

(** [scan_health] *)
Definition scan_health (df : DataFrame) (schema_report : Report)
    (composite_key numeric outl : option (list string))
    (patterns : option (list (string * string)))
    (cons : option (list Constraint)) : Manifest :=
  scan (new_scanner composite_key numeric outl patterns cons) df
    schema_report.

End Scanner.

(** ** The merge engine ([merger.py]) *)

(** What a call does: it returns a table and a report, or an exception
    escapes it. *)
Inductive outcome :=
  | Returned (df : DataFrame) (report : Report)
  | Raised (exc : string).

Fixpoint split_go (sep : ascii) (cur : list ascii) (l : list ascii)
  : list string :=
  match l with
  | [] => [string_of_list_ascii (reverse cur)]
  | c :: l' =>
      if decide (c = sep) then
        string_of_list_ascii (reverse cur) :: split_go sep [] l'
      else split_go sep (c :: cur) l'
  end.

(** [s.split(sep)] for a one-character separator. *)
Definition split_on (sep : ascii) (s : string) : list string :=
  split_go sep [] (list_ascii_of_string s).

(** [Path(fp).name]: the last component of the path, empty and [.]
    components left out. *)
Definition path_name (fp : string) : string :=
  default "" (last (filter (λ c, c ≠ "" ∧ c ≠ ".") (split_on "/" fp))).

(** [s.rfind(c)] for a character, as an option. *)
Definition rfind (c : ascii) (l : list ascii) : option nat :=
  (λ j, length l - 1 - j) <$> (fst <$> list_find (λ d, d = c) (reverse l)).

(** [Path(fp).suffix]: from the last dot of the name on, when that dot is
    neither its first nor its last character. *)
Definition path_suffix (fp : string) : string :=
  let name := list_ascii_of_string (path_name fp) in
  match rfind "." name with
  | Some i =>
      if Nat.ltb 0 i && Nat.ltb i (length name - 1)
      then string_of_list_ascii (drop i name) else ""
  | None => ""
  end.

Definition CSV_EXTENSIONS : list string := [".csv"].
Definition EXCEL_EXTENSIONS : list string := [".xlsx"; ".xls"].
(** [0.8], that is the binary64 float nearest to it. *)
Definition MATCH_RATE_WARN_THRESHOLD : float := 0x1.999999999999ap-1%float.

(** [df.reindex(columns=cols)]: the columns [cols] in that order, each taken
    from [df] when it has the label and missing otherwise. *)
Definition reindex (cols : list string) (df : DataFrame) : DataFrame :=
  mkDF cols (map (λ r, map (row_get (columns df) r) cols) (rows df)).

(** [df[cols]] for labels the frame has. *)
Definition select (cols : list string) (df : DataFrame) : DataFrame :=
  mkDF cols (map (λ r, map (row_get (columns df) r) cols) (rows df)).

(** The key of a row: its cells in the columns [on]. *)
Definition key_of (df : DataFrame) (on : list string) (r : list cell)
  : list cell :=
  map (row_get (columns df) r) on.

Fixpoint dedup_rows (key : list cell → list cell) (seen : list (list cell))
    (rs : list (list cell)) : list (list cell) :=
  match rs with
  | [] => []
  | r :: rs' =>
      if decide (key r ∈ seen) then dedup_rows key seen rs'
      else r :: dedup_rows key (key r :: seen) rs'
  end.

(** [df.drop_duplicates(subset=on, keep="first")] *)
Definition drop_duplicates (on : list string) (df : DataFrame) : DataFrame :=
  mkDF (columns df) (dedup_rows (key_of df on) [] (rows df)).

(** [left.merge(right, on=on, how="left", suffixes=("", "_dup"))]: every
    row of [left] in order, once per row of [right] with the same key and
    once with missing cells when there is none; the columns of [right]
    outside [on] follow those of [left], with [_dup] appended to a label
    that [left] has already.  Missing keys match each other, as pandas has
    it.  This is the frame pandas returns; the [ValueError] with which it
    refuses to join a text key column with a float one is outside the
    model, so what is proved of a merge that returns says nothing of a run
    that pandas stops. *)
Definition pd_merge_left (left right : DataFrame) (on : list string)
  : DataFrame :=
  let rcols := filter (λ c, c ∉ on) (columns right) in
  let rnames :=
    map (λ c, if decide (c ∈ columns left) then c +:+ "_dup" else c) rcols in
  mkDF (columns left ++ rnames)
    (flat_map (λ lr,
       match filter (λ rr, key_of right on rr = key_of left on lr)
               (rows right) with
       | [] => [lr ++ map (λ _, None) rcols]
       | ms => map (λ rr, lr ++ map (row_get (columns right) rr) rcols) ms
       end) (rows left)).

(** [s.endswith("_dup")] *)
Definition ends_with_dup (c : string) : bool :=
  match reverse (list_ascii_of_string c) with
  | "p"%char :: "u"%char :: "d"%char :: "_"%char :: _ => true
  | _ => false
  end.

(** [df.drop(columns=[c for c in df.columns if c.endswith("_dup")])] *)
Definition drop_dup_columns (df : DataFrame) : DataFrame :=
  select (filter (λ c, ends_with_dup c = false) (columns df)) df.

(** The labels of [pd.concat(frames)]: those of the frames when they all
    agree, and otherwise their union in order of first appearance. *)
Definition concat_columns (dfs : list DataFrame) : list string :=
  match dfs with
  | [] => []
  | d :: ds =>
      if forallb (λ d', bool_decide (columns d' = columns d)) ds
      then columns d
      else foldl (λ acc d', acc ++ filter (λ c, c ∉ acc)
                                     (remove_dups (columns d')))
             [] dfs
  end.

(** [pd.concat(dfs, axis=0, ignore_index=True)] *)
Definition pd_concat (dfs : list DataFrame) : DataFrame :=
  let cols := concat_columns dfs in
  mkDF cols (flat_map (λ d, rows (reindex cols d)) dfs).

(** [str(x)] for a cell, as [astype(str)] applies it: NaN gives ["nan"]. *)
Definition astype_str (v : cell) : string := default "nan" v.

Definition strip_column (col : string) (out : DataFrame) : DataFrame :=
  if has_column out col then
    mkDF (columns out)
      (map (λ r,
         zip_with (λ c v,
           if decide (c = col) then Some (Py.strip (astype_str v)) else v)
           (columns out) r)
         (rows out))
  else out.

Definition _strip_primary_key_columns (df : DataFrame)
    (key_columns : list string) : DataFrame :=
  foldl (λ out col, strip_column col out) df key_columns.

(** [float(n)] for a row count.  Exact below [2^53]; the quotient of two
    such floats is then the correctly rounded quotient Python computes. *)
Definition float_of_nat (n : nat) : float :=
  PrimFloat.of_uint63 (Uint63.of_Z (Z.of_nat n)).

(** An element of [df.values.tolist()]: the text of a cell, or the float
    object that stands for a missing cell.  The key cells read from a file
    have been through [astype(str)], so a missing cell of a key column is a
    NaN of a float column that [reindex] created, and [tolist] makes a
    float object of its own for every element of such a column.  A NaN
    equals no object but itself, so the object is named by the call that
    made it and by its place. *)
Inductive PyObject :=
  | py_text (s : string)
  | py_nan (call row col : nat).

#[global] Instance PyObject_eq_dec : EqDecision PyObject.
Proof. solve_decision. Defined.

#[global] Instance PyObject_countable : Countable PyObject.
Proof.
  refine (inj_countable'
    (λ o, match o with
          | py_text s => inl s
          | py_nan call row col => inr (call, row, col)
          end)
    (λ x, match x with
          | inl s => py_text s
          | inr (call, row, col) => py_nan call row col
          end) _).
  by intros [].
Defined.

Definition row_objects (call row : nat) (r : list cell) : list PyObject :=
  imap (λ col v,
    match v with
    | Some s => py_text s
    | None => py_nan call row col
    end) r.

(** [df.values.tolist()], for the call numbered [call]. *)
Definition values_tolist (call : nat) (df : DataFrame)
  : list (list PyObject) :=
  imap (row_objects call) (rows df).

(** [set(map(tuple, df.values.tolist()))]: two tuples are the same element
    when their objects are equal one by one. *)
Definition key_set (call : nat) (df : DataFrame) : gset (list PyObject) :=
  list_to_set (values_tolist call df).

Definition set_match_rate (rate : float) (t : TableEntry) : TableEntry :=
  mkEntry (file t) (row_count t) (missing_columns t) (extra_columns t)
    (status t) (Some rate) (entry_error t) (entry_message t).

Definition set_tables (ts : list TableEntry) (r : Report) : Report :=
  mkReport (error r) (reference_file r) (reference_columns r) ts
    (merged_row_count r) (fatal_mismatch_count r) (merge_warning r).

Definition set_warning (w : option string) (r : Report) : Report :=
  mkReport (error r) (reference_file r) (reference_columns r) (tables r)
    (merged_row_count r) (fatal_mismatch_count r) w.

Definition set_reference_columns (cols : list string) (r : Report) : Report :=
  mkReport (error r) (reference_file r) cols (tables r)
    (merged_row_count r) (fatal_mismatch_count r) (merge_warning r).

Definition set_error (e : string) (r : Report) : Report :=
  mkReport (Some e) (reference_file r) (reference_columns r) (tables r)
    (merged_row_count r) (fatal_mismatch_count r) (merge_warning r).

Definition set_merged_row_count (n : nat) (r : Report) : Report :=
  mkReport (error r) (reference_file r) (reference_columns r) (tables r)
    n (fatal_mismatch_count r) (merge_warning r).

Definition set_fatal_mismatch_count (n : nat) (r : Report) : Report :=
  mkReport (error r) (reference_file r) (reference_columns r) (tables r)
    (merged_row_count r) n (merge_warning r).

(** [report["tables"].append(entry)] *)
Definition append_entry (t : TableEntry) (r : Report) : Report :=
  set_tables (tables r ++ [t]) r.

(** [if key_cols: df = _strip_primary_key_columns(df, key_cols)] *)
Definition stripped (key_cols : list string) (df : DataFrame) : DataFrame :=
  match key_cols with
  | [] => df
  | _ :: _ => _strip_primary_key_columns df key_cols
  end.

Section Merger.
Context `{RT : Runtime}.

Definition _read_table (path : string) : read_result :=
  let suffix := Py.lower (path_suffix path) in
  if bool_decide (suffix ∈ CSV_EXTENSIONS) then pd_read_csv path
  else if bool_decide (suffix ∈ EXCEL_EXTENSIONS) then pd_read_excel path
  else inl ("不支持的文件格式: " +:+ suffix).

(** The columns of the files that can be read ([all_cols] after the first
    loop of the incremental mode). *)
Definition readable_columns (file_paths : list string) : gset string :=
  foldl (λ all_cols fp,
    match _read_table fp with
    | inr df => all_cols ∪ list_to_set (columns df)
    | inl _ => all_cols
    end) ∅ file_paths.

(** [cols_to_use] of the incremental mode: the baseline (the explicit one,
    else the columns of the first file), then the other columns of the
    readable files, sorted. *)
Definition incremental_columns (file_paths : list string)
    (cols_to_use : option (list string)) : list string :=
  let all_cols := readable_columns file_paths in
  let baseline_list := default [] cols_to_use in
  let '(baseline_list, all_cols) :=
    match baseline_list, file_paths with
    | [], fp :: _ =>
        match _read_table fp with
        | inr first_df =>
            (columns first_df, all_cols ∪ list_to_set (columns first_df))
        | inl _ => (baseline_list, all_cols)
        end
    | _, _ => (baseline_list, all_cols)
    end in
  let base_set : gset string := list_to_set baseline_list in
  let extra_sorted := merge_sort String.le (elements (all_cols ∖ base_set)) in
  baseline_list ++ extra_sorted.

(** The variables the loop over the files updates. *)
Record LoopState := mkLoop {
  l_report : Report;
  l_merged : list DataFrame;
  l_fatal : nat;
  l_cols : option (list string);
}.

(** One turn of the loop: it goes on to the next file, or leaves the
    function. *)
Inductive turn :=
  | Continue (st : LoopState)
  | Leave (o : outcome).

Definition new_entry (name : string) : TableEntry :=
  mkEntry name 0 [] [] st_ok None None None.

Definition with_columns (n : nat) (missing extra : list string)
    (s : Status) (msg : option string) (t : TableEntry) : TableEntry :=
  mkEntry (file t) n missing extra s (match_rate t) (entry_error t) msg.

(** [len(actual_columns) != len(actual_set)] *)
Definition has_duplicates (cols : list string) : bool :=
  negb (bool_decide (NoDup cols)).

Definition loop_body (key_cols : list string) (template_incremental : bool)
    (i : nat) (fp : string) (st : LoopState) : turn :=
  let report := l_report st in
  let entry := new_entry (path_name fp) in
  match _read_table fp with
  | inl e =>
      let entry :=
        mkEntry (file entry) 0 [] [] st_read_error None (Some e) None in
      Continue (mkLoop (append_entry entry report) (l_merged st)
                  (l_fatal st) (l_cols st))
  | inr df =>
      let df := stripped key_cols df in
      let row_count := nrows df in
      let actual_columns := columns df in
      match i with
      | 0 =>
          if has_duplicates actual_columns then
            Leave (Returned empty_frame
                     (set_reference_columns actual_columns
                        (set_error "基准表存在重复列名，无法合并" report)))
          else
            let cols_to_use :=
              match l_cols st with
              | None | Some [] => actual_columns
              | Some cols => cols
              end in
            let report := set_reference_columns cols_to_use report in
            let kept :=
              match key_cols with
              | _ :: _ => if template_incremental then df
                          else reindex cols_to_use df
              | [] => reindex cols_to_use df
              end in
            let entry :=
              with_columns row_count
                (filter (λ c, c ∉ actual_columns) cols_to_use)
                (filter (λ c, c ∉ cols_to_use) actual_columns)
                st_ok None entry in
            Continue (mkLoop (append_entry entry report)
                        (l_merged st ++ [kept]) (l_fatal st)
                        (Some cols_to_use))
      | S _ =>
          match l_cols st with
          | None => Leave (Raised "TypeError: 'NoneType' object is not iterable")
          | Some cols_to_use =>
              let missing := filter (λ c, c ∉ actual_columns) cols_to_use in
              let extra := filter (λ c, c ∉ cols_to_use) actual_columns in
              if bool_decide (Forall (λ c, c ∉ cols_to_use) actual_columns)
              then
                let entry :=
                  with_columns row_count cols_to_use actual_columns
                    st_fatal_mismatch
                    (Some "与基准表列名无交集，已跳过该表") entry in
                Continue (mkLoop (append_entry entry report) (l_merged st)
                            (S (l_fatal st)) (l_cols st))
              else
                let entry :=
                  with_columns row_count missing extra st_ok None entry in
                Continue (mkLoop (append_entry entry report)
                            (l_merged st ++ [reindex cols_to_use df])
                            (l_fatal st) (l_cols st))
          end
      end
  end.

(** [for i, fp in enumerate(file_paths)] *)
Fixpoint merge_loop (key_cols : list string) (template_incremental : bool)
    (i : nat) (fps : list string) (st : LoopState) : LoopState + outcome :=
  match fps with
  | [] => inl st
  | fp :: fps' =>
      match loop_body key_cols template_incremental i fp st with
      | Continue st' =>
          merge_loop key_cols template_incremental (S i) fps' st'
      | Leave o => inr o
      end
  end.

(** [merge_on] of one join: the key columns both frames have. *)
Definition merge_on_of (key_cols_use : list string) (left right : DataFrame)
  : list string :=
  filter (λ c, c ∈ columns left ∧ c ∈ columns right) key_cols_use.

(** [rate] of one join. *)
Definition join_rate (first right : DataFrame) (merge_on : list string)
  : float :=
  let total_left := nrows first in
  let right_keys :=
    key_set 0 (drop_duplicates merge_on (select merge_on right)) in
  let left_keys := key_set 1 (select merge_on first) in
  let matched := size (left_keys ∩ right_keys) in
  if Nat.eqb total_left 0 then 1%float
  else (float_of_nat matched / float_of_nat total_left)%float.

(** One turn of the loop over [range(1, len(merged_dfs))]. *)
Definition join_body (first : DataFrame) (key_cols_use : list string)
    (idx : nat) (right : DataFrame) (acc : DataFrame * Report)
  : DataFrame * Report :=
  let '(left_df, report) := acc in
  let merge_on := merge_on_of key_cols_use left_df right in
  match merge_on with
  | [] => (left_df, report)
  | _ :: _ =>
      let right_only :=
        filter (λ c, c ∉ columns left_df) (columns right) in
      let right_merge := select (merge_on ++ right_only) right in
      let right_merge := drop_duplicates merge_on right_merge in
      let left_df := pd_merge_left left_df right_merge merge_on in
      let left_df := drop_dup_columns left_df in
      let rate := join_rate first right merge_on in
      let report :=
        set_tables (alter (set_match_rate (py_round4 rate)) idx
                      (tables report)) report in
      let report :=
        if (rate <? MATCH_RATE_WARN_THRESHOLD)%float
           && bool_decide (merge_warning report = None)
        then set_warning
               (Some "发现大量主键无法匹配，请检查是否存在同名异义或格式问题。")
               report
        else report in
      (left_df, report)
  end.

Fixpoint join_loop (first : DataFrame) (key_cols_use : list string)
    (idx : nat) (rights : list DataFrame) (acc : DataFrame * Report)
  : DataFrame * Report :=
  match rights with
  | [] => acc
  | right_df :: rights' =>
      join_loop first key_cols_use (S idx) rights'
        (join_body first key_cols_use idx right_df acc)
  end.

(** The end of [merge_and_report], from [if key_cols and ...] on. *)
Definition combine (key_cols : list string) (merged_dfs : list DataFrame)
    (report : Report) : DataFrame * Report :=
  match key_cols, merged_dfs with
  | _ :: _, first :: rights =>
      let key_cols_use := filter (λ c, c ∈ columns first) key_cols in
      match key_cols_use with
      | _ :: _ =>
          let '(left_df, report) :=
            join_loop first key_cols_use 1 rights (first, report) in
          (reindex (reference_columns report) left_df, report)
      | [] => (pd_concat merged_dfs, report)
      end
  | _, _ => (pd_concat merged_dfs, report)
  end.

(** [TableMerger.merge_and_report] *)
Definition merge_and_report (file_paths : list string)
    (baseline_columns : option (list string)) (template_incremental : bool)
    (primary_key_columns : option (list string)) : outcome :=
  match file_paths with
  | [] =>
      Returned empty_frame (mkReport (Some "file_paths 为空") "" [] [] 0 0 None)
  | fp0 :: _ =>
      let report := mkReport None (path_name fp0) [] [] 0 0 None in
      let cols_to_use :=
        match baseline_columns with
        | None | Some [] => None
        | Some cols => Some cols
        end in
      let key_cols := default [] primary_key_columns in
      let cols_to_use :=
        if template_incremental
        then Some (incremental_columns file_paths cols_to_use)
        else cols_to_use in
      match merge_loop key_cols template_incremental 0 file_paths
              (mkLoop report [] 0 cols_to_use) with
      | inr o => o
      | inl st =>
          let report := set_fatal_mismatch_count (l_fatal st) (l_report st) in
          match l_merged st with
          | [] => Returned empty_frame (set_merged_row_count 0 report)
          | _ :: _ =>
              let '(result, report) :=
                combine key_cols (l_merged st) report in
              Returned result (set_merged_row_count (nrows result) report)
          end
      end
  end.

End Merger.

(** ** Notions the properties are stated with *)

(** The [missing_columns] of the table entry at position [k] of the report
    (none when the report has no such entry). *)
Definition missing_of (schema_report : Report) (k : nat) : list string :=
  match tables schema_report !! k with
  | Some t => missing_columns t
  | None => []
  end.

(** The rows the entries before position [k] account for. *)
Definition rows_before (schema_report : Report) (k : nat) : nat :=
  sum_list_with row_count (take k (tables schema_report)).

Definition is_null (e : Defect) : Prop :=
  error_type e = null_structural ∨ error_type e = null_business.

(** The records of [errs] about the cell at row [i] and column [c] that
    satisfy [P]. *)
Definition records_at (P : Defect → Prop) `{∀ e, Decision (P e)}
    (i : nat) (c : string) (errs : list Defect) : list Defect :=
  filter (λ e, row_index e = i ∧ col_name e = c ∧ P e) errs.

#[global] Instance is_null_dec e : Decision (is_null e).
Proof. unfold is_null. apply _. Defined.

(** The six passes of [scan], in the order they run. *)
Definition passes `{RT : Runtime} (self : DataHealthScanner)
    (df : DataFrame) (schema_report : Report) : list (list Defect) :=
  [null_pass df schema_report; type_pass self df; dup_pass self df;
   outlier_pass self df; pattern_pass self df; constraint_pass self df].

(** The position in [passes] of the pass that emits records of a kind. *)
Definition pass_of (k : ErrorType) : nat :=
  match k with
  | null_structural | null_business => 0
  | type_inconsistent => 1
  | duplicate => 2
  | outlier => 3
  | pattern_mismatch => 4
  | constraint_violation => 5
  end.

(** ** A reference run-time library

    One instance of [Runtime], to run the definitions on concrete tables.
    It covers the part of each library function the examples use:
    - [float]: an optional sign, then [nan], [inf], [infinity] or decimal
      digits with an optional fraction, read as the quotient of two
      integers (the correctly rounded value while both are below [2^53], that
      is up to 15 significant digits);
    - [str] of a float: its exact decimal expansion;
    - [round(x, 4)]: the float nearest to the exact value of [x] rounded
      half-to-even at the fourth decimal;
    - [re.compile]: patterns made of letters and digits only, which match
      themselves anywhere in the subject;
    - [Series.quantile]: linear interpolation between the two nearest
      order statistics;
    - the readers: the files are those of a given list. *)

Module Ref.

Definition float_of_Z (z : Z) : float :=
  if (z <? 0)%Z then (- PrimFloat.of_uint63 (Uint63.of_Z (- z)))%float
  else PrimFloat.of_uint63 (Uint63.of_Z z).

Definition digit (c : ascii) : option Z :=
  let n := nat_of_ascii c in
  if Nat.leb 48 n && Nat.leb n 57 then Some (Z.of_nat (n - 48)) else None.

Fixpoint digits_go (acc : Z) (l : list ascii) : option Z :=
  match l with
  | [] => Some acc
  | c :: l' => d ← digit c; digits_go (10 * acc + d)%Z l'
  end.

Fixpoint span_digits (l : list ascii) : list ascii * list ascii :=
  match l with
  | c :: l' =>
      match digit c with
      | Some _ => let '(ds, rest) := span_digits l' in (c :: ds, rest)
      | None => ([], l)
      end
  | [] => ([], [])
  end.

Definition unsigned_float (l : list ascii) : option float :=
  let low := Py.lower (string_of_list_ascii l) in
  if decide (low = "nan") then Some nan
  else if decide (low = "inf") then Some infinity
  else if decide (low = "infinity") then Some infinity
  else
    let '(ip, rest) := span_digits l in
    let fp := match rest with
              | c :: fp => if decide (c = "."%char) then Some fp else None
              | [] => Some []
              end in
    match fp with
    | None => None
    | Some fp =>
        if bool_decide (ip = [] ∧ fp = []) then None
        else
          m ← digits_go 0 (ip ++ fp);
          Some (float_of_Z m / float_of_Z (10 ^ Z.of_nat (length fp)))%float
    end.

Definition parse_float (s : string) : option float :=
  match list_ascii_of_string (Py.strip s) with
  | c :: l =>
      if decide (c = "-"%char) then (λ f, (- f)%float) <$> unsigned_float l
      else if decide (c = "+"%char) then unsigned_float l
      else unsigned_float (c :: l)
  | [] => None
  end.

Definition string_of_Z (z : Z) : string :=
  NilZero.string_of_int (Z.to_int z).

Definition rstrip_zeros (l : list ascii) : list ascii :=
  reverse (Py.drop_while_eq "0"%char (reverse l)).

(** [m / 10^k] for [m ≥ 0], in decimal with at least one fractional
    digit. *)
Definition decimal (m : Z) (k : nat) : string :=
  let ds := list_ascii_of_string (string_of_Z m) in
  let ds := replicate (S k - length ds) "0"%char ++ ds in
  let ip := take (length ds - k) ds in
  let fp := rstrip_zeros (drop (length ds - k) ds) in
  string_of_list_ascii
    (ip ++ "."%char :: (if decide (fp = []) then ["0"%char] else fp)).

Definition show_float (f : float) : string :=
  match Prim2SF f with
  | S754_nan => "nan"
  | S754_infinity s => if s then "-inf" else "inf"
  | S754_zero s => if s then "-0.0" else "0.0"
  | S754_finite s m e =>
      (if s then "-" else "") +:+
      (if (0 <=? e)%Z then decimal (Z.pos m * 2 ^ e) 0
       else decimal (Z.pos m * 5 ^ (- e)) (Z.to_nat (- e)))
  end.

(** [n / d] rounded to the nearest integer, ties to even. *)
Definition div_half_even (n d : Z) : Z :=
  let q := (n / d)%Z in
  let r := (n mod d)%Z in
  match (2 * r ?= d)%Z with
  | Lt => q
  | Gt => (q + 1)%Z
  | Eq => if Z.even q then q else (q + 1)%Z
  end.

Definition round4 (f : float) : float :=
  match Prim2SF f with
  | S754_finite s m e =>
      if (0 <=? e)%Z then f
      else
        let n := div_half_even (Z.pos m * 10000) (2 ^ (- e)) in
        let r := (float_of_Z n / 10000)%float in
        if s then (- r)%float else r
  | _ => f
  end.

Definition alnum (c : ascii) : bool :=
  let n := nat_of_ascii c in
  (Nat.leb 48 n && Nat.leb n 57) || (Nat.leb 65 n && Nat.leb n 90)
  || (Nat.leb 97 n && Nat.leb n 122).

Fixpoint contains (p l : list ascii) : bool :=
  match Py.drop_prefix p l with
  | Some _ => true
  | None => match l with
            | [] => false
            | _ :: l' => contains p l'
            end
  end.

Definition compile (p : string) : option (string → bool) :=
  if forallb alnum (list_ascii_of_string p)
  then Some (λ s, contains (list_ascii_of_string p) (list_ascii_of_string s))
  else None.

Definition float_floor (f : float) : Z :=
  match Prim2SF f with
  | S754_finite false m e => Z.shiftl (Z.pos m) e
  | _ => 0%Z
  end.

#[local] Instance float_le_dec (x y : float) :
  Decision (PrimFloat.leb x y = true).
Proof. apply _. Defined.

Definition quantile (l : list float) (q : float) : float :=
  let sorted := merge_sort (λ x y, PrimFloat.leb x y = true) l in
  let pos := (float_of_Z (Z.of_nat (length l - 1)) * q)%float in
  let lo := Z.to_nat (float_floor pos) in
  let t := (pos - float_of_Z (Z.of_nat lo))%float in
  let a := default nan (sorted !! lo) in
  let b := default a (sorted !! S lo) in
  if (t <? 0.5)%float then (a + (b - a) * t)%float
  else (b - (b - a) * (1 - t))%float.

Definition read (fs : list (string * DataFrame)) (path : string)
  : read_result :=
  match list_find (λ e, e.1 = path) fs with
  | Some (_, (_, df)) => inr df
  | None => inl "No such file or directory"
  end.

Definition runtime (fs : list (string * DataFrame)) : Runtime :=
  {| py_float := parse_float;
     py_str_float := show_float;
     py_round4 := round4;
     re_compile := compile;
     pd_quantile := quantile;
     pd_read_csv := read fs;
     pd_read_excel := read fs |}.

End Ref.

(** ** Sample tables for the examples *)

Module Sample.

(** Two stacked files: [a.csv] with both columns, [b.csv] without
    [Score]. *)
Definition merged : DataFrame :=
  mkDF ["Name"; "Score"]
    [ [Some "Ann"; Some " NaN "]; [Some "Bob"; None] ].

Definition entry (f : string) (n : nat) (missing : list string)
  : TableEntry :=
  mkEntry f n missing [] st_ok None None None.

Definition report : Report :=
  mkReport None "a.csv" ["Name"; "Score"]
    [ entry "a.csv" 1 []; entry "b.csv" 1 ["Score"] ] 2 0 None.

Definition scanner : DataHealthScanner :=
  mkScanner ["Name"] ["Score"] [] [] [].

End Sample.

(** The configured composite-key columns the table has. *)
Definition keys_in_table (self : DataHealthScanner) (df : DataFrame)
  : list string :=
  filter (λ c, c ∈ columns df) (composite_key_columns self).

(** The [duplicate] records of [errs] about row [i]. *)
Definition dup_records (i : nat) (errs : list Defect) : list Defect :=
  filter (λ e, row_index e = i ∧ error_type e = duplicate) errs.

(** The duplicate check as the design document words it: with the key of a
    row built from the configured key columns the table has (a missing
    value counting as the empty string), row [i] gets one [duplicate]
    record when an earlier row has the same key, and none otherwise. *)
Definition duplicates_flagged `{RT : Runtime} (self : DataHealthScanner)
    (df : DataFrame) (schema_report : Report) : Prop :=
  let key := row_key df (keys_in_table self df) in
  ∀ i r, rows df !! i = Some r →
    dup_records i (errors (scan self df schema_report))
    = if decide (key r ∈ key <$> take i (rows df))
      then [mkDefect i (String.concat "," (keys_in_table self df))
              duplicate business]
      else [].

Module SampleDup.

(** Two rows with the same name; [with_key] declares [Name] as the key,
    [without_key] a column the table does not have. *)
Definition table : DataFrame :=
  mkDF ["Name"; "Class"]
    [ [Some "Ann"; Some "1"]; [Some "Ann"; Some "2"] ].

Definition report : Report :=
  mkReport None "a.csv" ["Name"; "Class"]
    [ Sample.entry "a.csv" 2 [] ] 2 0 None.

Definition with_key : DataHealthScanner := mkScanner ["Name"] [] [] [] [].

Definition without_key : DataHealthScanner := mkScanner ["Id"] [] [] [] [].

End SampleDup.

(** The five comparison operators of a constraint, as the configuration
    spells them, and what each means on two floats. *)
Inductive CmpOp := op_gt | op_lt | op_ge | op_le | op_eq.

Definition op_text (o : CmpOp) : string :=
  match o with
  | op_gt => ">"
  | op_lt => "<"
  | op_ge => ">="
  | op_le => "<="
  | op_eq => "=="
  end.

Definition op_holds (o : CmpOp) (x y : float) : bool :=
  match o with
  | op_gt => (y <? x)%float
  | op_lt => (x <? y)%float
  | op_ge => (y <=? x)%float
  | op_le => (x <=? y)%float
  | op_eq => (x =? y)%float
  end.

Module SampleConstraint.

(** [High] must exceed [Low]: row 0 complies, row 1 does not, row 2 has a
    cell that is not a number, row 3 compares two percentages. *)
Definition table : DataFrame :=
  mkDF ["Low"; "High"]
    [ [Some "1"; Some "2.5"]; [Some "3"; Some "2"]; [Some "n/a"; Some "0"];
      [Some "50%"; Some "7.5%"] ].

Definition report : Report :=
  mkReport None "a.csv" ["Low"; "High"]
    [ Sample.entry "a.csv" 4 [] ] 4 0 None.

Definition high_gt_low : Constraint :=
  mkConstraint (Some "High") (Some ">") (Some "Low").

Definition scanner : DataHealthScanner :=
  mkScanner ["Low"] ["Low"] [] [] [high_gt_low].

End SampleConstraint.

(** The numbers of a column: the cells [_to_float] parses to a float other
    than NaN. *)
Definition column_numbers `{RT : Runtime} (df : DataFrame) (col : string)
  : list float :=
  dropna (map (λ v, _to_float (cell_value v)) (column df col)).

(** The outlier bounds as the design document words them:
    [Q1 - 1.5 IQR, Q3 + 1.5 IQR], and [Q1, Q3] when [IQR = 0]. *)
Definition iqr_bounds `{RT : Runtime} (numbers : list float) : float * float :=
  let q1 := pd_quantile numbers 0.25%float in
  let q3 := pd_quantile numbers 0.75%float in
  let iqr := (q3 - q1)%float in
  if (iqr =? 0)%float then (q1, q3)
  else ((q1 - 1.5 * iqr)%float, (q3 + 1.5 * iqr)%float).

(** [f] lies outside [[lower, upper]]. *)
Definition outside (bounds : float * float) (f : float) : bool :=
  (f <? bounds.1)%float || (bounds.2 <? f)%float.

(** The [outlier] records of [errs] about the cell at row [i], column [c]. *)
Definition outlier_records (i : nat) (c : string) (errs : list Defect)
  : list Defect :=
  filter (λ e, row_index e = i ∧ col_name e = c ∧ error_type e = outlier) errs.

Module SampleOutlier.

(** [Score] has five numbers, one of them far from the others, a text cell
    and an empty cell; [Age] has three numbers only. *)
Definition table : DataFrame :=
  mkDF ["Score"; "Age"]
    [ [Some "10"; Some "1"]; [Some "11"; Some "2"]; [Some "12"; Some "900"];
      [Some "13"; None]; [Some "100"; None]; [Some "abc"; None];
      [None; None] ].

Definition report : Report :=
  mkReport None "a.csv" ["Score"; "Age"]
    [ Sample.entry "a.csv" 7 [] ] 7 0 None.

Definition scanner : DataHealthScanner :=
  mkScanner ["Id"] ["Score"] ["Age"] [] [].

End SampleOutlier.

(** The seven kinds of the summary with their counts, in the order the
    design document fixes: structural null, business null, type,
    duplicate, outlier, pattern, constraint. *)
Definition summary_kinds (c : Counts) : list (nat * string) :=
  [ (structural_nulls c, " 处结构性空值（合并缺列）");
    (business_nulls c, " 处业务空值");
    (type_errors c, " 处类型不一致");
    (duplicates c, " 处重复项");
    (outliers c, " 处异常值");
    (pattern_mismatches c, " 处格式不匹配");
    (constraint_violations c, " 处逻辑约束违反") ].

(** How the summary mentions a kind: its count, then its label. *)
Definition mention `{RT : Runtime} (kind : nat * string) : string :=
  py_str_nat kind.1 +:+ kind.2.

(** The rows of the files that were kept: the entries with status [ok]. *)
Definition kept_rows (ts : list TableEntry) : nat :=
  sum_list_with row_count (filter (λ t, status t = st_ok) ts).

(** Two lists of entries that differ in their match rates at most. *)
Definition same_entries (ts ts' : list TableEntry) : Prop :=
  Forall2 (λ t t', file t' = file t ∧ row_count t' = row_count t
                   ∧ status t' = status t
                   ∧ missing_columns t' = missing_columns t
                   ∧ extra_columns t' = extra_columns t) ts ts'.

(** What a join leaves alone: the number of rows of the running result,
    and everything in the report but match rates and the warning. *)
Definition join_keeps (acc acc' : DataFrame * Report) : Prop :=
  nrows acc'.1 = nrows acc.1
  ∧ error acc'.2 = error acc.2
  ∧ reference_columns acc'.2 = reference_columns acc.2
  ∧ reference_file acc'.2 = reference_file acc.2
  ∧ fatal_mismatch_count acc'.2 = fatal_mismatch_count acc.2
  ∧ same_entries (tables acc.2) (tables acc'.2).

(** What the loop over the files maintains: the frames kept so far have as
    many rows as the entries with status [ok] record, and no top-level error
    is set. *)
Definition loop_inv `{RT : Runtime} (st : LoopState) : Prop :=
  sum_list_with nrows (l_merged st) = kept_rows (tables (l_report st))
  ∧ error (l_report st) = None.

(** What the loop knows once it has read file 0 as [df0]: the frame kept for
    it comes first, entry 0 records its rows, and the baseline is fixed. *)
Definition first_facts `{RT : Runtime} (key_cols : list string)
    (template_incremental : bool) (df0 : DataFrame) (st : LoopState) : Prop :=
  ∃ first rest e0 cols,
    l_merged st = first :: rest
    ∧ l_cols st = Some cols
    ∧ reference_columns (l_report st) = cols
    ∧ tables (l_report st) !! 0 = Some e0
    ∧ row_count e0 = nrows df0 ∧ status e0 = st_ok
    ∧ nrows first = nrows df0
    ∧ columns first
      = if bool_decide (key_cols ≠ []) && template_incremental
        then columns df0 else cols.

Module SampleNoKey.

(** Two one-row files without the key column [Id] of the request. *)
Definition files : list (string * DataFrame) :=
  [ ("a.csv", mkDF ["A"] [ [Some "1"] ]);
    ("b.csv", mkDF ["A"] [ [Some "2"] ]) ].

End SampleNoKey.

Module SampleMerge.

(** [a.csv] and [b.csv] share the key column [K]; [b.csv] repeats the key
    [k1] and lacks [k2]. *)
Definition a : DataFrame :=
  mkDF ["K"; "A"] [ [Some "k1"; Some "1"]; [Some " k2"; Some "2"] ].

Definition b : DataFrame :=
  mkDF ["K"; "B"]
    [ [Some "k1 "; Some "x"]; [Some "k1"; Some "y"]; [Some "k3"; Some "z"] ].

Definition files : list (string * DataFrame) :=
  [ ("a.csv", a); ("b.csv", b) ].

End SampleMerge.

(** The frame kept for file [i], read as [df], under the baseline [cols]. *)
Definition kept_frame (key_cols : list string) (template_incremental : bool)
    (cols : list string) (i : nat) (df : DataFrame) : DataFrame :=
  match i, key_cols with
  | 0, _ :: _ =>
      if template_incremental then stripped key_cols df
      else reindex cols (stripped key_cols df)
  | _, _ => reindex cols (stripped key_cols df)
  end.

(** ** Frames as objects

    A frame of pandas is an object.  A store maps the references of a run
    to the frames they stand for: [df.copy()] and
    [df.reindex(columns=cols)] make a new frame and leave the one they
    read, while the assignment [out[col] = ...] writes into the frame that
    [out] stands for. *)
Module Heap.

(** A new object holding [df]. *)
Definition new (df : DataFrame) (σ : gmap nat DataFrame)
  : nat * gmap nat DataFrame :=
  let ref := fresh (dom σ) in (ref, <[ref := df]> σ).

(** [df.copy()] *)
Definition copy (df : nat) (σ : gmap nat DataFrame)
  : option (nat * gmap nat DataFrame) :=
  frame ← σ !! df; Some (new frame σ).

(** [df.reindex(columns=cols)] *)
Definition reindex (cols : list string) (df : nat) (σ : gmap nat DataFrame)
  : option (nat * gmap nat DataFrame) :=
  frame ← σ !! df; Some (new (reindex cols frame) σ).

(** One turn of the loop of [_strip_primary_key_columns]: nothing for a
    column that [out] lacks, and otherwise the assignment
    [out[col] = out[col].astype(str).str.strip()], which writes into the
    frame of [out]. *)
Definition set_stripped (col : string) (out : nat) (σ : gmap nat DataFrame)
  : gmap nat DataFrame :=
  alter (strip_column col) out σ.

(** [_strip_primary_key_columns(df, key_columns)]: the copy [out] is made
    first, the columns are written into it, and [out] is returned. *)
Definition _strip_primary_key_columns (df : nat) (key_columns : list string)
    (σ : gmap nat DataFrame) : option (nat * gmap nat DataFrame) :=
  '(out, σ) ← copy df σ;
  Some (out, foldl (λ σ col, set_stripped col out σ) σ key_columns).


End Heap.

(** The key tuples of a frame over the columns [on], row by row. *)
Definition keys_of_frame (df : DataFrame) (on : list string)
  : list (list cell) :=
  key_of df on <$> rows df.

(** A key tuple none of whose cells is missing. *)
Definition complete (k : list cell) : Prop := Forall is_Some k.

#[global] Instance complete_dec k : Decision (complete k).
Proof. unfold complete. apply _. Defined.







Module SampleRate.

(** File 0 has three keys, of which [b.csv] has one. *)
Definition a : DataFrame :=
  mkDF ["K"; "A"]
    [ [Some "k1"; Some "1"]; [Some "k2"; Some "2"]; [Some "k3"; Some "3"] ].

Definition b : DataFrame := mkDF ["K"; "A"] [ [Some "k1"; Some "9"] ].

Definition files : list (string * DataFrame) :=
  [ ("a.csv", a); ("b.csv", b) ].

End SampleRate.

Module SampleAbsentKey.

(** Two files without the key column [K] of the baseline. *)
Definition a : DataFrame := mkDF ["A"] [ [Some "1"]; [Some "2"] ].

Definition b : DataFrame := mkDF ["A"] [ [Some "1"] ].

Definition files : list (string * DataFrame) :=
  [ ("a.csv", a); ("b.csv", b) ].

End SampleAbsentKey.





(** ** Further functions of [scanner.py] *)

Fixpoint row_ranges_from (start : nat) (ts : list TableEntry)
  : list (nat * nat) :=
  match ts with
  | [] => []
  | t :: ts' =>
      let n := row_count t in
      (start, start + n) :: row_ranges_from (start + n) ts'
  end.

(** [_build_row_ranges]: per entry of the report, the rows of the merged
    table it accounts for, as a half-open range. *)
Definition _build_row_ranges (schema_report : Report) : list (nat * nat) :=
  row_ranges_from 0 (tables schema_report).

(** ** Notions for the report of a merge *)

(** [cols_to_use] when the loop over the files starts: the baseline of the
    caller if it is not empty, replaced in incremental mode by the
    incremental columns; [None] when there is none. *)
Definition given_columns `{RT : Runtime} (file_paths : list string)
    (baseline_columns : option (list string)) (template_incremental : bool)
  : option (list string) :=
  let cols_to_use :=
    match baseline_columns with
    | None | Some [] => None
    | Some cols => Some cols
    end in
  if template_incremental
  then Some (incremental_columns file_paths cols_to_use)
  else cols_to_use.

(** The baseline the files are compared with: the given columns when there
    are some, and otherwise the columns of file 0 (none if it cannot be
    read). *)
Definition baseline_in_use `{RT : Runtime} (file_paths : list string)
    (baseline_columns : option (list string)) (template_incremental : bool)
  : list string :=
  match given_columns file_paths baseline_columns template_incremental with
  | Some (c :: cols) => c :: cols
  | _ =>
      match file_paths with
      | fp :: _ =>
          match _read_table fp with
          | inr df => columns df
          | inl _ => []
          end
      | [] => []
      end
  end.

(** File [i] is skipped as a Fatal Mismatch under the baseline [cols]: it
    is not file 0 and none of its columns is in [cols]. *)
Definition mismatched (cols : list string) (i : nat) (df : DataFrame)
  : Prop :=
  i ≠ 0 ∧ Forall (λ c, c ∉ cols) (columns df).

#[global] Instance mismatched_dec cols i df : Decision (mismatched cols i df).
Proof. unfold mismatched. apply _. Defined.

(** The entry [t] describes file [i] at the path [fp] under the baseline
    [cols]: its name; for a file that cannot be read the status
    [read_error], no row and no column; for a file that is read its number
    of rows and, when it is a Fatal Mismatch, the whole baseline as missing
    and all its columns as extra, and otherwise the status [ok], the
    baseline columns it lacks and its columns outside the baseline, both in
    their order. *)
Definition described `{RT : Runtime} (cols : list string) (i : nat)
    (fp : string) (t : TableEntry) : Prop :=
  file t = path_name fp
  ∧ match _read_table fp with
    | inl e =>
        status t = st_read_error ∧ row_count t = 0
        ∧ missing_columns t = [] ∧ extra_columns t = []
        ∧ entry_error t = Some e
    | inr df =>
        row_count t = nrows df ∧ entry_error t = None
        ∧ if decide (mismatched cols i df)
          then status t = st_fatal_mismatch
               ∧ missing_columns t = cols ∧ extra_columns t = columns df
          else status t = st_ok
               ∧ missing_columns t = filter (λ c, c ∉ columns df) cols
               ∧ extra_columns t = filter (λ c, c ∉ cols) (columns df)
    end.

(** The frame the loop keeps for file [i], if it keeps one. *)
Definition kept_of `{RT : Runtime} (key_cols : list string)
    (template_incremental : bool) (cols : list string) (i : nat) (fp : string)
  : option DataFrame :=
  match _read_table fp with
  | inl _ => None
  | inr df =>
      if decide (mismatched cols i df) then None
      else Some (kept_frame key_cols template_incremental cols i df)
  end.

(** The frames kept for the files [fps], numbered from [i]. *)
Definition kept_frames `{RT : Runtime} (key_cols : list string)
    (template_incremental : bool) (cols : list string) (i : nat)
    (fps : list string) : list DataFrame :=
  omap (λ ifp : nat * string,
          kept_of key_cols template_incremental cols ifp.1 ifp.2)
    (enumerate_from i fps).

(** The rows file [i] brings to a stacked merge under the baseline [cols]:
    its rows aligned on [cols], unless it cannot be read or is a Fatal
    Mismatch. *)
Definition contributed `{RT : Runtime} (cols : list string) (i : nat)
    (fp : string) : list (list cell) :=
  match _read_table fp with
  | inl _ => []
  | inr df =>
      if decide (mismatched cols i df) then [] else rows (reindex cols df)
  end.

(** The path [fp] can be read as a table. *)
Definition readable `{RT : Runtime} (fp : string) : Prop :=
  ∃ df, _read_table fp = inr df.

#[global] Instance readable_dec `{RT : Runtime} fp : Decision (readable fp).
Proof.
  unfold readable. destruct (_read_table fp) as [e | df].
  - right. by intros [df ?].
  - left. by exists df.
Defined.

(** What the loop over the files leaves of the report, its entries and its
    baseline apart. *)
Definition untouched (r r' : Report) : Prop :=
  error r' = error r ∧ reference_file r' = reference_file r
  ∧ merged_row_count r' = merged_row_count r
  ∧ fatal_mismatch_count r' = fatal_mismatch_count r
  ∧ merge_warning r' = merge_warning r.

(** The entries [es] describe the files [fps], numbered from [i]. *)
Definition describe_all `{RT : Runtime} (cols : list string) (i : nat)
    (fps : list string) (es : list TableEntry) : Prop :=
  length es = length fps
  ∧ ∀ j fp, fps !! j = Some fp →
      ∃ t, es !! j = Some t ∧ described cols (i + j) fp t
        ∧ match_rate t = None.

(** The number of entries with the status Fatal Mismatch. *)
Definition fatal_entries (es : list TableEntry) : nat :=
  length (filter (λ t, status t = st_fatal_mismatch) es).

(** What the loop over the files [fps] leaves when it goes through them
    all under the baseline [cols], started on the report [report0]: the
    frames kept, one entry per file that describes the file, and the number
    of Fatal Mismatch entries. *)
Definition run_facts `{RT : Runtime} (key_cols : list string)
    (template_incremental : bool) (fps : list string) (cols : list string)
    (report0 : Report) (st : LoopState) : Prop :=
  untouched report0 (l_report st)
  ∧ l_merged st = kept_frames key_cols template_incremental cols 0 fps
  ∧ describe_all cols 0 fps (tables (l_report st))
  ∧ l_fatal st = fatal_entries (tables (l_report st)).

(** The report the loop starts on. *)
Definition start_report (fp0 : string) : Report :=
  mkReport None (path_name fp0) [] [] 0 0 None.

(** The end of [merge_and_report], from the state the loop leaves. *)
Definition finish `{RT : Runtime} (key_cols : list string) (st : LoopState)
  : outcome :=
  let report := set_fatal_mismatch_count (l_fatal st) (l_report st) in
  match l_merged st with
  | [] => Returned empty_frame (set_merged_row_count 0 report)
  | _ :: _ =>
      let '(result, report) := combine key_cols (l_merged st) report in
      Returned result (set_merged_row_count (nrows result) report)
  end.

(** The entry [t'] is the entry [t], its match rate apart. *)
Definition up_to_rate (t t' : TableEntry) : Prop :=
  t' = t ∨ ∃ r, t' = set_match_rate r t.

(** What [_strip_primary_key_columns] makes of the cell [v] of the column
    [c]: its text stripped when [c] is one of the key columns ([astype(str)]
    turning a missing cell into ["nan"]), and [v] otherwise. *)
Definition strip_cell (key_columns : list string) (c : string) (v : cell)
  : cell :=
  if decide (c ∈ key_columns) then Some (Py.strip (astype_str v)) else v.

(** ** Header analysis and merge strategy ([merger.py])

    The analysis works on the uploaded files kept in memory, each a name
    and its bytes.  What it calls in pandas is a field of the class
    [HeaderReaders]: the labels of a file read with [nrows=0], and the
    table of a file read with [dtype=str] and at most [nrows] rows.  The
    labels are strings, as those of a CSV header are. *)

Class HeaderReaders := {
  (** [list(pd.read_csv(io.BytesIO(content), encoding="utf-8-sig",
      nrows=0).columns)]; [inl] holds the text of the exception. *)
  csv_header : string → string + list string;
  (** [list(pd.read_excel(io.BytesIO(content), sheet_name=0,
      nrows=0).columns)] *)
  excel_header : string → string + list string;
  (** [pd.read_csv(io.BytesIO(content), encoding="utf-8-sig", dtype=str,
      nrows=nrows)] *)
  csv_table : string → option nat → read_result;
  (** [pd.read_excel(io.BytesIO(content), sheet_name=0, dtype=str,
      nrows=nrows)] *)
  excel_table : string → option nat → read_result;
}.

(** [kw in col] for two strings: [kw] occurs in [col]. *)
Fixpoint occurs_in (p l : list ascii) : bool :=
  match Py.drop_prefix p l with
  | Some _ => true
  | None =>
      match l with
      | [] => false
      | _ :: l' => occurs_in p l'
      end
  end.

Definition str_in (kw col : string) : bool :=
  occurs_in (list_ascii_of_string kw) (list_ascii_of_string col).

(** One element of [files] in the result of the analysis.  [h_error] is
    [None] when the dictionary has no key [error]. *)
Record HeaderEntry := mkHeaderEntry {
  h_file : string;
  h_missing : list string;
  h_extra : list string;
  h_row_count : nat;
  h_error : option string;
}.

(** The result of [analyze_headers_only_from_contents]. *)
Record HeaderReport := mkHeaderReport {
  base_columns : list string;
  files : list HeaderEntry;
}.

(** The preview of a merge: its columns, and its rows as dictionaries from
    column to cell, in insertion order. *)
Record Preview := mkPreview {
  p_columns : list string;
  p_rows : list (list (string * cell));
}.

(** The result of [_strategy_from_base], with the [preview] that
    [analyze_headers_with_strategy_from_contents] may add. *)
Record Strategy := mkStrategy {
  s_base : HeaderReport;
  columns_intersection : list string;
  columns_union : list string;
  synonym_candidates : list (list string);
  suggested_primary_key : list string;
  type_conflicts : list string;
  suggested_merge_mode : string;
  duplicate_column_groups : list (list string);
  preview : option Preview;
}.

Definition PREVIEW_MAX_ROWS : nat := 3.

Definition SYNONYM_PAIRS : list (list string) :=
  [ ["分数"; "成绩"]; ["姓名"; "名字"]; ["日期"; "时间"] ].

Definition PRIMARY_KEY_KEYWORDS : list string :=
  ["姓名"; "班级"; "id"; "编号"; "学号"; "代码"].

(** [d[k] = v] on a dictionary kept as the list of its items: the value
    of a key the dictionary has is replaced where it stands, a new key is
    added at the end. *)
Fixpoint dict_set {V} (k : string) (v : V) (d : list (string * V))
  : list (string * V) :=
  match d with
  | [] => [(k, v)]
  | (k', v') :: d' =>
      if decide (k' = k) then (k, v) :: d' else (k', v') :: dict_set k v d'
  end.

(** [{k: v for k, v in items}] *)
Definition dict_of {V} (items : list (string * V)) : list (string * V) :=
  foldl (λ d kv, dict_set kv.1 kv.2 d) [] items.

Section Headers.
Context `{HR : HeaderReaders}.

(** [Path(filename).suffix.lower() if filename else ".csv"].  The result is
    only compared with the suffixes of [CSV_EXTENSIONS] and
    [EXCEL_EXTENSIONS], which no character outside ASCII lower-cases
    into. *)
Definition suffix_of (filename : string) : string :=
  if decide (filename = "") then ".csv"
  else Py.lower (path_suffix filename).

Definition _read_header_columns_from_bytes (content filename : string)
  : string + list string :=
  let suffix := suffix_of filename in
  if bool_decide (suffix ∈ CSV_EXTENSIONS) then csv_header content
  else if bool_decide (suffix ∈ EXCEL_EXTENSIONS) then excel_header content
  else inl ("不支持的文件格式: " +:+ suffix).

Definition _read_table_from_bytes (content filename : string)
    (nrows : option nat) : read_result :=
  let suffix := suffix_of filename in
  if bool_decide (suffix ∈ CSV_EXTENSIONS) then csv_table content nrows
  else if bool_decide (suffix ∈ EXCEL_EXTENSIONS)
  then excel_table content nrows
  else inl ("不支持的文件格式: " +:+ suffix).

(** The exceptions of the readers are swallowed: the count is then 0. *)
Definition _row_count_from_content (content filename : string) : nat :=
  let suffix := suffix_of filename in
  if bool_decide (suffix ∈ CSV_EXTENSIONS) then
    match csv_table content None with
    | inr df => nrows df
    | inl _ => 0
    end
  else if bool_decide (suffix ∈ EXCEL_EXTENSIONS) then
    match excel_table content None with
    | inr df => nrows df
    | inl _ => 0
    end
  else 0.

(** The variables of the loop of the analysis: [baseline_columns],
    [base_columns] and [out_files]. *)
Definition headers_step
    (st : option (list string) * list string * list HeaderEntry)
    (nc : string * string)
  : option (list string) * list string * list HeaderEntry :=
  let '(baseline_columns, base_cols, out_files) := st in
  let '(name, content) := nc in
  match _read_header_columns_from_bytes content name with
  | inl e =>
      (baseline_columns, base_cols,
       out_files ++ [mkHeaderEntry name [] [] 0 (Some e)])
  | inr headers =>
      let row_count := _row_count_from_content content name in
      match baseline_columns with
      | None =>
          (Some headers, headers,
           out_files ++ [mkHeaderEntry name [] [] row_count None])
      | Some baseline =>
          (baseline_columns, base_cols,
           out_files
           ++ [mkHeaderEntry name
                 (filter (λ c, c ∉ headers) baseline)
                 (filter (λ c, c ∉ baseline) headers) row_count None])
      end
  end.

Definition analyze_headers_only_from_contents
    (file_entries : list (string * string)) : HeaderReport :=
  match file_entries with
  | [] => mkHeaderReport [] []
  | _ :: _ =>
      let '(_, base_cols, out_files) :=
        foldl headers_step (None, [], []) file_entries in
      mkHeaderReport base_cols out_files
  end.

(** [ent.get("error")] as a condition: the key is there and its text is
    not empty. *)
Definition has_error (ent : HeaderEntry) : bool :=
  match h_error ent with
  | Some e => negb (bool_decide (e = ""))
  | None => false
  end.

(** [all_sets]: per entry without error, the columns of its file as the
    entry gives them, the baseline less the missing columns plus the
    extra ones; the baseline itself for entry 0. *)
Definition file_sets (base_cols : list string) (ents : list HeaderEntry)
  : list (gset string) :=
  omap (λ ient : nat * HeaderEntry,
    let '(i, ent) := ient in
    if has_error ent then None
    else if Nat.eqb i 0 then Some (list_to_set base_cols)
    else Some ((list_to_set base_cols ∖ list_to_set (h_missing ent))
               ∪ list_to_set (h_extra ent)))
    (enumerate_from 0 ents).

(** The sort key of a column of the intersection:
    [(base_columns.index(c) if c in base_columns else 999, c)]. *)
Definition index_key (base_cols : list string) (c : string) : nat :=
  default 999 (index_of c base_cols).

Definition key_le (base_cols : list string) (c d : string) : Prop :=
  index_key base_cols c < index_key base_cols d
  ∨ (index_key base_cols c = index_key base_cols d ∧ String.le c d).

#[global] Instance key_le_dec base_cols c d : Decision (key_le base_cols c d).
Proof. unfold key_le. apply _. Defined.

(** The loop over the key words and the columns of the intersection. *)
Definition keyword_columns (cols : list string) : list string :=
  foldl (λ acc kw,
    foldl (λ acc col,
      if str_in kw col && negb (bool_decide (col ∈ acc))
      then acc ++ [col] else acc) acc cols)
    [] PRIMARY_KEY_KEYWORDS.

Definition _strategy_from_base (base : HeaderReport) : Strategy :=
  let base_cols := base_columns base in
  match base_cols, files base with
  | [], [] => mkStrategy base [] [] [] [] [] "intersection" [] None
  | _, _ =>
      let all_sets := file_sets base_cols (files base) in
      let '(inter, union) :=
        match all_sets with
        | [] =>
            (list_to_set base_cols : gset string, list_to_set base_cols)
        | s0 :: rest => (foldl (∩) s0 rest, foldl (∪) ∅ all_sets)
        end in
      let columns_intersection :=
        merge_sort (key_le base_cols) (elements inter) in
      let extra_in_union := union ∖ list_to_set base_cols in
      let columns_union :=
        base_cols ++ merge_sort String.le (elements extra_in_union) in
      let synonym_candidates :=
        omap (λ pair,
          let in_union := filter (λ p, p ∈ union) pair in
          if Nat.leb 2 (length in_union) then Some in_union else None)
          SYNONYM_PAIRS in
      let suggested_primary_key :=
        match keyword_columns columns_intersection with
        | [] =>
            if Nat.leb 2 (length columns_intersection)
            then take 2 columns_intersection
            else take 1 columns_intersection
        | cols => cols
        end in
      let union_only : gset string :=
        list_to_set columns_union ∖ list_to_set columns_intersection in
      let suggested_merge_mode :=
        if Nat.ltb 2 (size union_only) then "union" else "intersection" in
      mkStrategy base columns_intersection columns_union synonym_candidates
        suggested_primary_key [] suggested_merge_mode synonym_candidates
        None
  end.

(** [build_merge_preview_from_contents].  A cell read with [dtype=str] is
    a string or missing, so [None if pd.isna(v) else str(v)] leaves it as
    it is. *)
Definition build_merge_preview_from_contents
    (file_entries : list (string * string)) (extend_extra : bool)
    (max_rows : nat) : Preview :=
  let base := analyze_headers_only_from_contents file_entries in
  match base_columns base with
  | [] => mkPreview [] []
  | _ :: _ =>
      let cols :=
        if extend_extra then
          let all_cols : gset string :=
            foldl (λ all_cols ent,
              if has_error ent then all_cols
              else all_cols ∪ list_to_set (h_extra ent))
              (list_to_set (base_columns base)) (files base) in
          base_columns base
          ++ merge_sort String.le
               (elements (all_cols ∖ list_to_set (base_columns base)))
        else base_columns base in
      mkPreview cols
        (flat_map (λ nc : string * string,
           match _read_table_from_bytes nc.2 nc.1 (Some max_rows) with
           | inl _ => []
           | inr df =>
               map (λ r, dict_of (map (λ c, (c, row_get cols r c)) cols))
                 (rows (reindex cols df))
           end) file_entries)
  end.

(** [analyze_headers_with_strategy_from_contents].  The readers are the
    only calls of the preview whose exceptions the model holds, and the
    preview handles them itself; the [except] branch around the preview,
    taken when pandas raises elsewhere, is therefore not reached here. *)
Definition analyze_headers_with_strategy_from_contents
    (file_entries : list (string * string)) (with_preview : bool)
    (preview_extend_extra : bool) : Strategy :=
  let base := analyze_headers_only_from_contents file_entries in
  let out := _strategy_from_base base in
  match with_preview, base_columns base, file_entries with
  | true, _ :: _, _ :: _ =>
      mkStrategy (s_base out) (columns_intersection out) (columns_union out)
        (synonym_candidates out) (suggested_primary_key out)
        (type_conflicts out) (suggested_merge_mode out)
        (duplicate_column_groups out)
        (Some (build_merge_preview_from_contents file_entries
                 preview_extend_extra PREVIEW_MAX_ROWS))
  | _, _, _ => out
  end.

End Headers.

(** ** Notions for the header analysis *)

(** The headers of the files that can be read, in the order of the
    files. *)
Definition readable_headers `{HR : HeaderReaders}
    (file_entries : list (string * string)) : list (list string) :=
  omap (λ nc : string * string,
          match _read_header_columns_from_bytes nc.2 nc.1 with
          | inr h => Some h
          | inl _ => None
          end) file_entries.

(** The entry of a file under the baseline [base]: for a file whose header
    cannot be read the text of the exception and nothing else; otherwise
    the baseline columns the header lacks, the labels of the header
    outside the baseline, and the number of rows. *)
Definition header_entry `{HR : HeaderReaders} (base : list string)
    (nc : string * string) : HeaderEntry :=
  match _read_header_columns_from_bytes nc.2 nc.1 with
  | inl e => mkHeaderEntry nc.1 [] [] 0 (Some e)
  | inr h =>
      mkHeaderEntry nc.1 (filter (λ c, c ∉ h) base)
        (filter (λ c, c ∉ base) h) (_row_count_from_content nc.2 nc.1) None
  end.


(** ** Readers and uploads for the examples *)

Module SampleHeaders.

(** Readers over a store of uploads: the bytes of an upload name its table
    in the store, and bytes the store does not have cannot be parsed. *)
Definition table (fs : list (string * DataFrame)) (content : string)
    (n : option nat) : read_result :=
  match Ref.read fs content with
  | inl e => inl e
  | inr df =>
      inr (mkDF (columns df)
             (match n with
              | Some k => take k (rows df)
              | None => rows df
              end))
  end.

Definition header (fs : list (string * DataFrame)) (content : string)
  : string + list string :=
  match Ref.read fs content with
  | inl e => inl e
  | inr df => inr (columns df)
  end.

Definition readers (fs : list (string * DataFrame)) : HeaderReaders :=
  {| csv_header := header fs;
     excel_header := header fs;
     csv_table := table fs;
     excel_table := table fs |}.

(** Three uploads: a file that cannot be parsed, then the tables [a] and
    [b] of [SampleMerge]. *)
Definition store : list (string * DataFrame) :=
  [ ("bytes of a", SampleMerge.a); ("bytes of b", SampleMerge.b) ].

Definition uploads : list (string * string) :=
  [ ("broken.csv", "garbage"); ("a.csv", "bytes of a");
    ("b.xlsx", "bytes of b") ].

End SampleHeaders.
(** ** Rules inferred from the column names ([main.py]) *)

Definition DEFAULT_NUMERIC_COLUMNS : list string := ["分数"].
Definition DEFAULT_COMPOSITE_KEY_COLUMNS : list string := ["姓名"; "班级"].
Definition OUTLIER_KEYWORDS : list string :=
  ["分数"; "面积"; "数量"; "座位数"; "金额"; "价格"; "数值"].
Definition DATE_KEYWORDS : list string :=
  ["日期"; "时间"; "启用日期"; "创建日期"].
Definition EMAIL_KEYWORDS : list string := ["邮箱"; "邮件"; "email"].
Definition NUMERIC_TYPE_KEYWORDS : list string :=
  ["楼层"; "层"; "楼"; "编号"; "序号"].
Definition TEXT_NAME_KEYWORDS : list string :=
  ["名称"; "名字"; "标题"; "说明"; "备注"; "描述"; "学校名称"].
Definition PROPORTION_KEYWORDS : list string := ["比重"; "比例"; "率"].

(** [any(kw in c for kw in kws)] *)
Definition any_in (kws : list string) (c : string) : bool :=
  existsb (λ kw, str_in kw c) kws.

Definition _is_text_name_column (col_name : string) : bool :=
  any_in TEXT_NAME_KEYWORDS (Py.strip col_name).

Definition _is_proportion_column (col_name : string) : bool :=
  any_in PROPORTION_KEYWORDS (Py.strip col_name).

Definition DATE_PATTERN : string := "^\d{4}[-/]\d{1,2}[-/]\d{1,2}$".
Definition EMAIL_PATTERN : string :=
  "^[a-zA-Z0-9_.+-]+@[a-zA-Z0-9-]+\.[a-zA-Z0-9-.]+$".

Module Inferred.

(** One element of [proposed_rules]. *)
Record ProposedRule := mkRule {
  rule_type : string;
  columns : list string;
  description : string;
  severity : string;
  handling : string;
}.

(** The dictionary that [_infer_rules_from_columns] returns. *)
Record t := mk {
  required_columns : list string;
  numeric_columns : list string;
  composite_key_columns : list string;
  outlier_columns : list string;
  pattern_columns : list (string * string);
  constraints : list Constraint;
  proposed_rules : list ProposedRule;
}.

End Inferred.

Definition date_rule (col : string) : Inferred.ProposedRule :=
  Inferred.mkRule "pattern" [col] ("「" +:+ col +:+ "」日期格式统一")
    "business" "统一为 YYYY-MM-DD 或 YYYY/MM/DD，非日期（如待定、无记录）将标出".

Definition email_rule (col : string) : Inferred.ProposedRule :=
  Inferred.mkRule "pattern" [col] ("「" +:+ col +:+ "」邮箱格式校验")
    "business" "符合邮箱格式".

Definition outlier_rule (c : string) : Inferred.ProposedRule :=
  Inferred.mkRule "outlier" [c] ("「" +:+ c +:+ "」异常值监控")
    "business" "确认或修正超出正常范围的数值".

(** [l.append(x)] unless [x in l]. *)
Definition append_new (x : string) (l : list string) : list string :=
  if bool_decide (x ∈ l) then l else l ++ [x].

(** [any(kw in col_any or kw in col_lower for kw in EMAIL_KEYWORDS)].
    [col.lower()] is taken on the ASCII letters: the key words outside
    ASCII have no case, and no other character lower-cases to a letter of
    [email] that an [l] can follow, so the test is the one Python makes. *)
Definition email_column (col : string) : bool :=
  let col_lower := Py.strip (Py.lower col) in
  let col_any := Py.strip col in
  existsb (λ kw, str_in kw col_any || str_in kw col_lower) EMAIL_KEYWORDS.

(** The variables of the loop over [base_columns]: [numeric_columns],
    [outlier_columns], [pattern_columns] and [proposed_rules]. *)
Definition infer_step
    (st : list string * list string * list (string * string)
          * list Inferred.ProposedRule) (col : string)
  : list string * list string * list (string * string)
    * list Inferred.ProposedRule :=
  let '(numeric, outl, patterns, proposed) := st in
  let col_any := Py.strip col in
  if _is_text_name_column col then st
  else
    let '(numeric, outl) :=
      if any_in OUTLIER_KEYWORDS col_any then
        (append_new col numeric,
         if negb (_is_proportion_column col) then append_new col outl
         else outl)
      else (numeric, outl) in
    let numeric :=
      if any_in NUMERIC_TYPE_KEYWORDS col_any then append_new col numeric
      else numeric in
    let '(patterns, proposed) :=
      if any_in DATE_KEYWORDS col_any then
        (dict_set col DATE_PATTERN patterns, proposed ++ [date_rule col])
      else (patterns, proposed) in
    let '(patterns, proposed) :=
      if email_column col then
        (dict_set col EMAIL_PATTERN patterns, proposed ++ [email_rule col])
      else (patterns, proposed) in
    (numeric, outl, patterns, proposed).

Definition _infer_rules_from_columns (base_columns : list string)
  : Inferred.t :=
  let required_columns := base_columns in
  let numeric_columns :=
    filter (λ c, c ∈ base_columns) DEFAULT_NUMERIC_COLUMNS in
  let composite_key_columns :=
    filter (λ c, c ∈ base_columns) DEFAULT_COMPOSITE_KEY_COLUMNS in
  let '(numeric_columns, outlier_columns, pattern_columns, proposed_rules) :=
    foldl infer_step (numeric_columns, [], [], []) base_columns in
  Inferred.mk required_columns numeric_columns composite_key_columns
    outlier_columns pattern_columns []
    (proposed_rules ++ map outlier_rule outlier_columns).

(** [merge_and_scan]: the health manifest of the answer, from the merged
    table and its report.  A report with an error and no merged row gives
    the empty manifest.  Otherwise the rules are inferred from
    [reference_columns] of the report, or from the columns of the table
    when the report has none, and the key columns of the request, when
    there are any, replace the inferred ones. *)
Definition merge_and_scan_health `{RT : Runtime} (df : DataFrame)
    (schema_report : Report) (primary_key_list : option (list string))
  : Manifest :=
  if bool_decide (is_Some (error schema_report))
     && Nat.eqb (merged_row_count schema_report) 0
  then mkManifest [] "合并未产生数据" (mkCounts 0 0 0 0 0 0 0 0)
  else
    let ref_cols :=
      match reference_columns schema_report with
      | [] => columns df
      | cols => cols
      end in
    let inferred := _infer_rules_from_columns ref_cols in
    let composite_key :=
      match primary_key_list with
      | None | Some [] => Inferred.composite_key_columns inferred
      | Some l => l
      end in
    scan_health df schema_report (Some composite_key)
      (Some (Inferred.numeric_columns inferred))
      (Some (Inferred.outlier_columns inferred))
      (Some (Inferred.pattern_columns inferred))
      (Some (Inferred.constraints inferred)).

(** ** The cache of uploads ([main.py]) *)

Definition _CACHE_MAX_ENTRIES : nat := 20.

(** [_evict_cache_if_needed] on the cache, a dictionary kept as the list of
    its items in insertion order: a full cache loses its first item. *)
Definition _evict_cache_if_needed {V} (_upload_cache : list (string * V))
  : list (string * V) :=
  if Nat.ltb (length _upload_cache) _CACHE_MAX_ENTRIES then _upload_cache
  else
    match _upload_cache with
    | [] => _upload_cache
    | _ :: rest => rest
    end.

(** [api_analyze_headers]: what the request does to the cache,
    [_evict_cache_if_needed()] and then
    [_upload_cache[cache_key] = file_entries]. *)
Definition cache_upload {V} (cache_key : string) (file_entries : V)
    (_upload_cache : list (string * V)) : list (string * V) :=
  dict_set cache_key file_entries (_evict_cache_if_needed _upload_cache).

(** ** Notions for the inferred rules *)

(** A column that is not a text column and whose name has a key word of
    the outlier or of the numeric columns. *)
Definition numeric_name (c : string) : bool :=
  negb (_is_text_name_column c)
  && (any_in OUTLIER_KEYWORDS (Py.strip c)
      || any_in NUMERIC_TYPE_KEYWORDS (Py.strip c)).

(** A column that is neither a text nor a proportion column and whose name
    has a key word of the outlier columns. *)
Definition outlier_name (c : string) : bool :=
  negb (_is_text_name_column c)
  && any_in OUTLIER_KEYWORDS (Py.strip c)
  && negb (_is_proportion_column c).

(** The pattern of a column that is not a text column: that of the e-mail
    addresses when the name has a key word of theirs, else that of the
    dates when it has one of those. *)
Definition pattern_of (c : string) : option string :=
  if _is_text_name_column c then None
  else if email_column c then Some EMAIL_PATTERN
  else if any_in DATE_KEYWORDS (Py.strip c) then Some DATE_PATTERN
  else None.

(** The rules that the loop proposes for one column. *)
Definition pattern_rules_of (col : string) : list Inferred.ProposedRule :=
  if _is_text_name_column col then []
  else
    (if any_in DATE_KEYWORDS (Py.strip col) then [date_rule col] else [])
    ++ (if email_column col then [email_rule col] else []).

(** ** A merged table for the examples of the inferred rules *)

Module SampleInferred.

(** One file with a name and a score that is no number. *)
Definition merged : DataFrame :=
  mkDF ["姓名"; "分数"] [ [Some "Ann"; Some "abc"] ].

Definition report : Report :=
  mkReport None "a.csv" ["姓名"; "分数"] [ Sample.entry "a.csv" 1 [] ] 1 0
    None.

(** A full cache: twenty uploads under the keys [A] to [T]. *)
Definition cache : list (string * nat) :=
  map (λ i, (String (ascii_of_nat (65 + i)) EmptyString, i)) (seq 0 20).

End SampleInferred.
(** * Properties *)

(** ** Lists of defects produced row by row and column by column *)

Lemma enumerate_from_lookup {A} (l : list A) s i x :
  (i, x) ∈ enumerate_from s l ↔ s ≤ i ∧ l !! (i - s) = Some x.
Proof.
  revert s. induction l as [|y l IH]; intros s; simpl.
  - split; [intros H; inversion H | intros [_ H]; discriminate].
  - rewrite elem_of_cons, IH. split.
    + intros [Heq | [Hle Hl]].
      * inversion Heq; subst. rewrite Nat.sub_diag. split; [lia | done].
      * split; [lia |]. replace (i - s) with (S (i - S s)) by lia. done.
    + intros [Hle Hl]. destruct (decide (i = s)) as [-> | Hne].
      * rewrite Nat.sub_diag in Hl. simpl in Hl. left. congruence.
      * right. split; [lia |].
        replace (i - s) with (S (i - S s)) in Hl by lia. done.
Qed.

Lemma filter_none {A} (P : A → Prop) `{∀ x, Decision (P x)} (l : list A) :
  (∀ x, x ∈ l → ¬ P x) → filter P l = [].
Proof.
  induction l as [|x l IH]; intros Hl; [done |].
  rewrite filter_cons_False by (apply Hl; left).
  apply IH. intros y Hy. apply Hl. by right.
Qed.

(** Filtering a concatenation by a predicate that only holds in the list
    at position [p] keeps the selected elements of that list. *)
Lemma filter_join_at {A} (Q : A → Prop) `{∀ x, Decision (Q x)}
    (ls : list (list A)) (p : nat) :
  (∀ j l x, ls !! j = Some l → x ∈ l → Q x → j = p) →
  filter Q (mjoin ls) = filter Q (default [] (ls !! p)).
Proof.
  revert p. induction ls as [|l ls IH]; intros p Hp; [by destruct p |].
  cbn [mjoin list_join]. rewrite filter_app. destruct p as [|p].
  - rewrite (filter_none Q (mjoin ls)); [by rewrite app_nil_r |].
    intros x (l' & Hx & Hl')%list_elem_of_join Hq.
    apply list_elem_of_lookup in Hl' as [j Hj].
    by specialize (Hp (S j) l' x Hj Hx Hq).
  - rewrite (filter_none Q l).
    2:{ intros x Hx Hq. by specialize (Hp 0 l x eq_refl Hx Hq). }
    apply IH. intros j l' x Hj Hx Hq.
    by specialize (Hp (S j) l' x Hj Hx Hq) as [= ->].
Qed.

Lemma filter_flat_map_nil {A B} (P : B → Prop) `{∀ x, Decision (P x)}
    (f : A → list B) (l : list A) :
  (∀ x e, x ∈ l → e ∈ f x → ¬ P e) → filter P (flat_map f l) = [].
Proof.
  induction l as [|x l IH]; intros Hf; simpl; [done |].
  rewrite filter_app, IH.
  - rewrite app_nil_r. apply filter_none.
    intros e He. apply (Hf x); [left | done].
  - intros y e Hy. apply Hf. by right.
Qed.

(** Rows: a producer that stamps its records with the row it reads yields,
    for row [i], what it yields on that row alone. *)
Lemma filter_rows {A} (Q : Defect → Prop) `{∀ e, Decision (Q e)}
    (f : nat * A → list Defect) (l : list A) (s i : nat) :
  (∀ e, Q e → row_index e = i) →
  (∀ j x e, e ∈ f (j, x) → row_index e = j) →
  s ≤ i →
  filter Q (flat_map f (enumerate_from s l))
  = match l !! (i - s) with
    | Some x => filter Q (f (i, x))
    | None => []
    end.
Proof.
  intros HQ Hf. revert s. induction l as [|y l IH]; intros s Hs; simpl.
  - by destruct (i - s).
  - rewrite filter_app. destruct (decide (i = s)) as [-> | Hne].
    + rewrite Nat.sub_diag. simpl.
      rewrite (filter_flat_map_nil _ f (enumerate_from (S s) l)).
      * by rewrite app_nil_r.
      * intros [j x] e Hin He Hq. apply HQ in Hq.
        apply enumerate_from_lookup in Hin as [Hle _].
        apply Hf in He. simpl in *. lia.
    + replace (i - s) with (S (i - S s)) by lia. simpl.
      rewrite IH by lia.
      assert (filter Q (f (s, y)) = []) as ->; [| done].
      apply filter_none. intros e He Hq. apply HQ in Hq.
      apply Hf in He. congruence.
Qed.

(** Columns: over a duplicate-free list of columns, a producer that stamps
    its records with its column yields, for column [c], what it yields on
    [c] alone. *)
Lemma filter_cols (Q : Defect → Prop) `{∀ e, Decision (Q e)}
    (g : string → list Defect) (cols : list string) (c : string) :
  (∀ e, Q e → col_name e = c) →
  (∀ d e, e ∈ g d → col_name e = d) →
  NoDup cols →
  filter Q (flat_map g cols)
  = if decide (c ∈ cols) then filter Q (g c) else [].
Proof.
  intros HQ Hg. induction cols as [|d cols IH]; intros Hnd; cbn [flat_map].
  - destruct (decide (c ∈ [])) as [Hin | _]; [| done].
    by apply elem_of_nil in Hin.
  - apply NoDup_cons in Hnd as [Hd Hnd]. rewrite filter_app, IH by done.
    destruct (decide (d = c)) as [-> | Hne].
    + destruct (decide (c ∈ c :: cols)) as [_ | Hn]; [| by destruct Hn; left].
      destruct (decide (c ∈ cols)); [done |]. by rewrite app_nil_r.
    + assert (filter Q (g d) = []) as ->.
      { apply filter_none. intros e He Hq. apply HQ in Hq.
        apply Hg in He. congruence. }
      simpl. destruct (decide (c ∈ cols)) as [Hin | Hnin].
      * destruct (decide (c ∈ d :: cols)) as [_ | Hn]; [done |].
        by destruct Hn; right.
      * destruct (decide (c ∈ d :: cols)) as [Hin | _]; [| done].
        apply elem_of_cons in Hin as [? | ?]; [congruence | done].
Qed.

Lemma elem_of_flat_map {A B} (f : A → list B) (l : list A) (y : B) :
  y ∈ flat_map f l ↔ ∃ x, x ∈ l ∧ y ∈ f x.
Proof.
  rewrite list_elem_of_In, in_flat_map.
  split; intros (x & Hx & Hy); exists x; split; by apply list_elem_of_In.
Qed.

(** ** What each pass of the scanner emits *)

Section PassFacts.
Context `{RT : Runtime}.
Variable self : DataHealthScanner.
Variable df : DataFrame.
Variable schema_report : Report.

Lemma missing_from_lookup ts i out k :
  missing_from i ts out !! k
  = if decide (i ≤ k < i + length ts)
    then (λ t, list_to_set (missing_columns t)) <$> ts !! (k - i)
    else out !! k.
Proof.
  revert i out. induction ts as [|t ts IH]; intros i out; simpl.
  - rewrite decide_False by lia. done.
  - rewrite IH. destruct (decide (S i ≤ k < S i + length ts)).
    + rewrite decide_True by lia.
      replace (k - i) with (S (k - S i)) by lia. done.
    + destruct (decide (k = i)) as [-> | Hne].
      * rewrite decide_True by lia. rewrite Nat.sub_diag. simpl.
        by rewrite lookup_insert_eq.
      * rewrite decide_False by lia. by rewrite lookup_insert_ne.
Qed.

(** The set the scanner tests a column against is the [missing_columns]
    of the selected entry. *)
Lemma missing_by_file_spec k c :
  c ∈ default (∅ : gset string)
        (_get_missing_columns_by_file schema_report !! k)
  ↔ c ∈ missing_of schema_report k.
Proof.
  unfold _get_missing_columns_by_file, missing_of.
  rewrite missing_from_lookup.
  destruct (decide _) as [Hk | Hk].
  - rewrite Nat.sub_0_r.
    destruct (tables schema_report !! k) as [t |] eqn:Ht; simpl.
    + apply elem_of_list_to_set.
    + by rewrite elem_of_empty, elem_of_nil.
  - rewrite lookup_empty. simpl.
    rewrite (lookup_ge_None_2 (tables schema_report) k) by lia.
    by rewrite elem_of_empty, elem_of_nil.
Qed.

Lemma null_pass_elem e :
  e ∈ null_pass df schema_report ↔
  ∃ i r, rows df !! i = Some r ∧ col_name e ∈ columns df
    ∧ _is_empty (cell_value (row_get (columns df) r (col_name e))) = true
    ∧ e = if bool_decide (col_name e ∈ missing_of schema_report
                            (_row_index_to_file_index i schema_report))
          then mkDefect i (col_name e) null_structural structural
          else mkDefect i (col_name e) null_business business.
Proof.
  unfold null_pass. rewrite elem_of_flat_map. split.
  - intros ([i r] & Hir & He). apply enumerate_from_lookup in Hir as [_ Hr].
    rewrite Nat.sub_0_r in Hr. simpl in He.
    apply elem_of_flat_map in He as (c & Hc & He).
    destruct (_is_empty _) eqn:Hemp; simpl in He; [| by apply elem_of_nil in He].
    assert (col_name e = c) as Hcol.
    { destruct (bool_decide _); apply list_elem_of_singleton in He; by subst. }
    exists i, r. rewrite Hcol. repeat split; [done.. |].
    rewrite (bool_decide_ext _ _ (missing_by_file_spec _ c)) in He.
    destruct (bool_decide _); by apply list_elem_of_singleton in He.
  - intros (i & r & Hr & Hc & Hemp & He). exists (i, r). split.
    + apply enumerate_from_lookup. rewrite Nat.sub_0_r. split; [lia | done].
    + simpl. apply elem_of_flat_map. exists (col_name e). split; [done |].
      rewrite Hemp. simpl.
      rewrite (bool_decide_ext _ _ (missing_by_file_spec _ (col_name e))).
      rewrite He at 1. destruct (bool_decide _); by apply list_elem_of_singleton.
Qed.

Lemma type_pass_elem e :
  e ∈ type_pass self df → error_type e = type_inconsistent ∧ severity e = business.
Proof.
  unfold type_pass. intros (c & _ & He)%elem_of_flat_map.
  destruct (negb _); [by apply elem_of_nil in He |].
  apply elem_of_flat_map in He as ([i r] & _ & He). simpl in He.
  destruct (_is_empty _); [by apply elem_of_nil in He |].
  destruct (negb _); [| by apply elem_of_nil in He].
  apply list_elem_of_singleton in He. by subst.
Qed.

Lemma dup_from_elem key_cols i rs seen e :
  e ∈ dup_from df key_cols i rs seen → error_type e = duplicate ∧ severity e = business.
Proof.
  revert i seen. induction rs as [|r rs IH]; intros i seen; simpl.
  - by intros ?%elem_of_nil.
  - destruct (bool_decide _); [| by apply IH].
    intros [-> | He]%elem_of_cons; [done | by eapply IH].
Qed.

Lemma dup_pass_elem e : e ∈ dup_pass self df → error_type e = duplicate ∧ severity e = business.
Proof.
  unfold dup_pass. destruct (filter _ _); [by intros ?%elem_of_nil |].
  apply dup_from_elem.
Qed.

Lemma outlier_rows_elem c lo up e :
  e ∈ outlier_rows df c lo up → error_type e = outlier ∧ severity e = business ∧ col_name e = c.
Proof.
  unfold outlier_rows. intros ([i r] & _ & He)%elem_of_flat_map.
  simpl in He. destruct (_is_empty _); [by apply elem_of_nil in He |].
  destruct (_to_float _); [| by apply elem_of_nil in He].
  destruct (_ || _); [| by apply elem_of_nil in He].
  apply list_elem_of_singleton in He. by subst.
Qed.

Lemma outlier_column_elem c e :
  e ∈ outlier_column df c → error_type e = outlier ∧ severity e = business ∧ col_name e = c.
Proof.
  unfold outlier_column. destruct (negb _); [by intros ?%elem_of_nil |].
  destruct (_outlier_bounds_iqr _) as [[lo|] [up|]];
    try apply outlier_rows_elem. by intros ?%elem_of_nil.
Qed.

Lemma outlier_pass_elem e :
  e ∈ outlier_pass self df → error_type e = outlier ∧ severity e = business.
Proof.
  unfold outlier_pass. intros (c & _ & He)%elem_of_flat_map.
  by apply outlier_column_elem in He as (? & ? & _).
Qed.

Lemma pattern_pass_elem e :
  e ∈ pattern_pass self df → error_type e = pattern_mismatch ∧ severity e = business.
Proof.
  unfold pattern_pass. intros ([c p] & _ & He)%elem_of_flat_map.
  simpl in He. destruct (negb _); [by apply elem_of_nil in He |].
  destruct (re_compile p) as [search |]; [| by apply elem_of_nil in He].
  apply elem_of_flat_map in He as ([i r] & _ & He). simpl in He.
  destruct (_is_empty _); [by apply elem_of_nil in He |].
  destruct (negb _); [| by apply elem_of_nil in He].
  apply list_elem_of_singleton in He. by subst.
Qed.

Lemma constraint_rows_elem l r op e :
  e ∈ constraint_rows df l r op → error_type e = constraint_violation ∧ severity e = business.
Proof.
  unfold constraint_rows. intros ([i row] & _ & He)%elem_of_flat_map.
  simpl in He. destruct (negb _); [| by apply elem_of_nil in He].
  apply list_elem_of_singleton in He. by subst.
Qed.

Lemma constraint_pass_elem e :
  e ∈ constraint_pass self df → error_type e = constraint_violation ∧ severity e = business.
Proof.
  unfold constraint_pass, constraint_check.
  intros (c & _ & He)%elem_of_flat_map.
  destruct (c_left c), (c_right c); try by apply elem_of_nil in He.
  destruct (_ || _); [by apply elem_of_nil in He |].
  by eapply constraint_rows_elem.
Qed.

(** Every record of a scan comes from one pass, which fixes its kind. *)
Lemma scan_errors_elem e :
  e ∈ scan_errors self df schema_report →
  e ∈ null_pass df schema_report
  ∨ (severity e = business ∧
     error_type e ∈ [type_inconsistent; duplicate; outlier;
                      pattern_mismatch; constraint_violation]).
Proof.
  unfold scan_errors. rewrite !elem_of_app.
  intros [H | [H | [H | [H | [H | H]]]]]; [by left | right..].
  - apply type_pass_elem in H as [-> ?]. by repeat constructor.
  - apply dup_pass_elem in H as [-> ?]. by repeat constructor.
  - apply outlier_pass_elem in H as [-> ?]. by repeat constructor.
  - apply pattern_pass_elem in H as [-> ?]. by repeat constructor.
  - apply constraint_pass_elem in H as [-> ?]. by repeat constructor.
Qed.

Lemma null_pass_is_null e : e ∈ null_pass df schema_report → is_null e.
Proof.
  intros (i & r & _ & _ & _ & He)%null_pass_elem. rewrite He.
  destruct (bool_decide _); [by left | by right].
Qed.

Lemma not_null_of_other e :
  error_type e ∈ [type_inconsistent; duplicate; outlier;
                   pattern_mismatch; constraint_violation] → ¬ is_null e.
Proof.
  intros Hin [H | H]; rewrite H in Hin;
    repeat (apply elem_of_cons in Hin as [? | Hin]; [done |]);
    by apply elem_of_nil in Hin.
Qed.

(** The errors of a scan are the records of the six passes, and the kind
    of a record names the pass that emitted it. *)
Lemma scan_errors_passes :
  scan_errors self df schema_report = mjoin (passes self df schema_report).
Proof.
  unfold scan_errors, passes. cbn [mjoin list_join].
  by rewrite app_nil_r.
Qed.

Lemma passes_kind p l e :
  passes self df schema_report !! p = Some l → e ∈ l →
  pass_of (error_type e) = p.
Proof.
  intros Hl He. unfold passes in Hl.
  destruct p as [|[|[|[|[|[|p]]]]]];
    [apply (inj Some) in Hl; subst l.. | done].
  - by apply null_pass_is_null in He as [-> | ->].
  - by apply type_pass_elem in He as [-> _].
  - by apply dup_pass_elem in He as [-> _].
  - by apply outlier_pass_elem in He as [-> _].
  - by apply pattern_pass_elem in He as [-> _].
  - by apply constraint_pass_elem in He as [-> _].
Qed.

(** A predicate that fixes the pass selects records of that pass only. *)
Lemma filter_pass_scan (Q : Defect → Prop) `{∀ e, Decision (Q e)} p :
  (∀ e, Q e → pass_of (error_type e) = p) →
  filter Q (scan_errors self df schema_report)
  = filter Q (default [] (passes self df schema_report !! p)).
Proof.
  intros HQ. rewrite scan_errors_passes. apply filter_join_at.
  intros j l e Hl He Hq. rewrite <- (HQ e Hq). symmetry.
  by apply (passes_kind j l).
Qed.

Lemma filter_null_scan (Q : Defect → Prop) `{∀ e, Decision (Q e)} :
  (∀ e, Q e → is_null e) →
  filter Q (scan_errors self df schema_report)
  = filter Q (null_pass df schema_report).
Proof.
  intros HQ. apply (filter_pass_scan Q 0). by intros e [-> | ->]%HQ.
Qed.

Lemma filter_dup_scan (Q : Defect → Prop) `{∀ e, Decision (Q e)} :
  (∀ e, Q e → error_type e = duplicate) →
  filter Q (scan_errors self df schema_report)
  = filter Q (dup_pass self df).
Proof. intros HQ. apply (filter_pass_scan Q 2). by intros e ->%HQ. Qed.

Lemma filter_outlier_scan (Q : Defect → Prop) `{∀ e, Decision (Q e)} :
  (∀ e, Q e → error_type e = outlier) →
  filter Q (scan_errors self df schema_report)
  = filter Q (outlier_pass self df).
Proof. intros HQ. apply (filter_pass_scan Q 3). by intros e ->%HQ. Qed.

Lemma filter_constraint_scan (Q : Defect → Prop) `{∀ e, Decision (Q e)} :
  (∀ e, Q e → error_type e = constraint_violation) →
  filter Q (scan_errors self df schema_report)
  = filter Q (constraint_pass self df).
Proof. intros HQ. apply (filter_pass_scan Q 5). by intros e ->%HQ. Qed.

Lemma file_index_from_spec i cum k0 ts :
  cum ≤ i →
  let k := file_index_from i cum k0 ts in
  (i < cum + sum_list_with row_count ts →
   ∃ j t, k = k0 + j ∧ ts !! j = Some t
     ∧ cum + sum_list_with row_count (take j ts) ≤ i
     ∧ i < cum + sum_list_with row_count (take j ts) + row_count t)
  ∧ (cum + sum_list_with row_count ts ≤ i → k = 0).
Proof.
  revert cum k0. induction ts as [|t ts IH]; intros cum k0 Hc; simpl.
  - split; [lia | done].
  - destruct (Nat.ltb_spec i (cum + row_count t)) as [Hlt | Hge].
    + split; [| lia]. intros _. exists 0, t. simpl.
      split; [lia |]. split; [done |]. lia.
    + destruct (IH (cum + row_count t) (S k0) Hge) as [IH1 IH2].
      simpl in *. split.
      * intros Hi. destruct IH1 as (j & t' & Hk & Ht' & Hlo & Hhi); [lia |].
        exists (S j), t'. simpl. split; [lia |]. split; [done |]. lia.
      * intros Hi. apply IH2. lia.
Qed.

End PassFacts.

(** C1. Null classification.  In a table with distinct column labels, the
    null records of a scan about the cell at row [i] and column [c] are:
    none when the cell is not empty; exactly one when it is empty (missing,
    blank, or equal to ["nan"] whatever the case), of kind [null_structural]
    and severity [structural] when [c] is among the [missing_columns] of the
    report entry that the walk over the cumulative row counts selects for
    [i], and of kind [null_business] and severity [business] otherwise.
    Hence every [null_structural] record names a column in those
    [missing_columns] and every [null_business] record a column outside
    them.  The walk selects the first entry whose cumulative row count
    exceeds [i], and entry 0 when there is none. *)
Theorem C1_null_classification `{RT : Runtime}
    (self : DataHealthScanner) (df : DataFrame) (schema_report : Report) :
  NoDup (columns df) →
  let errs := errors (scan self df schema_report) in
  let src := λ i, _row_index_to_file_index i schema_report in
  (∀ i r c, rows df !! i = Some r → c ∈ columns df →
     records_at is_null i c errs
     = if _is_empty (cell_value (row_get (columns df) r c))
       then [ if bool_decide (c ∈ missing_of schema_report (src i))
              then mkDefect i c null_structural structural
              else mkDefect i c null_business business ]
       else [])
  ∧ (∀ e, e ∈ errs → error_type e = null_structural →
       severity e = structural
       ∧ col_name e ∈ missing_of schema_report (src (row_index e)))
  ∧ (∀ e, e ∈ errs → error_type e = null_business →
       severity e = business
       ∧ col_name e ∉ missing_of schema_report (src (row_index e)))
  ∧ (∀ i, i < rows_before schema_report (length (tables schema_report)) →
       ∃ t, tables schema_report !! src i = Some t
         ∧ rows_before schema_report (src i) ≤ i
         ∧ i < rows_before schema_report (src i) + row_count t)
  ∧ (∀ i, rows_before schema_report (length (tables schema_report)) ≤ i →
       src i = 0).
Proof.
  intros Hnd errs src. subst errs. simpl.
  split; [| split; [| split; [| split]]].
  - intros i r c Hr Hc. unfold records_at.
    rewrite filter_null_scan by (by intros e (_ & _ & ?)).
    unfold null_pass.
    rewrite (filter_rows _ _ _ 0 i); [| by intros e [? _] | | lia].
    2:{ intros j x e (d & _ & He)%elem_of_flat_map. simpl in He.
        destruct (negb _); [by apply elem_of_nil in He |].
        destruct (bool_decide _); apply list_elem_of_singleton in He;
          by subst. }
    rewrite Nat.sub_0_r, Hr. simpl.
    rewrite (filter_cols _ _ _ c); [| by intros e (_ & ? & _) | | done].
    2:{ intros d e He. destruct (negb _); [by apply elem_of_nil in He |].
        destruct (bool_decide _); apply list_elem_of_singleton in He;
          by subst. }
    rewrite decide_True by done.
    destruct (_is_empty _); simpl; [| done].
    rewrite (bool_decide_ext _ _ (missing_by_file_spec schema_report _ c)).
    fold (src i). destruct (bool_decide _);
      (rewrite filter_cons_True; [done |]); repeat split; simpl;
      [by left | by right].
  - intros e He Hty. apply scan_errors_elem in He as [He | [_ He]].
    + apply null_pass_elem in He as (i & r & _ & _ & _ & He).
      destruct (bool_decide _) eqn:Hb; rewrite He in Hty |- *; simpl in *;
        [| done].
      split; [done |]. by apply bool_decide_eq_true in Hb.
    + destruct (not_null_of_other e He). unfold is_null. tauto.
  - intros e He Hty. apply scan_errors_elem in He as [He | [_ He]].
    + apply null_pass_elem in He as (i & r & _ & _ & _ & He).
      destruct (bool_decide _) eqn:Hb; rewrite He in Hty |- *; simpl in *;
        [done |].
      split; [done |]. by apply bool_decide_eq_false in Hb.
    + destruct (not_null_of_other e He). unfold is_null. tauto.
  - intros i Hi. unfold src, _row_index_to_file_index, rows_before in *.
    rewrite firstn_all in Hi.
    destruct (file_index_from_spec i 0 0 (tables schema_report)) as [H _];
      [lia |].
    destruct H as (j & t & Hk & Ht & Hlo & Hhi); [simpl; lia |].
    simpl in Hk. rewrite Hk. exists t. split; [done |]. simpl in *. lia.
  - intros i Hi. unfold src, _row_index_to_file_index, rows_before in *.
    rewrite firstn_all in Hi.
    destruct (file_index_from_spec i 0 0 (tables schema_report)) as [_ H];
      [lia |].
    apply H. simpl. lia.
Qed.

(** C1 at a sample: row 0 comes from [a.csv], which has the column, so its
    empty [Score] is a business null; row 1 comes from [b.csv], which lacks
    it, so its empty [Score] is a structural null. *)
Lemma C1_null_classification_witness :
  NoDup (columns Sample.merged)
  ∧ records_at is_null 0 "Score"
      (errors (scan (RT := Ref.runtime []) Sample.scanner Sample.merged
                 Sample.report))
    = [mkDefect 0 "Score" null_business business]
  ∧ records_at is_null 1 "Score"
      (errors (scan (RT := Ref.runtime []) Sample.scanner Sample.merged
                 Sample.report))
    = [mkDefect 1 "Score" null_structural structural].
Proof.
  assert (NoDup (columns Sample.merged)) as Hnd
    by compute_done.
  split; [exact Hnd |].
  destruct (C1_null_classification (RT := Ref.runtime []) Sample.scanner
              Sample.merged Sample.report Hnd) as [Hcell _].
  split.
  - rewrite (Hcell 0 [Some "Ann"; Some " NaN "] "Score");
      [reflexivity | reflexivity |].
    compute_done.
  - rewrite (Hcell 1 [Some "Bob"; None] "Score");
      [reflexivity | reflexivity |].
    compute_done.
Defined.

(** ** Duplicates *)

Section Duplicates.
Context `{RT : Runtime}.
Variable df : DataFrame.
Variable key_cols : list string.

Lemma dup_from_row_index i rs seen e :
  e ∈ dup_from df key_cols i rs seen → i ≤ row_index e.
Proof.
  revert i seen. induction rs as [|r rs IH]; intros i seen; simpl.
  - by intros ?%elem_of_nil.
  - destruct (bool_decide _).
    + intros [-> | He]%elem_of_cons; [simpl; lia |].
      apply IH in He. lia.
    + intros He. apply IH in He. lia.
Qed.

(** The loop over the rows, started at row [s] with the keys [seen]: row
    [i] is flagged exactly when its key is in [seen] or is the key of a row
    between [s] and [i]. *)
Lemma dup_from_records s rs seen i :
  s ≤ i →
  dup_records i (dup_from df key_cols s rs seen)
  = match rs !! (i - s) with
    | Some r =>
        if decide (row_key df key_cols r ∈ seen
                   ∨ row_key df key_cols r
                     ∈ row_key df key_cols <$> take (i - s) rs)
        then [mkDefect i (String.concat "," key_cols) duplicate business]
        else []
    | None => []
    end.
Proof.
  unfold dup_records. revert s seen.
  induction rs as [|r0 rs IH]; intros s seen Hs.
  - by destruct (i - s).
  - assert (∀ seen', i = s →
      filter (λ e, row_index e = i ∧ error_type e = duplicate)
        (dup_from df key_cols (S s) rs seen') = []) as Hlater.
    { intros seen' ->. apply filter_none. intros e He [Hr _].
      apply dup_from_row_index in He. lia. }
    cbn [dup_from]. destruct (decide (i = s)) as [-> | Hne].
    + rewrite Nat.sub_diag. cbn [lookup list_lookup take fmap list_fmap].
      case_bool_decide as Hseen.
      * rewrite filter_cons_True by done. rewrite Hlater by done.
        rewrite decide_True by (by left). done.
      * rewrite Hlater by done. rewrite decide_False; [done |].
        intros [? | Hin]; [done | by apply elem_of_nil in Hin].
    + replace (i - s) with (S (i - S s)) by lia.
      cbn [lookup list_lookup take fmap list_fmap].
      case_bool_decide as Hseen.
      * rewrite filter_cons_False by (simpl; intros [? _]; lia).
        rewrite IH by lia. destruct (rs !! (i - S s)) as [r |]; [| done].
        apply decide_ext. rewrite elem_of_cons. split; [tauto |].
        intros [? | [-> | ?]]; tauto.
      * rewrite IH by lia. destruct (rs !! (i - S s)) as [r |]; [| done].
        apply decide_ext. rewrite elem_of_cons, elem_of_union,
          elem_of_singleton. tauto.
Qed.

End Duplicates.

(** C9 (as amended). Duplicate check.  When the table has at least one of
    the configured composite-key columns, the check is the one the design
    document describes: the key of a row lists, for each such column, the
    cell's text (the empty string for a missing value); a row gets exactly
    one [duplicate] record when an earlier row has the same key, and none
    otherwise, so the first occurrence of a key is never flagged.  When the
    table has none of the configured key columns the check is skipped. *)
Theorem C9_duplicates_flagged `{RT : Runtime} (self : DataHealthScanner)
    (df : DataFrame) (schema_report : Report) :
  (keys_in_table self df ≠ [] → duplicates_flagged self df schema_report)
  ∧ (keys_in_table self df = [] →
     ∀ e, e ∈ errors (scan self df schema_report) →
          error_type e ≠ duplicate).
Proof.
  split.
  - intros Hkeys i r Hr. simpl. unfold dup_records.
    rewrite (filter_dup_scan self df schema_report) by (by intros e [_ ?]).
    unfold dup_pass. fold (keys_in_table self df).
    destruct (keys_in_table self df) as [|k ks] eqn:Hk; [done |].
    pose proof (dup_from_records df (k :: ks) 0 (rows df) ∅ i) as Hrec.
    unfold dup_records in Hrec. rewrite Hrec by lia.
    rewrite Nat.sub_0_r, Hr. apply decide_ext.
    split; [| by right]. intros [Hin | ?]; [| done].
    by apply elem_of_empty in Hin.
  - intros Hkeys e He Hty. simpl in He.
    assert (e ∈ filter (λ e, error_type e = duplicate)
                  (scan_errors self df schema_report)) as Hin
      by (by apply list_elem_of_filter).
    rewrite (filter_dup_scan self df schema_report) in Hin by done.
    unfold dup_pass in Hin.
    fold (keys_in_table self df) in Hin. rewrite Hkeys in Hin. simpl in Hin.
    by apply elem_of_nil in Hin.
Qed.

(** C9 at a sample where the key column exists: the second [Ann] is
    flagged once, the first is not. *)
Lemma C9_duplicates_flagged_witness :
  keys_in_table SampleDup.with_key SampleDup.table ≠ []
  ∧ dup_records 0
      (errors (scan (RT := Ref.runtime []) SampleDup.with_key SampleDup.table
                 SampleDup.report)) = []
  ∧ dup_records 1
      (errors (scan (RT := Ref.runtime []) SampleDup.with_key SampleDup.table
                 SampleDup.report))
    = [mkDefect 1 "Name" duplicate business].
Proof.
  assert (keys_in_table SampleDup.with_key SampleDup.table ≠ []) as Hk
    by (vm_compute; discriminate).
  split; [exact Hk |].
  destruct (C9_duplicates_flagged (RT := Ref.runtime []) SampleDup.with_key
              SampleDup.table SampleDup.report) as [Hflag _].
  split.
  - rewrite (Hflag Hk 0 [Some "Ann"; Some "1"]); reflexivity.
  - rewrite (Hflag Hk 1 [Some "Ann"; Some "2"]); reflexivity.
Defined.

(** C9 as stated fails when the table has none of the configured key
    columns: every row then has the empty key, so the second row repeats the
    first, yet the scan flags nothing. *)
Lemma C9_counterexample :
  ¬ duplicates_flagged (RT := Ref.runtime []) SampleDup.without_key
      SampleDup.table SampleDup.report.
Proof.
  intros Hflag.
  specialize (Hflag 1 [Some "Ann"; Some "2"] eq_refl).
  vm_compute in Hflag. discriminate.
Qed.

(** ** Cross-column constraints *)

Lemma filter_all {A} (P : A → Prop) `{∀ x, Decision (P x)} (l : list A) :
  (∀ x, x ∈ l → P x) → filter P l = l.
Proof.
  induction l as [|x l IH]; intros Hl; [done |].
  rewrite filter_cons_True by (apply Hl; left).
  f_equal. apply IH. intros y Hy. apply Hl. by right.
Qed.

Lemma eval_constraint_op `{RT : Runtime} (o : CmpOp) (x y : float) :
  _eval_constraint (Some x) (op_text o) (Some y) = op_holds o x y.
Proof. by destruct o. Qed.

(** C6. Cross-column constraints.  The [constraint_violation] records of a
    scan are those of the configured constraints, one constraint after the
    other.  For a constraint naming two columns of the table with one of
    the operators [>], [<], [>=], [<=], [==] (no operator meaning [>]), and
    for every row: when either cell fails to parse under [_to_float] the
    row yields no record; otherwise it yields exactly one record when the
    operator is false of the two parsed numbers and none when it is true. *)
Theorem C6_constraint_violations `{RT : Runtime} (self : DataHealthScanner)
    (df : DataFrame) (schema_report : Report) :
  filter (λ e, error_type e = constraint_violation)
    (errors (scan self df schema_report))
  = flat_map (constraint_check df) (constraints self)
  ∧ ∀ c left_col right_col o,
      c_left c = Some left_col → c_right c = Some right_col →
      default ">" (c_op c) = op_text o →
      left_col ≠ "" → right_col ≠ "" →
      left_col ∈ columns df → right_col ∈ columns df →
      ∀ i r, rows df !! i = Some r →
        filter (λ e, row_index e = i) (constraint_check df c)
        = match _to_float (cell_value (row_get (columns df) r left_col)),
                _to_float (cell_value (row_get (columns df) r right_col)) with
          | Some x, Some y =>
              if op_holds o x y then []
              else [mkDefect i (left_col +:+ " vs " +:+ right_col)
                      constraint_violation business]
          | _, _ => []
          end.
Proof.
  split.
  - simpl. rewrite (filter_constraint_scan self df schema_report) by done.
    apply filter_all. by intros e [? _]%constraint_pass_elem.
  - intros c l r o Hl Hr Hop Hle Hre Hlin Hrin i row Hrow.
    unfold constraint_check, falsy, has_column. rewrite Hl, Hr, Hop.
    rewrite !bool_decide_eq_false_2 by done.
    rewrite !bool_decide_eq_true_2 by done. simpl.
    unfold constraint_rows.
    rewrite (filter_rows _ _ _ 0 i); [| done | | lia].
    2:{ intros j x e He. simpl in He.
        destruct (negb _); [| by apply elem_of_nil in He].
        apply list_elem_of_singleton in He. by subst. }
    rewrite Nat.sub_0_r, Hrow. simpl.
    destruct (_to_float (cell_value (row_get (columns df) row l))) as [x |];
      [| done].
    destruct (_to_float (cell_value (row_get (columns df) row r))) as [y |];
      [| done].
    rewrite eval_constraint_op. destruct (op_holds o x y); [done |].
    simpl. by rewrite filter_cons_True.
Qed.

(** C6 at a sample with the constraint [High > Low]: [2.5 > 1] holds,
    [2 > 3] fails, a cell that is not a number makes the row comply, and
    percentages compare by their number ([7.5 > 50] fails). *)
Lemma C6_constraint_violations_witness :
  let errs := constraint_check (RT := Ref.runtime []) SampleConstraint.table
                SampleConstraint.high_gt_low in
  "High" ∈ columns SampleConstraint.table
  ∧ "Low" ∈ columns SampleConstraint.table
  ∧ filter (λ e, row_index e = 0) errs = []
  ∧ filter (λ e, row_index e = 1) errs
    = [mkDefect 1 "High vs Low" constraint_violation business]
  ∧ filter (λ e, row_index e = 2) errs = []
  ∧ filter (λ e, row_index e = 3) errs
    = [mkDefect 3 "High vs Low" constraint_violation business].
Proof.
  assert ("High" ∈ columns SampleConstraint.table) as Hh by compute_done.
  assert ("Low" ∈ columns SampleConstraint.table) as Hl by compute_done.
  destruct (C6_constraint_violations (RT := Ref.runtime [])
              SampleConstraint.scanner SampleConstraint.table
              SampleConstraint.report) as [_ Hrow].
  specialize (Hrow SampleConstraint.high_gt_low "High" "Low" op_gt
                eq_refl eq_refl eq_refl ltac:(discriminate)
                ltac:(discriminate) Hh Hl).
  split; [exact Hh |]. split; [exact Hl |].
  split; [| split; [| split]].
  - rewrite (Hrow 0 [Some "1"; Some "2.5"]); reflexivity.
  - rewrite (Hrow 1 [Some "3"; Some "2"]); reflexivity.
  - rewrite (Hrow 2 [Some "n/a"; Some "0"]); reflexivity.
  - rewrite (Hrow 3 [Some "50%"; Some "7.5%"]); reflexivity.
Defined.

(** ** Outliers *)

Section Outliers.
Context `{RT : Runtime}.
Variable self : DataHealthScanner.
Variable df : DataFrame.
Variable schema_report : Report.


Lemma all_outlier_cols_elem col :
  col ∈ all_outlier_cols self
  ↔ col ∈ numeric_columns self ∨ col ∈ outlier_columns self.
Proof.
  unfold all_outlier_cols.
  by rewrite elem_of_elements, elem_of_union, !elem_of_list_to_set.
Qed.

(** Applying [_to_float] to the floats [_to_float] produced changes nothing,
    when [str] and [float] agree on them. *)
Lemma numeric_of_series (cells : list cell) :
  Forall (λ f, _to_float (VFloat f) = Some f)
    (dropna (map (λ v, _to_float (cell_value v)) cells)) →
  dropna (map _to_float
            (map (λ v, opt_value (_to_float (cell_value v))) cells))
  = dropna (map (λ v, _to_float (cell_value v)) cells).
Proof.
  induction cells as [|c cells IH]; [done |].
  unfold dropna in *. cbn [map omap list_omap].
  destruct (_to_float (cell_value c)) as [f |] eqn:Hf; cbn [opt_value].
  - destruct (is_nan f) eqn:Hnan.
    + intros Hall. unfold _to_float at 1. cbn [pd_isna]. rewrite Hnan.
      simpl. by apply IH.
    + intros [Hrt Hall]%Forall_cons. rewrite Hrt, Hnan. f_equal.
      by apply IH.
  - intros Hall. by apply IH.
Qed.

Lemma outlier_rows_records col lo up i r :
  rows df !! i = Some r →
  outlier_records i col (outlier_rows df col (Some lo) (Some up))
  = match _to_float (cell_value (row_get (columns df) r col)) with
    | Some f =>
        if negb (_is_empty (cell_value (row_get (columns df) r col)))
           && outside (lo, up) f
        then [mkDefect i col outlier business]
        else []
    | None => []
    end.
Proof.
  intros Hr. unfold outlier_records, outlier_rows.
  rewrite (filter_rows _ _ _ 0 i); [| by intros e [? _] | | lia].
  2:{ intros j x e He. simpl in He.
      destruct (_is_empty _); [by apply elem_of_nil in He |].
      destruct (_to_float _); [| by apply elem_of_nil in He].
      destruct (_ || _); [| by apply elem_of_nil in He].
      apply list_elem_of_singleton in He. by subst. }
  rewrite Nat.sub_0_r, Hr. simpl. unfold outside. simpl.
  destruct (_is_empty _); simpl.
  - by destruct (_to_float _).
  - destruct (_to_float _) as [f |]; [| done].
    destruct (_ || _); [| done]. by rewrite filter_cons_True.
Qed.

End Outliers.

(** C7. Outliers.  Let [col] be a configured numeric or outlier column that
    the table has, and let its numbers be the cells that parse to a float
    other than NaN (Python's [str] and [float] agreeing on each of them).
    With fewer than 4 numbers the scan emits no [outlier] record for the
    column.  With 4 or more, the cell of row [i] gets exactly one [outlier]
    record when it is not empty, parses to a float and that float lies
    outside the bounds [Q1 - 1.5 IQR, Q3 + 1.5 IQR] ([Q1, Q3] when
    [IQR = 0]) computed over the numbers, and no record otherwise. *)
Theorem C7_outliers `{RT : Runtime} (self : DataHealthScanner)
    (df : DataFrame) (schema_report : Report) (col : string) :
  col ∈ numeric_columns self ∨ col ∈ outlier_columns self →
  col ∈ columns df →
  Forall (λ f, _to_float (VFloat f) = Some f) (column_numbers df col) →
  let errs := errors (scan self df schema_report) in
  (length (column_numbers df col) < 4 →
   ∀ e, e ∈ errs → error_type e = outlier → col_name e ≠ col)
  ∧ (4 ≤ length (column_numbers df col) →
     ∀ i r, rows df !! i = Some r →
       outlier_records i col errs
       = match _to_float (cell_value (row_get (columns df) r col)) with
         | Some f =>
             if negb (_is_empty (cell_value (row_get (columns df) r col)))
                && outside (iqr_bounds (column_numbers df col)) f
             then [mkDefect i col outlier business]
             else []
         | None => []
         end).
Proof.
  intros Hcfg Hcol Hrt errs. subst errs. simpl.
  assert (∀ Q : Defect → Prop, ∀ Hd : (∀ e, Decision (Q e)),
    (∀ e, Q e → col_name e = col ∧ error_type e = outlier) →
    filter Q (scan_errors self df schema_report)
    = filter Q (outlier_column df col)) as Honly.
  { intros Q Hd HQ. rewrite filter_outlier_scan by (intros e He; by apply HQ).
    unfold outlier_pass.
    rewrite (filter_cols Q _ _ col); [| intros e He; by apply HQ | |].
    - rewrite decide_True; [done |]. by apply all_outlier_cols_elem.
    - intros d e He. by apply outlier_column_elem in He as (_ & _ & ?).
    - unfold all_outlier_cols. apply NoDup_elements. }
  assert (outlier_column df col
          = if Nat.ltb (length (column_numbers df col)) 4 then []
            else outlier_rows df col
                   (Some (iqr_bounds (column_numbers df col)).1)
                   (Some (iqr_bounds (column_numbers df col)).2)) as Hbody.
  { unfold outlier_column, has_column.
    rewrite bool_decide_eq_true_2 by done. simpl.
    unfold _outlier_bounds_iqr, column. rewrite numeric_of_series by done.
    fold (column df col). fold (column_numbers df col).
    destruct (Nat.ltb _ 4); [done |]. unfold iqr_bounds.
    by destruct (PrimFloat.eqb _ _). }
  split.
  - intros Hlen e He Hty Hc.
    assert (e ∈ filter (λ e, col_name e = col ∧ error_type e = outlier)
                  (scan_errors self df schema_report)) as Hin
      by (by apply list_elem_of_filter).
    rewrite Honly, Hbody in Hin by done.
    apply Nat.ltb_lt in Hlen. rewrite Hlen in Hin. simpl in Hin.
    by apply elem_of_nil in Hin.
  - intros Hlen i r Hr. unfold outlier_records at 1.
    rewrite Honly by (by intros e (_ & ? & ?)). rewrite Hbody.
    apply Nat.ltb_ge in Hlen. rewrite Hlen.
    destruct (iqr_bounds (column_numbers df col)) as [lo up]. simpl.
    exact (outlier_rows_records df col lo up i r Hr).
Qed.

(** C7 at a sample: [Score] has the numbers 10, 11, 12, 13 and 100, hence
    the bounds [8, 16], and only the cell 100 is flagged; [Age] has three
    numbers and nothing is flagged, not even 900. *)
Lemma C7_outliers_witness :
  let errs := errors (scan (RT := Ref.runtime []) SampleOutlier.scanner
                        SampleOutlier.table SampleOutlier.report) in
  column_numbers (RT := Ref.runtime []) SampleOutlier.table "Score"
  = [10; 11; 12; 13; 100]%float
  ∧ iqr_bounds (RT := Ref.runtime []) [10; 11; 12; 13; 100]%float
    = (8, 16)%float
  ∧ outlier_records 3 "Score" errs = []
  ∧ outlier_records 4 "Score" errs
    = [mkDefect 4 "Score" outlier business]
  ∧ outlier_records 5 "Score" errs = []
  ∧ (∀ e, e ∈ errs → error_type e = outlier → col_name e ≠ "Age").
Proof.
  intros errs.
  assert (column_numbers (RT := Ref.runtime []) SampleOutlier.table "Score"
          = [10; 11; 12; 13; 100]%float) as Hnum by (vm_compute; reflexivity).
  split; [exact Hnum |]. split; [vm_compute; reflexivity |].
  assert (Forall (λ f, _to_float (RT := Ref.runtime []) (VFloat f) = Some f)
            (column_numbers (RT := Ref.runtime []) SampleOutlier.table
               "Score")) as Hrt.
  { rewrite Hnum.
    repeat (apply Forall_cons; split; [vm_compute; reflexivity |]).
    constructor. }
  assert (Forall (λ f, _to_float (RT := Ref.runtime []) (VFloat f) = Some f)
            (column_numbers (RT := Ref.runtime []) SampleOutlier.table
               "Age")) as Hrt'.
  { assert (column_numbers (RT := Ref.runtime []) SampleOutlier.table "Age"
            = [1; 2; 900]%float) as -> by (vm_compute; reflexivity).
    repeat (apply Forall_cons; split; [vm_compute; reflexivity |]).
    constructor. }
  assert ("Score" ∈ numeric_columns SampleOutlier.scanner) as Hs
    by compute_done.
  assert ("Age" ∈ outlier_columns SampleOutlier.scanner) as Ha
    by compute_done.
  assert ("Score" ∈ columns SampleOutlier.table) as Hsc by compute_done.
  assert ("Age" ∈ columns SampleOutlier.table) as Hac by compute_done.
  pose proof (C7_outliers (RT := Ref.runtime []) SampleOutlier.scanner
                SampleOutlier.table SampleOutlier.report "Score"
                (or_introl Hs) Hsc Hrt) as [_ Hrow].
  pose proof (C7_outliers (RT := Ref.runtime []) SampleOutlier.scanner
                SampleOutlier.table SampleOutlier.report "Age"
                (or_intror Ha) Hac Hrt') as [Hfew _].
  assert (4 ≤ length (column_numbers (RT := Ref.runtime [])
                        SampleOutlier.table "Score")) as Hlen
    by (rewrite Hnum; simpl; lia).
  split; [| split; [| split]].
  - unfold errs. rewrite (Hrow Hlen 3 [Some "13"; None] eq_refl).
    vm_compute. reflexivity.
  - unfold errs. rewrite (Hrow Hlen 4 [Some "100"; None] eq_refl).
    vm_compute. reflexivity.
  - unfold errs. rewrite (Hrow Hlen 5 [Some "abc"; None] eq_refl).
    vm_compute. reflexivity.
  - apply Hfew. vm_compute. lia.
Defined.

(** ** Counts and summary *)

Lemma filter_ext_in {A} (P Q : A → Prop) `{∀ x, Decision (P x)}
    `{∀ x, Decision (Q x)} (l : list A) :
  (∀ x, x ∈ l → P x ↔ Q x) → filter P l = filter Q l.
Proof.
  induction l as [|x l IH]; intros Hl; [done |].
  assert (filter P l = filter Q l) as Hrec
    by (apply IH; intros y Hy; apply Hl; by right).
  destruct (decide (P x)) as [Hp | Hp].
  - rewrite !filter_cons_True; [by f_equal | | done].
    apply Hl; [left | done].
  - rewrite !filter_cons_False; [done | | done].
    intros Hq. apply Hp, Hl; [left | done].
Qed.

(** Every record has exactly one of the seven kinds. *)
Lemma length_by_type (errs : list Defect) :
  length errs
  = count_type null_structural errs + count_type null_business errs
    + count_type type_inconsistent errs + count_type duplicate errs
    + count_type outlier errs + count_type pattern_mismatch errs
    + count_type constraint_violation errs.
Proof.
  unfold count_type. induction errs as [|e errs IH]; [done |].
  destruct e as [i c t sv].
  destruct t;
    repeat first
      [ rewrite filter_cons_True by done
      | rewrite filter_cons_False by done ];
    simpl; lia.
Qed.

(** In a scan, the records of severity [structural] are the structural
    nulls. *)
Lemma structural_iff_null `{RT : Runtime} self df schema_report e :
  e ∈ scan_errors self df schema_report →
  severity e = structural ↔ error_type e = null_structural.
Proof.
  intros [He | [Hsev Hty]]%scan_errors_elem.
  - apply null_pass_elem in He as (i & r & _ & _ & _ & He). rewrite He.
    by destruct (bool_decide _).
  - rewrite Hsev. split; [done |]. intros Hn. rewrite Hn in Hty.
    repeat (apply elem_of_cons in Hty as [? | Hty]; [done |]).
    by apply elem_of_nil in Hty.
Qed.

(** C10. Counts and summary.  In every manifest [total] is the number of
    records and the sum of the seven per-kind counts.  The summary is
    [未发现异常] when all seven counts are zero; otherwise it is [发现 ]
    followed by the mentions, joined by a comma, of exactly the kinds whose
    count is not zero, each with its count, in the fixed order. *)
Theorem C10_counts_consistent `{RT : Runtime} (self : DataHealthScanner)
    (df : DataFrame) (schema_report : Report) :
  let m := scan self df schema_report in
  let c := counts m in
  let mentioned := filter (λ k, 0 < k.1) (summary_kinds c) in
  total c = length (errors m)
  ∧ total c = structural_nulls c + business_nulls c + type_errors c
              + duplicates c + outliers c + pattern_mismatches c
              + constraint_violations c
  ∧ (mentioned = [] ↔ Forall (λ k, k.1 = 0) (summary_kinds c))
  ∧ summary m = match mentioned with
                | [] => "未发现异常"
                | _ :: _ => "发现 " +:+ String.concat "，" (mention <$> mentioned)
                end.
Proof.
  intros m c mentioned. split; [done |]. split; [| split].
  - subst c m. simpl. rewrite (length_by_type (scan_errors _ _ _)) at 1.
    f_equal. f_equal. f_equal. f_equal. f_equal. f_equal.
    unfold count_type. f_equal. symmetry. apply filter_ext_in.
    intros e He. by apply structural_iff_null in He.
  - subst mentioned. split.
    + intros Hnil. apply Forall_forall. intros k Hk.
      destruct (decide (0 < k.1)) as [Hpos | Hz]; [| lia].
      assert (k ∈ filter (λ k, 0 < k.1) (summary_kinds c)) as Hin
        by (by apply list_elem_of_filter).
      rewrite Hnil in Hin. by apply elem_of_nil in Hin.
    + intros Hall. apply filter_none. intros k Hk Hpos.
      rewrite Forall_forall in Hall. apply Hall in Hk. lia.
  - assert (summary_parts c = mention <$> mentioned) as Hparts.
    { subst mentioned. unfold summary_parts, summary_kinds, mention.
      generalize (structural_nulls c), (business_nulls c), (type_errors c),
        (duplicates c), (outliers c), (pattern_mismatches c),
        (constraint_violations c).
      intros n1 n2 n3 n4 n5 n6 n7.
      repeat match goal with
             | |- context [filter _ ((?n, _) :: _)] =>
                 destruct (Nat.ltb_spec 0 n);
                 [ rewrite filter_cons_True by (simpl; lia)
                 | rewrite filter_cons_False by (simpl; lia) ]
             end; done. }
    change (summary m) with (make_summary c). unfold make_summary.
    rewrite Hparts. by destruct mentioned.
Qed.

(** ** Row counts of the table operations *)

Lemma nrows_reindex cols df : nrows (reindex cols df) = nrows df.
Proof. unfold nrows, reindex. simpl. by rewrite length_map. Qed.

Lemma nrows_select cols df : nrows (select cols df) = nrows df.
Proof. unfold nrows, select. simpl. by rewrite length_map. Qed.

Lemma strip_column_shape col df :
  nrows (strip_column col df) = nrows df
  ∧ columns (strip_column col df) = columns df.
Proof.
  unfold strip_column, nrows. destruct (has_column df col); simpl; [| done].
  by rewrite length_map.
Qed.

Lemma strip_keys_shape df key_columns :
  nrows (_strip_primary_key_columns df key_columns) = nrows df
  ∧ columns (_strip_primary_key_columns df key_columns) = columns df.
Proof.
  unfold _strip_primary_key_columns. revert df.
  induction key_columns as [|k ks IH]; intros df; simpl; [done |].
  destruct (IH (strip_column k df)) as [-> ->]. apply strip_column_shape.
Qed.

Lemma length_flat_map {A B} (f : A → list B) (l : list A) :
  length (flat_map f l) = sum_list_with (λ x, length (f x)) l.
Proof.
  induction l as [|x l IH]; simpl; [done |]. by rewrite length_app, IH.
Qed.

Lemma nrows_concat dfs : nrows (pd_concat dfs) = sum_list_with nrows dfs.
Proof.
  unfold nrows at 1, pd_concat. simpl. rewrite length_flat_map.
  generalize (concat_columns dfs). intros cols.
  induction dfs as [|d ds IH]; simpl; [done |].
  rewrite IH. f_equal. apply (nrows_reindex cols d).
Qed.

(** [drop_duplicates] leaves one row per key. *)
Lemma dedup_rows_keys key seen rs :
  NoDup (key <$> dedup_rows key seen rs)
  ∧ ∀ k, k ∈ key <$> dedup_rows key seen rs → k ∉ seen.
Proof.
  revert seen. induction rs as [|r rs IH]; intros seen; simpl.
  - split; [constructor | by intros k ?%elem_of_nil].
  - destruct (decide (key r ∈ seen)) as [Hin | Hnin]; [apply IH |].
    destruct (IH (key r :: seen)) as [Hnd Hfresh]. rewrite fmap_cons. split.
    + apply NoDup_cons. split; [| done].
      intros Hk. apply Hfresh in Hk. apply Hk. by left.
    + intros k [-> | Hk]%elem_of_cons; [done |].
      apply Hfresh in Hk. intros Hs. apply Hk. by right.
Qed.

Lemma drop_duplicates_keys on df :
  NoDup (key_of (drop_duplicates on df) on <$> rows (drop_duplicates on df)).
Proof. unfold drop_duplicates. simpl. apply dedup_rows_keys. Qed.

Lemma filter_key_at_most_one {A K} `{EqDecision K} (key : A → K) (k : K)
    (l : list A) :
  NoDup (key <$> l) → length (filter (λ x, key x = k) l) ≤ 1.
Proof.
  induction l as [|x l IH]; [simpl; lia |].
  rewrite fmap_cons. intros [Hx Hnd]%NoDup_cons.
  destruct (decide (key x = k)) as [Hk | Hk].
  - rewrite filter_cons_True by done.
    rewrite (filter_none (λ y, key y = k) l); [simpl; lia |].
    intros y Hy Hky. apply Hx. rewrite Hk, <- Hky.
    by apply list_elem_of_fmap_2.
  - rewrite filter_cons_False by done. by apply IH.
Qed.

(** A left join on a right frame with one row per key keeps the rows of
    the left frame, one for one. *)
Lemma nrows_merge_left lf rf on :
  NoDup (key_of rf on <$> rows rf) →
  nrows (pd_merge_left lf rf on) = nrows lf.
Proof.
  intros Hnd. unfold nrows, pd_merge_left. simpl. rewrite length_flat_map.
  induction (rows lf) as [|lr lrs IH]; simpl; [done |]. rewrite IH. f_equal.
  pose proof (filter_key_at_most_one (key_of rf on) (key_of lf on lr)
                (rows rf) Hnd) as Hle.
  destruct (filter _ (rows rf)) as [|m ms]; [done |].
  simpl in *. rewrite length_map. lia.
Qed.

Lemma nrows_drop_dup_columns df : nrows (drop_dup_columns df) = nrows df.
Proof. apply nrows_select. Qed.

(** ** The join loop *)

Lemma same_entries_refl ts : same_entries ts ts.
Proof. unfold same_entries. induction ts; constructor; done. Qed.

Lemma same_entries_trans ts1 ts2 ts3 :
  same_entries ts1 ts2 → same_entries ts2 ts3 → same_entries ts1 ts3.
Proof.
  unfold same_entries. intros H12. revert ts3.
  induction H12 as [|t1 t2 l1 l2 (? & ? & ? & ? & ?) _ IH]; intros ts3 H23.
  - by inversion H23.
  - inversion H23 as [|? t3 ? l3 (? & ? & ? & ? & ?) Htl]; subst.
    constructor; [| by apply IH]. repeat split; congruence.
Qed.

Lemma same_entries_alter r idx ts :
  same_entries ts (alter (set_match_rate r) idx ts).
Proof.
  unfold same_entries. revert idx.
  induction ts as [|t ts IH]; intros idx; [constructor |].
  destruct idx as [|idx]; simpl.
  - constructor; [done | apply same_entries_refl].
  - constructor; [done | apply IH].
Qed.

Lemma same_entries_kept_rows ts ts' :
  same_entries ts ts' → kept_rows ts' = kept_rows ts.
Proof.
  unfold kept_rows. induction 1 as [|t t' l l' (_ & Hn & Hs & _) _ IH];
    [done |].
  destruct (decide (status t = st_ok)) as [Hok | Hok].
  - rewrite !filter_cons_True by congruence. simpl. by rewrite IH, Hn.
  - rewrite !filter_cons_False by congruence. done.
Qed.

Lemma same_entries_lookup ts ts' i t :
  same_entries ts ts' → ts !! i = Some t →
  ∃ t', ts' !! i = Some t' ∧ file t' = file t ∧ row_count t' = row_count t
        ∧ status t' = status t.
Proof.
  intros Hsame Ht. destruct (Forall2_lookup_l _ _ _ _ _ Hsame Ht)
    as (t' & Ht' & ? & ? & ? & _).
  by exists t'.
Qed.

Section JoinFacts.
Context `{RT : Runtime}.
Variable first : DataFrame.
Variable key_cols_use : list string.

Lemma join_body_keeps idx right_df acc :
  join_keeps acc (join_body first key_cols_use idx right_df acc).
Proof.
  destruct acc as [lf rep]. unfold join_body, join_keeps.
  destruct (merge_on_of key_cols_use lf right_df) as [|k ks] eqn:Hon.
  - simpl. repeat split; [apply same_entries_refl].
  - set (on := k :: ks). cbn zeta.
    match goal with
    | |- context [if ?b then _ else _] => destruct b
    end; simpl.
    all: split;
      [ rewrite nrows_drop_dup_columns, nrows_merge_left;
          [done | apply drop_duplicates_keys]
      | repeat split; apply same_entries_alter ].
Qed.

Lemma join_loop_keeps idx rights acc :
  join_keeps acc (join_loop first key_cols_use idx rights acc).
Proof.
  revert idx acc. induction rights as [|r rs IH]; intros idx acc; simpl.
  - unfold join_keeps. repeat split; [apply same_entries_refl].
  - specialize (IH (S idx) (join_body first key_cols_use idx r acc)).
    pose proof (join_body_keeps idx r acc) as Hb.
    unfold join_keeps in *.
    destruct IH as (-> & -> & -> & -> & -> & Hs).
    destruct Hb as (-> & -> & -> & -> & -> & Hs').
    repeat split. by eapply same_entries_trans.
Qed.

End JoinFacts.

(** ** The loop over the files *)

Lemma kept_rows_app ts t :
  kept_rows (ts ++ [t])
  = kept_rows ts + (if decide (status t = st_ok) then row_count t else 0).
Proof.
  unfold kept_rows. rewrite filter_app, sum_list_with_app.
  destruct (decide (status t = st_ok)).
  - rewrite filter_cons_True by done. simpl. lia.
  - rewrite filter_cons_False by done. simpl. lia.
Qed.

Section LoopFacts.
Context `{RT : Runtime}.
Variable key_cols : list string.
Variable template_incremental : bool.

(** The frame the loop works on has the rows and labels of the frame
    read. *)
Lemma stripped_shape df :
  nrows (stripped key_cols df) = nrows df
  ∧ columns (stripped key_cols df) = columns df.
Proof. unfold stripped. destruct key_cols; [done | apply strip_keys_shape]. Qed.

Lemma loop_body_inv i fp st st' :
  loop_body key_cols template_incremental i fp st = Continue st' →
  loop_inv st → loop_inv st'.
Proof.
  unfold loop_body, loop_inv. intros Hbody [Hsum Herr].
  destruct (_read_table fp) as [e | df].
  { injection Hbody as <-. simpl. rewrite kept_rows_app. simpl.
    split; [lia | done]. }
  pose proof (stripped_shape df) as [Hn Hc].
  revert Hbody Hn Hc. generalize (stripped key_cols df).
  intros df' Hbody Hn Hc. destruct i as [|i].
  - destruct (has_duplicates (columns df')); [done |].
    injection Hbody as <-. simpl.
    rewrite kept_rows_app, sum_list_with_app. simpl.
    split; [| done]. rewrite Hsum. f_equal.
    destruct key_cols; [by rewrite nrows_reindex |].
    destruct template_incremental; [lia | by rewrite nrows_reindex].
  - destruct (l_cols st) as [cols |]; [| done].
    destruct (bool_decide _); injection Hbody as <-; simpl;
      rewrite kept_rows_app; simpl.
    + split; [lia | done].
    + rewrite sum_list_with_app. simpl. rewrite nrows_reindex.
      split; [lia | done].
Qed.

(** The loop leaves the function early only with a top-level error, or by
    an exception. *)
Lemma loop_body_leave i fp st df rep :
  loop_body key_cols template_incremental i fp st = Leave (Returned df rep) →
  error rep ≠ None.
Proof.
  unfold loop_body. destruct (_read_table fp) as [e | df0]; [done |].
  destruct i as [|i].
  - destruct (has_duplicates _); [| done]. by intros [= <- <-].
  - destruct (l_cols st); [| done]. by destruct (bool_decide _).
Qed.

Lemma merge_loop_inv i fps st st' :
  merge_loop key_cols template_incremental i fps st = inl st' →
  loop_inv st → loop_inv st'.
Proof.
  revert i st. induction fps as [|fp fps IH]; intros i st; simpl.
  - by intros [= <-].
  - destruct (loop_body _ _ i fp st) as [st1 | o] eqn:Hbody; [| done].
    intros Hloop Hinv. eapply IH; [done |]. by eapply loop_body_inv.
Qed.

Lemma merge_loop_leave i fps st df rep :
  merge_loop key_cols template_incremental i fps st = inr (Returned df rep) →
  error rep ≠ None.
Proof.
  revert i st. induction fps as [|fp fps IH]; intros i st; simpl; [done |].
  destruct (loop_body _ _ i fp st) as [st1 | o] eqn:Hbody.
  - apply IH.
  - intros [= ->]. by eapply loop_body_leave.
Qed.

(** The turn for file 0. *)
Lemma loop_body_first fp st st' df0 :
  loop_body key_cols template_incremental 0 fp st = Continue st' →
  _read_table fp = inr df0 →
  l_merged st = [] → tables (l_report st) = [] →
  first_facts key_cols template_incremental df0 st'.
Proof.
  unfold loop_body, first_facts. intros Hbody Hread Hm Ht. rewrite Hread in Hbody.
  pose proof (stripped_shape df0) as [Hn Hc].
  revert Hbody Hn Hc. generalize (stripped key_cols df0).
  intros df' Hbody Hn Hc.
  destruct (has_duplicates (columns df')); [done |].
  injection Hbody as <-. simpl. rewrite Hm, Ht. simpl.
  eexists _, [], _, _. repeat split; simpl.
  - exact Hn.
  - destruct key_cols; [by rewrite nrows_reindex |].
    destruct template_incremental; [done | by rewrite nrows_reindex].
  - destruct key_cols as [|k ks]; simpl; [done |].
    by destruct template_incremental.
Qed.

(** The turns for the later files keep what is known of file 0. *)
Lemma loop_body_later i fp st st' df0 :
  loop_body key_cols template_incremental (S i) fp st = Continue st' →
  first_facts key_cols template_incremental df0 st →
  first_facts key_cols template_incremental df0 st'.
Proof.
  unfold loop_body, first_facts.
  intros Hbody (first & rest & e0 & cols & Hm & Hc & Href & Ht & Hfacts).
  rewrite Hc in Hbody.
  destruct (_read_table fp) as [e | df].
  { injection Hbody as <-. simpl. exists first, rest, e0, cols.
    rewrite lookup_app_l by (by eapply lookup_lt_Some). done. }
  destruct (bool_decide _); injection Hbody as <-; simpl.
  - exists first, rest, e0, cols.
    rewrite lookup_app_l by (by eapply lookup_lt_Some). done.
  - rewrite Hm. eexists first, _, e0, cols.
    rewrite lookup_app_l by (by eapply lookup_lt_Some). done.
Qed.

Lemma merge_loop_later i fps st st' df0 :
  merge_loop key_cols template_incremental (S i) fps st = inl st' →
  first_facts key_cols template_incremental df0 st →
  first_facts key_cols template_incremental df0 st'.
Proof.
  revert i st. induction fps as [|fp fps IH]; intros i st; simpl.
  - by intros [= <-].
  - destruct (loop_body _ _ (S i) fp st) as [st1 | o] eqn:Hbody; [| done].
    intros Hloop Hfacts. eapply IH; [done |]. by eapply loop_body_later.
Qed.

Lemma merge_loop_first fp fps st st' df0 :
  merge_loop key_cols template_incremental 0 (fp :: fps) st = inl st' →
  _read_table fp = inr df0 →
  l_merged st = [] → tables (l_report st) = [] →
  first_facts key_cols template_incremental df0 st'.
Proof.
  simpl. destruct (loop_body _ _ 0 fp st) as [st1 | o] eqn:Hbody; [| done].
  intros Hloop Hread Hm Ht. eapply merge_loop_later; [done |].
  by eapply loop_body_first.
Qed.

End LoopFacts.

(** ** Row counts of a merge *)

Section CombineFacts.
Context `{RT : Runtime}.

(** The end of the merge: a join when file 0 has one of the key columns,
    a stack otherwise; the report keeps its entries and its other fields,
    match rates and warning apart. *)
Lemma combine_rows key_cols first rights report result report' :
  combine key_cols (first :: rights) report = (result, report') →
  error report' = error report
  ∧ reference_columns report' = reference_columns report
  ∧ fatal_mismatch_count report' = fatal_mismatch_count report
  ∧ same_entries (tables report) (tables report')
  ∧ nrows result
    = if bool_decide (filter (λ c, c ∈ columns first) key_cols ≠ [])
      then nrows first
      else sum_list_with nrows (first :: rights).
Proof.
  unfold combine. destruct key_cols as [|k ks].
  { intros [= <- <-]. rewrite nrows_concat.
    repeat split; apply same_entries_refl. }
  destruct (filter (λ c, c ∈ columns first) (k :: ks)) as [|c cs] eqn:Huse.
  { intros [= <- <-]. rewrite nrows_concat.
    repeat split; apply same_entries_refl. }
  pose proof (join_loop_keeps first (c :: cs) 1 rights (first, report))
    as Hkeep.
  destruct (join_loop first (c :: cs) 1 rights (first, report))
    as [lf rep1].
  intros [= <- <-]. rewrite nrows_reindex.
  destruct Hkeep as (Hn & He & Hr & _ & Hf & Hs). simpl in *. done.
Qed.

End CombineFacts.

(** X29. Row counts.  For a merge that returns without a
    top-level error: with no primary-key column supplied the merged table
    has as many rows as the kept files (the entries of status [ok])
    together.  With primary-key columns supplied and file 0 readable: when
    at least one of them is a column of the frame kept for file 0 (the
    columns of file 0 in incremental mode, the baseline columns otherwise)
    the merged table has exactly the rows of file 0, which entry 0 records;
    when none is, the merge falls back to stacking and the merged table has
    the rows of the kept files together. *)
Theorem X29_row_counts `{RT : Runtime} (file_paths : list string)
    (baseline_columns : option (list string)) (template_incremental : bool)
    (primary_key_columns : option (list string))
    (df : DataFrame) (rep : Report) :
  merge_and_report file_paths baseline_columns template_incremental
    primary_key_columns = Returned df rep →
  error rep = None →
  let key_cols := default [] primary_key_columns in
  (key_cols = [] → nrows df = kept_rows (tables rep))
  ∧ (key_cols ≠ [] →
     ∀ fp0 df0, head file_paths = Some fp0 → _read_table fp0 = inr df0 →
       let first_cols := if template_incremental then columns df0
                         else reference_columns rep in
       ((∃ c, c ∈ key_cols ∧ c ∈ first_cols) →
        nrows df = nrows df0
        ∧ row_count <$> tables rep !! 0 = Some (nrows df0))
       ∧ ((∀ c, c ∈ key_cols → c ∉ first_cols) →
          nrows df = kept_rows (tables rep))).
Proof.
  intros Hmerge Herr key_cols. unfold merge_and_report in Hmerge.
  destruct file_paths as [|fp0 fps].
  { injection Hmerge as <- <-. done. }
  fold key_cols in Hmerge.
  destruct (merge_loop key_cols template_incremental 0 (fp0 :: fps) _)
    as [st | o] eqn:Hloop.
  2:{ subst o. by apply merge_loop_leave in Hloop. }
  pose proof (merge_loop_inv _ _ _ _ _ _ Hloop) as [Hsum Hnone].
  { split; done. }
  assert (∀ df0, _read_table fp0 = inr df0 →
            first_facts key_cols template_incremental df0 st) as Hfirst.
  { intros df0 Hread. by eapply merge_loop_first. }
  destruct (l_merged st) as [|first rights] eqn:Hmerged.
  { injection Hmerge as <- <-. simpl. split.
    - intros _. by rewrite <- Hsum.
    - intros _ fp df0 [= <-] Hread.
      destruct (Hfirst df0 Hread) as (f & r & e0 & cols & Hm & _).
      rewrite Hmerged in Hm. discriminate. }
  destruct (combine key_cols (first :: rights) _) as [result report'] eqn:Hcomb.
  injection Hmerge as <- <-.
  apply combine_rows in Hcomb as (_ & Href & _ & Hsame & Hrows). simpl in *.
  split.
  - intros Hk. rewrite Hk in Hrows. simpl in Hrows.
    rewrite Hrows, (same_entries_kept_rows _ _ Hsame). done.
  - intros Hk fp df0 [= <-] Hread.
    destruct (Hfirst df0 Hread)
      as (f & r & e0 & cols & Hm & _ & Hcols & He0 & Hn0 & _ & Hnf & Hcf).
    rewrite Hmerged in Hm. injection Hm as <- <-. rewrite Href, Hcols.
    rewrite bool_decide_eq_true_2 in Hcf by done. simpl in Hcf.
    rewrite <- Hcf. split.
    + intros (c & Hc & Hcin).
      rewrite bool_decide_eq_true_2 in Hrows.
      2:{ intros Hnil.
          assert (c ∈ filter (λ c, c ∈ columns first) key_cols) as Hin
            by (by apply list_elem_of_filter).
          rewrite Hnil in Hin. by apply elem_of_nil in Hin. }
      split; [congruence |].
      destruct (same_entries_lookup _ _ 0 e0 Hsame He0)
        as (e0' & -> & _ & Hrc & _). simpl. congruence.
    + intros Hnone'. rewrite bool_decide_eq_false_2 in Hrows.
      2:{ intros Hne. apply Hne. apply filter_none.
          intros c Hc Hcin. by apply (Hnone' c). }
      rewrite Hrows, (same_entries_kept_rows _ _ Hsame). done.
Qed.

(** X29 at a sample: joined on [K], the merge of [a.csv] (2 rows) and
    [b.csv] (3 rows) has the 2 rows of [a.csv]. *)
Lemma X29_row_counts_witness :
  ∃ df rep,
    merge_and_report (RT := Ref.runtime SampleMerge.files)
      ["a.csv"; "b.csv"] None false (Some ["K"]) = Returned df rep
    ∧ error rep = None
    ∧ nrows df = 2
    ∧ row_count <$> tables rep !! 0 = Some 2.
Proof.
  destruct (merge_and_report (RT := Ref.runtime SampleMerge.files)
              ["a.csv"; "b.csv"] None false (Some ["K"]))
    as [df rep |] eqn:Hmerge; [| by vm_compute in Hmerge].
  assert (error rep = None) as Herr
    by (vm_compute in Hmerge; by injection Hmerge as <- <-).
  assert (reference_columns rep = ["K"; "A"]) as Href
    by (vm_compute in Hmerge; by injection Hmerge as <- <-).
  exists df, rep. split; [done |]. split; [done |].
  destruct (X29_row_counts (RT := Ref.runtime SampleMerge.files) _ _ _ _ _ _
              Hmerge Herr) as [_ Hkey].
  destruct (Hkey ltac:(done) "a.csv" SampleMerge.a eq_refl eq_refl)
    as [Hjoin _].
  apply Hjoin. exists "K". rewrite Href. split; compute_done.
Defined.

(** C3 at the failing input.  With the primary-key column [Id] supplied
    and in neither file, the merge does not join: it stacks the two one-row
    files.  The merged table has two rows where file 0 has one, and the
    report gives no sign of it, while the docstrings of [merge_and_report]
    and of [TableMerger] promise for a non-empty [primary_key_columns] a
    left join whose rows are those of the first table. *)
Lemma C3_key_join_stacks :
  ∃ df rep,
    merge_and_report (RT := Ref.runtime SampleNoKey.files)
      ["a.csv"; "b.csv"] None false (Some ["Id"]) = Returned df rep
    ∧ error rep = None
    ∧ merge_warning rep = None
    ∧ row_count <$> tables rep !! 0 = Some 1
    ∧ rows df = [ [Some "1"]; [Some "2"] ].
Proof.
  eexists _, _. split; [vm_compute; reflexivity |]. repeat split.
Qed.

(** ** Alignment *)

Lemma index_of_lookup cols j c :
  NoDup cols → cols !! j = Some c → index_of c cols = Some j.
Proof.
  revert j. induction cols as [|d cols IH]; intros j Hnd Hj; [done |].
  apply NoDup_cons in Hnd as [Hd Hnd]. simpl. destruct j as [|j]; simpl in Hj.
  - injection Hj as ->. by rewrite decide_True.
  - rewrite decide_False.
    + by rewrite (IH j).
    + intros ->. apply Hd. by eapply list_elem_of_lookup_2.
Qed.


(** ** Frames as objects *)







(** ** Where the merge misses its contract *)

(** C2 at the failing input.  When the first file cannot be read (here it
    has an extension [_read_table] refuses) the report gets no top-level
    error: with a readable second file and no baseline an exception escapes
    [merge_and_report], and alone the file yields an empty table and a
    report whose [error] is absent. *)
Lemma C2_unreadable_first_file :
  merge_and_report (RT := Ref.runtime SampleMerge.files)
    ["a.txt"; "b.csv"] None false None
  = Raised "TypeError: 'NoneType' object is not iterable"
  ∧ ∃ rep,
      merge_and_report (RT := Ref.runtime SampleMerge.files)
        ["a.txt"] None false None = Returned empty_frame rep
      ∧ error rep = None
      ∧ status <$> tables rep = [st_read_error].
Proof.
  split; [vm_compute; reflexivity |].
  eexists. split; [vm_compute; reflexivity |]. split; reflexivity.
Qed.

(** C4 at the failing input.  In incremental mode with primary-key
    columns, file 0 is kept with its own columns; when none of the key
    columns is one of them the frames are stacked without being put in
    baseline order, and the merged table has the columns of file 0 in the
    order of the file, not the baseline of the report. *)
Lemma C4_columns_differ :
  ∃ df rep,
    merge_and_report (RT := Ref.runtime SampleMerge.files)
      ["a.csv"] (Some ["A"; "K"]) true (Some ["Id"]) = Returned df rep
    ∧ error rep = None
    ∧ columns df = ["K"; "A"]
    ∧ reference_columns rep = ["A"; "K"].
Proof.
  eexists _, _. split; [vm_compute; reflexivity |]. repeat split.
Qed.

(** ** Match rates *)

Lemma index_of_Some c cols j : index_of c cols = Some j → cols !! j = Some c.
Proof.
  revert j. induction cols as [|d cols IH]; intros j; simpl; [done |].
  destruct (decide (d = c)) as [-> | Hne].
  - by intros [= <-].
  - destruct (index_of c cols) as [k |]; [| done]. simpl.
    intros [= <-]. by apply IH.
Qed.

Lemma index_of_elem c cols : c ∈ cols → is_Some (index_of c cols).
Proof.
  induction cols as [|d cols IH]; [by intros ?%elem_of_nil |].
  simpl. destruct (decide (d = c)) as [-> | Hne]; [by eexists |].
  intros [-> | Hin]%elem_of_cons; [done |].
  destruct (IH Hin) as [j ->]. by eexists.
Qed.

(** Reading a selected row back by label gives the cells selected. *)
Lemma row_get_map (g : string → cell) (on : list string) (c : string) :
  c ∈ on → row_get on (map g on) c = g c.
Proof.
  intros Hin. unfold row_get.
  destruct (index_of_elem c on Hin) as [j Hj]. rewrite Hj.
  apply index_of_Some in Hj. change (map g on) with (g <$> on).
  by rewrite list_lookup_fmap, Hj.
Qed.












Lemma rows_select on df : rows (select on df) = keys_of_frame df on.
Proof. done. Qed.


Section JoinRates.
Context `{RT : Runtime}.
Variable first : DataFrame.
Variable key_cols_use : list string.
Hypothesis no_dup_suffix : Forall (λ c, ends_with_dup c = false) key_cols_use.





End JoinRates.

(** ** The loop over the files, when every file is kept *)

Section LoopKept.
Context `{RT : Runtime}.
Variable key_cols : list string.
Variable template_incremental : bool.




End LoopKept.

Section MatchRates.
Context `{RT : Runtime}.




(** Without a key column in file 0 the frames are stacked and the report
    is left as it is. *)
Lemma combine_no_join key_cols first rights report :
  filter (λ c, c ∈ columns first) key_cols = [] →
  combine key_cols (first :: rights) report
  = (pd_concat (first :: rights), report).
Proof.
  unfold combine. intros Hnone. destruct key_cols as [|k ks]; [done |].
  by rewrite Hnone.
Qed.

(** With one, they are joined. *)
Lemma combine_join key_cols first rights report :
  filter (λ c, c ∈ columns first) key_cols ≠ [] →
  combine key_cols (first :: rights) report
  = let acc := join_loop first (filter (λ c, c ∈ columns first) key_cols)
                 1 rights (first, report) in
    (reindex (reference_columns acc.2) acc.1, acc.2).
Proof.
  unfold combine. intros Hsome. destruct key_cols as [|k ks]; [done |].
  destruct (filter _ (k :: ks)) as [|c cs]; [done |].
  by destruct (join_loop _ _ _ _ _).
Qed.


End MatchRates.




(** * Further properties of the scanner *)

(** ** Row ranges *)

Lemma row_ranges_from_lookup start ts k :
  row_ranges_from start ts !! k
  = (λ t, (start + sum_list_with row_count (take k ts),
           start + sum_list_with row_count (take k ts) + row_count t))
      <$> ts !! k.
Proof.
  revert start k. induction ts as [|t ts IH]; intros start [|k]; simpl;
    [done | done | by rewrite Nat.add_0_r |].
  rewrite IH. destruct (ts !! k); simpl; [| done].
  do 2 f_equal; lia.
Qed.

Lemma length_row_ranges_from start ts :
  length (row_ranges_from start ts) = length ts.
Proof.
  revert start. induction ts as [|t ts IH]; intros start; simpl; [done |].
  by rewrite IH.
Qed.

Lemma sum_take_le {A} (f : A → nat) (l : list A) j k :
  j ≤ k → sum_list_with f (take j l) ≤ sum_list_with f (take k l).
Proof.
  revert j k. induction l as [|x l IH]; intros [|j] [|k] Hjk; simpl;
    try lia.
  specialize (IH j k). lia.
Qed.

Lemma sum_take_S {A} (f : A → nat) (l : list A) k x :
  l !! k = Some x →
  sum_list_with f (take (S k) l) = sum_list_with f (take k l) + f x.
Proof.
  revert k. induction l as [|y l IH]; intros [|k] Hk; simpl in *;
    [done | done | injection Hk as ->; lia |].
  rewrite (IH k Hk). lia.
Qed.

(** X1. The ranges of [_build_row_ranges] are one per entry of the report,
    each starting where the previous one ends (the first at row 0) and as
    long as the [row_count] of its entry; and they agree with
    [_row_index_to_file_index]: a row that lies in the range of an entry is
    attributed to that entry, and a row in no range is attributed to
    entry 0. *)
Theorem X1_row_ranges (schema_report : Report) :
  let ranges := _build_row_ranges schema_report in
  length ranges = length (tables schema_report)
  ∧ (∀ k s e, ranges !! k = Some (s, e) →
       ∃ t, tables schema_report !! k = Some t
         ∧ s = rows_before schema_report k ∧ e = s + row_count t
         ∧ e = rows_before schema_report (S k))
  ∧ (∀ i k s e, ranges !! k = Some (s, e) → s ≤ i < e →
       _row_index_to_file_index i schema_report = k)
  ∧ (∀ i, (∀ k s e, ranges !! k = Some (s, e) → ¬ (s ≤ i < e)) →
       _row_index_to_file_index i schema_report = 0).
Proof.
  intros ranges. subst ranges. unfold _build_row_ranges, rows_before.
  assert (∀ k s e, row_ranges_from 0 (tables schema_report) !! k = Some (s, e) →
    ∃ t, tables schema_report !! k = Some t
      ∧ s = sum_list_with row_count (take k (tables schema_report))
      ∧ e = s + row_count t
      ∧ e = sum_list_with row_count (take (S k) (tables schema_report)))
    as Hrange.
  { intros k s e. rewrite row_ranges_from_lookup.
    destruct (tables schema_report !! k) as [t |] eqn:Ht; [| done].
    simpl. intros [= <- <-]. exists t. rewrite (sum_take_S _ _ _ _ Ht).
    by repeat split. }
  assert (∀ i, i < sum_list_with row_count (tables schema_report) →
    ∃ j t, _row_index_to_file_index i schema_report = j
      ∧ tables schema_report !! j = Some t
      ∧ sum_list_with row_count (take j (tables schema_report)) ≤ i
      ∧ i < sum_list_with row_count (take j (tables schema_report))
            + row_count t) as Hwalk.
  { intros i Hi.
    destruct (file_index_from_spec i 0 0 (tables schema_report)) as [H _];
      [lia |].
    destruct H as (j & t & Hj & Ht & Hlo & Hhi); [simpl; lia |].
    exists j, t. by repeat split. }
  assert (∀ k, sum_list_with row_count (take k (tables schema_report))
               ≤ sum_list_with row_count (tables schema_report)) as Htot.
  { intros k.
    rewrite <- (firstn_all (tables schema_report)) at 2.
    destruct (decide (k ≤ length (tables schema_report))).
    - by apply sum_take_le.
    - rewrite (take_ge _ k) by lia. by rewrite firstn_all. }
  split; [| split; [done | split]].
  - apply length_row_ranges_from.
  - intros i k s e Hk Hi.
    destruct (Hrange k s e Hk) as (t & Ht & -> & -> & Hnext).
    destruct (Hwalk i) as (j & t' & -> & Ht' & Hlo & Hhi).
    { specialize (Htot (S k)). lia. }
    rewrite <- (sum_take_S _ _ _ _ Ht') in Hhi.
    destruct (Nat.lt_trichotomy j k) as [Hlt | [-> | Hgt]]; [| done |].
    + pose proof (sum_take_le row_count (tables schema_report) (S j) k).
      lia.
    + pose proof (sum_take_le row_count (tables schema_report) (S k) j).
      lia.
  - intros i Hi.
    destruct (Nat.lt_ge_cases i
                (sum_list_with row_count (tables schema_report)))
      as [Hlt | Hge].
    + destruct (Hwalk i Hlt) as (j & t & Hj & Ht & Hlo & Hhi).
      destruct (Hi j (sum_list_with row_count (take j (tables schema_report)))
                  (sum_list_with row_count (take j (tables schema_report))
                   + row_count t)); [| lia].
      by rewrite row_ranges_from_lookup, Ht.
    + destruct (file_index_from_spec i 0 0 (tables schema_report)) as [_ H];
        [lia |].
      apply H. simpl. lia.
Qed.

(** ** Where the records of a scan point *)

Section ScanRecords.
Context `{RT : Runtime}.
Variable self : DataHealthScanner.
Variable df : DataFrame.
Variable schema_report : Report.

Lemma rows_elem i r :
  (i, r) ∈ enumerate_from 0 (rows df) ↔ rows df !! i = Some r.
Proof.
  rewrite enumerate_from_lookup, Nat.sub_0_r.
  split; [by intros [_ ?] | intros; split; [lia | done]].
Qed.

(** The records of the pass at position [p] are the errors of the kinds of
    that pass. *)
Lemma scan_errors_pass p l e :
  passes self df schema_report !! p = Some l →
  e ∈ scan_errors self df schema_report ∧ pass_of (error_type e) = p
  ↔ e ∈ l.
Proof.
  intros Hl. rewrite scan_errors_passes, list_elem_of_join. split.
  - intros [(l' & He & Hl') Hp].
    apply list_elem_of_lookup in Hl' as [j Hj].
    rewrite (passes_kind self df schema_report j l' e Hj He) in Hp.
    subst j. congruence.
  - intros He. split; [| by eapply passes_kind].
    exists l. split; [done |]. apply list_elem_of_lookup. by exists p.
Qed.

Lemma type_pass_records e :
  e ∈ type_pass self df ↔
  ∃ i r c, rows df !! i = Some r
    ∧ c ∈ numeric_columns self ∧ c ∈ columns df
    ∧ _is_empty (cell_value (row_get (columns df) r c)) = false
    ∧ _is_numeric_value (cell_value (row_get (columns df) r c)) = false
    ∧ e = mkDefect i c type_inconsistent business.
Proof.
  unfold type_pass. rewrite elem_of_flat_map. split.
  - intros (c & Hc & He). unfold has_column in He.
    destruct (decide (c ∈ columns df)) as [Hin | Hnin].
    2:{ rewrite bool_decide_eq_false_2 in He by done.
        by apply elem_of_nil in He. }
    rewrite bool_decide_eq_true_2 in He by done. simpl in He.
    apply elem_of_flat_map in He as ([i r] & Hir & He).
    apply rows_elem in Hir. simpl in He.
    destruct (_is_empty _) eqn:Hemp; [by apply elem_of_nil in He |].
    destruct (_is_numeric_value _) eqn:Hnum; simpl in He;
      [by apply elem_of_nil in He |].
    apply list_elem_of_singleton in He. by exists i, r, c.
  - intros (i & r & c & Hr & Hn & Hc & Hemp & Hnum & ->).
    exists c. split; [done |]. unfold has_column.
    rewrite bool_decide_eq_true_2 by done. simpl.
    apply elem_of_flat_map. exists (i, r).
    split; [by apply rows_elem |]. simpl. rewrite Hemp, Hnum. simpl.
    by apply list_elem_of_singleton.
Qed.

Lemma outlier_pass_records e :
  e ∈ outlier_pass self df →
  ∃ i r c f, rows df !! i = Some r ∧ c ∈ columns df
    ∧ (c ∈ numeric_columns self ∨ c ∈ outlier_columns self)
    ∧ _is_empty (cell_value (row_get (columns df) r c)) = false
    ∧ _to_float (cell_value (row_get (columns df) r c)) = Some f
    ∧ e = mkDefect i c outlier business.
Proof.
  unfold outlier_pass. intros (c & Hc & He)%elem_of_flat_map.
  unfold all_outlier_cols in Hc.
  apply elem_of_elements, elem_of_union in Hc.
  rewrite !elem_of_list_to_set in Hc.
  unfold outlier_column, has_column in He.
  destruct (decide (c ∈ columns df)) as [Hin | Hnin].
  2:{ rewrite bool_decide_eq_false_2 in He by done.
      by apply elem_of_nil in He. }
  rewrite bool_decide_eq_true_2 in He by done. simpl in He.
  assert (∀ lo up, e ∈ outlier_rows df c lo up →
    ∃ i r c f, rows df !! i = Some r ∧ c ∈ columns df
      ∧ (c ∈ numeric_columns self ∨ c ∈ outlier_columns self)
      ∧ _is_empty (cell_value (row_get (columns df) r c)) = false
      ∧ _to_float (cell_value (row_get (columns df) r c)) = Some f
      ∧ e = mkDefect i c outlier business) as Hrows.
  { intros lo up ([i r] & Hir & Hrow)%elem_of_flat_map.
    apply rows_elem in Hir. simpl in Hrow.
    destruct (_is_empty _) eqn:Hemp; [by apply elem_of_nil in Hrow |].
    destruct (_to_float _) as [f |] eqn:Hf; [| by apply elem_of_nil in Hrow].
    destruct (_ || _); [| by apply elem_of_nil in Hrow].
    apply list_elem_of_singleton in Hrow. by exists i, r, c, f. }
  destruct (_outlier_bounds_iqr _) as [[lo |] [up |]];
    [by eapply Hrows.. | by apply elem_of_nil in He].
Qed.

Lemma pattern_pass_records e :
  e ∈ pattern_pass self df ↔
  ∃ i r c p search, rows df !! i = Some r
    ∧ (c, p) ∈ pattern_columns self ∧ c ∈ columns df
    ∧ re_compile p = Some search
    ∧ _is_empty (cell_value (row_get (columns df) r c)) = false
    ∧ search (Py.strip (py_str (cell_value (row_get (columns df) r c))))
      = false
    ∧ e = mkDefect i c pattern_mismatch business.
Proof.
  unfold pattern_pass. rewrite elem_of_flat_map. split.
  - intros ([c p] & Hcp & He). simpl in He. unfold has_column in He.
    destruct (decide (c ∈ columns df)) as [Hin | Hnin].
    2:{ rewrite bool_decide_eq_false_2 in He by done.
        by apply elem_of_nil in He. }
    rewrite bool_decide_eq_true_2 in He by done. simpl in He.
    destruct (re_compile p) as [search |] eqn:Hp;
      [| by apply elem_of_nil in He].
    apply elem_of_flat_map in He as ([i r] & Hir & He).
    apply rows_elem in Hir. simpl in He.
    destruct (_is_empty _) eqn:Hemp; [by apply elem_of_nil in He |].
    destruct (search _) eqn:Hs; simpl in He; [by apply elem_of_nil in He |].
    apply list_elem_of_singleton in He. by exists i, r, c, p, search.
  - intros (i & r & c & p & search & Hr & Hcp & Hc & Hp & Hemp & Hs & ->).
    exists (c, p). split; [done |]. simpl. unfold has_column.
    rewrite bool_decide_eq_true_2 by done. simpl. rewrite Hp.
    apply elem_of_flat_map. exists (i, r).
    split; [by apply rows_elem |]. simpl. rewrite Hemp, Hs. simpl.
    by apply list_elem_of_singleton.
Qed.

(** Every record of a scan is about a row of the table. *)
Lemma scan_errors_row e :
  e ∈ scan_errors self df schema_report → row_index e < nrows df.
Proof.
  unfold scan_errors. rewrite !elem_of_app.
  intros [He | [He | [He | [He | [He | He]]]]].
  - apply null_pass_elem in He as (i & r & Hr & _ & _ & ->).
    apply lookup_lt_Some in Hr. by destruct (bool_decide _).
  - apply type_pass_records in He as (i & r & c & Hr & _ & _ & _ & _ & ->).
    by apply lookup_lt_Some in Hr.
  - unfold dup_pass in He. destruct (filter _ _) as [|k ks];
      [by apply elem_of_nil in He |].
    revert He. generalize (∅ : gset (list string)).
    unfold nrows. generalize (k :: ks). intros kc.
    replace (length (rows df)) with (0 + length (rows df)) by done.
    generalize 0. induction (rows df) as [|r rs IH]; intros s seen; simpl.
    + by intros ?%elem_of_nil.
    + destruct (bool_decide _).
      * intros [-> | He]%elem_of_cons; [simpl; lia |].
        apply IH in He. lia.
      * intros He. apply IH in He. lia.
  - apply outlier_pass_records in He
      as (i & r & c & f & Hr & _ & _ & _ & _ & ->).
    by apply lookup_lt_Some in Hr.
  - apply pattern_pass_records in He
      as (i & r & c & p & s & Hr & _ & _ & _ & _ & _ & ->).
    by apply lookup_lt_Some in Hr.
  - unfold constraint_pass in He.
    apply elem_of_flat_map in He as (c & _ & He).
    unfold constraint_check in He.
    destruct (c_left c), (c_right c); try by apply elem_of_nil in He.
    destruct (_ || _); [by apply elem_of_nil in He |].
    apply elem_of_flat_map in He as ([i r] & Hir & He).
    apply rows_elem in Hir. simpl in He.
    destruct (negb _); [| by apply elem_of_nil in He].
    apply list_elem_of_singleton in He. subst e.
    by apply lookup_lt_Some in Hir.
Qed.

End ScanRecords.

Lemma filter_type_scan `{RT : Runtime} (self : DataHealthScanner)
    (df : DataFrame) (schema_report : Report)
    (Q : Defect → Prop) `{∀ e, Decision (Q e)} :
  (∀ e, Q e → error_type e = type_inconsistent) →
  filter Q (scan_errors self df schema_report)
  = filter Q (type_pass self df).
Proof.
  intros HQ. apply (filter_pass_scan self df schema_report Q 1).
  by intros e ->%HQ.
Qed.

(** X2. Type check.  The [type_inconsistent] records of a scan are the
    records, of severity [business], of the cells that are not empty and
    that [_is_numeric_value] rejects, in the configured numeric columns the
    table has.  When the numeric columns are configured once each, such a
    cell has exactly one record. *)
Theorem X2_type_records `{RT : Runtime} (self : DataHealthScanner)
    (df : DataFrame) (schema_report : Report) :
  let errs := errors (scan self df schema_report) in
  (∀ e, e ∈ errs ∧ error_type e = type_inconsistent ↔
     ∃ i r c, rows df !! i = Some r
       ∧ c ∈ numeric_columns self ∧ c ∈ columns df
       ∧ _is_empty (cell_value (row_get (columns df) r c)) = false
       ∧ _is_numeric_value (cell_value (row_get (columns df) r c)) = false
       ∧ e = mkDefect i c type_inconsistent business)
  ∧ (NoDup (numeric_columns self) →
     ∀ i r c, rows df !! i = Some r → c ∈ columns df →
       records_at (λ e, error_type e = type_inconsistent) i c errs
       = if bool_decide (c ∈ numeric_columns self)
            && negb (_is_empty (cell_value (row_get (columns df) r c)))
            && negb (_is_numeric_value
                       (cell_value (row_get (columns df) r c)))
         then [mkDefect i c type_inconsistent business]
         else []).
Proof.
  intros errs. subst errs. simpl. split.
  - intros e. rewrite <- type_pass_records.
    rewrite <- (scan_errors_pass self df schema_report 1 (type_pass self df))
      by done.
    split; intros [He Hty]; (split; [done |]).
    + by rewrite Hty.
    + by destruct (error_type e).
  - intros Hnd i r c Hr Hc. unfold records_at.
    rewrite filter_type_scan by (by intros e (_ & _ & ?)).
    unfold type_pass.
    rewrite (filter_cols _ _ _ c); [| by intros e (_ & ? & _) | | done].
    2:{ intros d e He. destruct (negb _); [by apply elem_of_nil in He |].
        apply elem_of_flat_map in He as ([j x] & _ & He). simpl in He.
        destruct (_is_empty _); [by apply elem_of_nil in He |].
        destruct (negb _); [| by apply elem_of_nil in He].
        apply list_elem_of_singleton in He. by subst. }
    destruct (decide (c ∈ numeric_columns self)) as [Hin | Hnin].
    2:{ by rewrite bool_decide_eq_false_2. }
    rewrite (bool_decide_eq_true_2 _ Hin). unfold has_column.
    rewrite bool_decide_eq_true_2 by done. simpl.
    rewrite (filter_rows _ _ _ 0 i); [| by intros e [? _] | | lia].
    2:{ intros j x e He. simpl in He.
        destruct (_is_empty _); [by apply elem_of_nil in He |].
        destruct (negb _); [| by apply elem_of_nil in He].
        apply list_elem_of_singleton in He. by subst. }
    rewrite Nat.sub_0_r, Hr. simpl.
    destruct (_is_empty _); simpl; [done |].
    destruct (_is_numeric_value _); simpl; [done |].
    by rewrite filter_cons_True.
Qed.

(** X2 at a sample: in [Score], the text cell [abc] of row 5 is flagged
    once, the number of row 0 and the empty cell of row 6 are not. *)
Lemma X2_type_records_witness :
  let errs := errors (scan (RT := Ref.runtime []) SampleOutlier.scanner
                        SampleOutlier.table SampleOutlier.report) in
  NoDup (numeric_columns SampleOutlier.scanner)
  ∧ records_at (λ e, error_type e = type_inconsistent) 5 "Score" errs
    = [mkDefect 5 "Score" type_inconsistent business]
  ∧ records_at (λ e, error_type e = type_inconsistent) 0 "Score" errs = []
  ∧ records_at (λ e, error_type e = type_inconsistent) 6 "Score" errs = [].
Proof.
  intros errs.
  assert (NoDup (numeric_columns SampleOutlier.scanner)) as Hnd
    by compute_done.
  assert ("Score" ∈ columns SampleOutlier.table) as Hc by compute_done.
  split; [exact Hnd |].
  destruct (X2_type_records (RT := Ref.runtime []) SampleOutlier.scanner
              SampleOutlier.table SampleOutlier.report) as [_ Hcell].
  subst errs.
  split; [| split].
  - rewrite (Hcell Hnd 5 [Some "abc"; None] "Score" eq_refl Hc).
    vm_compute. reflexivity.
  - rewrite (Hcell Hnd 0 [Some "10"; Some "1"] "Score" eq_refl Hc).
    vm_compute. reflexivity.
  - rewrite (Hcell Hnd 6 [None; None] "Score" eq_refl Hc).
    vm_compute. reflexivity.
Defined.

(** X3. Pattern check.  The [pattern_mismatch] records of a scan are the
    records, of severity [business], of the cells that are not empty and
    whose stripped text the compiled pattern of their column does not
    match, in the pattern columns the table has.  A column whose pattern
    does not compile ([re.error]) is skipped: it gets no record. *)
Theorem X3_pattern_records `{RT : Runtime} (self : DataHealthScanner)
    (df : DataFrame) (schema_report : Report) :
  let errs := errors (scan self df schema_report) in
  (∀ e, e ∈ errs ∧ error_type e = pattern_mismatch ↔
     ∃ i r c p search, rows df !! i = Some r
       ∧ (c, p) ∈ pattern_columns self ∧ c ∈ columns df
       ∧ re_compile p = Some search
       ∧ _is_empty (cell_value (row_get (columns df) r c)) = false
       ∧ search (Py.strip (py_str (cell_value (row_get (columns df) r c))))
         = false
       ∧ e = mkDefect i c pattern_mismatch business)
  ∧ (∀ c, (∀ p, (c, p) ∈ pattern_columns self → re_compile p = None) →
       ∀ e, e ∈ errs → error_type e = pattern_mismatch → col_name e ≠ c).
Proof.
  intros errs. subst errs. simpl.
  assert (∀ e, e ∈ scan_errors self df schema_report
               ∧ error_type e = pattern_mismatch
               ↔ e ∈ pattern_pass self df) as Hpass.
  { intros e.
    rewrite <- (scan_errors_pass self df schema_report 4
                  (pattern_pass self df)) by done.
    split; intros [He Hty]; (split; [done |]).
    - by rewrite Hty.
    - by destruct (error_type e). }
  split.
  - intros e. by rewrite <- pattern_pass_records.
  - intros c Hbad e He Hty Hc.
    pose proof (proj1 (Hpass e) (conj He Hty)) as Hin.
    apply pattern_pass_records in Hin
      as (i & r & c' & p & search & _ & Hcp & _ & Hp & _ & _ & ->).
    simpl in Hc. subst c'. rewrite (Hbad p Hcp) in Hp. discriminate.
Qed.

(** X4. Every record of a scan is about a row of the table, and a record
    of one of the kinds that concern a single cell (the two null kinds,
    [type_inconsistent], [outlier], [pattern_mismatch]) names a column of
    the table. *)
Theorem X4_records_located `{RT : Runtime} (self : DataHealthScanner)
    (df : DataFrame) (schema_report : Report) (e : Defect) :
  e ∈ errors (scan self df schema_report) →
  row_index e < nrows df
  ∧ (error_type e ∈ [null_structural; null_business; type_inconsistent;
                      outlier; pattern_mismatch] →
     col_name e ∈ columns df).
Proof.
  simpl. intros He. split; [by eapply scan_errors_row |].
  intros Hkind. revert He. unfold scan_errors. rewrite !elem_of_app.
  intros [He | [He | [He | [He | [He | He]]]]].
  - by apply null_pass_elem in He as (i & r & _ & ? & _).
  - by apply type_pass_records in He as (i & r & c & _ & _ & ? & _ & _ & ->).
  - apply dup_pass_elem in He as [Hty _]. rewrite Hty in Hkind.
    repeat (apply elem_of_cons in Hkind as [? | Hkind]; [done |]).
    by apply elem_of_nil in Hkind.
  - by apply outlier_pass_records in He
      as (i & r & c & f & _ & ? & _ & _ & _ & ->).
  - by apply pattern_pass_records in He
      as (i & r & c & p & s & _ & _ & ? & _ & _ & _ & ->).
  - apply constraint_pass_elem in He as [Hty _]. rewrite Hty in Hkind.
    repeat (apply elem_of_cons in Hkind as [? | Hkind]; [done |]).
    by apply elem_of_nil in Hkind.
Qed.

(** X4 at a sample: the record of the text cell of [Score]. *)
Lemma X4_records_located_witness :
  let e := mkDefect 5 "Score" type_inconsistent business in
  e ∈ errors (scan (RT := Ref.runtime []) SampleOutlier.scanner
                SampleOutlier.table SampleOutlier.report)
  ∧ row_index e < nrows SampleOutlier.table
  ∧ col_name e ∈ columns SampleOutlier.table.
Proof.
  intros e.
  assert (e ∈ errors (scan (RT := Ref.runtime []) SampleOutlier.scanner
                        SampleOutlier.table SampleOutlier.report)) as He
    by compute_done.
  split; [exact He |].
  destruct (X4_records_located (RT := Ref.runtime []) SampleOutlier.scanner
              SampleOutlier.table SampleOutlier.report e He) as [Hrow Hcol].
  split; [exact Hrow |]. apply Hcol. compute_done.
Defined.

(** What [_is_numeric_value] rejects, [_to_float] does not parse. *)
Lemma numeric_false_to_float `{RT : Runtime} (v : value) :
  _is_numeric_value v = false → _to_float v = None.
Proof.
  unfold _is_numeric_value, _to_float.
  destruct (_ || _); [done |].
  destruct (py_float (Py.strip (py_str v))); [done |].
  destruct (Py.endswith _ _); [| done].
  by destruct (py_float _).
Qed.

(** X5. An empty cell is reported as a null and as nothing else about the
    cell: no record of kind [type_inconsistent], [outlier] or
    [pattern_mismatch] shares the row and the column of a null record.
    Nor is a cell reported both as [type_inconsistent] and as [outlier]:
    the outlier check only looks at cells that [_to_float] parses, and
    those pass the type check. *)
Theorem X5_exclusive_kinds `{RT : Runtime} (self : DataHealthScanner)
    (df : DataFrame) (schema_report : Report) (e1 e2 : Defect) :
  e1 ∈ errors (scan self df schema_report) →
  e2 ∈ errors (scan self df schema_report) →
  row_index e1 = row_index e2 → col_name e1 = col_name e2 →
  (is_null e1 →
   error_type e2 ∉ [type_inconsistent; outlier; pattern_mismatch])
  ∧ (error_type e1 = type_inconsistent → error_type e2 ≠ outlier).
Proof.
  simpl. intros H1 H2 Hrow Hcol.
  assert (∀ e, e ∈ scan_errors self df schema_report →
    error_type e ∈ [type_inconsistent; outlier; pattern_mismatch] →
    ∃ r, rows df !! row_index e = Some r
      ∧ _is_empty (cell_value (row_get (columns df) r (col_name e)))
        = false) as Hfull.
  { intros e He Hk.
    revert He. unfold scan_errors. rewrite !elem_of_app.
    intros [He | [He | [He | [He | [He | He]]]]].
    - apply null_pass_is_null in He as [Hn | Hn]; rewrite Hn in Hk;
        repeat (apply elem_of_cons in Hk as [? | Hk]; [done |]);
        by apply elem_of_nil in Hk.
    - apply type_pass_records in He
        as (i & r & c & ? & _ & _ & ? & _ & ->). by exists r.
    - apply dup_pass_elem in He as [Hty _]. rewrite Hty in Hk.
      repeat (apply elem_of_cons in Hk as [? | Hk]; [done |]).
      by apply elem_of_nil in Hk.
    - apply outlier_pass_records in He
        as (i & r & c & f & ? & _ & _ & ? & _ & ->). by exists r.
    - apply pattern_pass_records in He
        as (i & r & c & p & s & ? & _ & _ & _ & ? & _ & ->). by exists r.
    - apply constraint_pass_elem in He as [Hty _]. rewrite Hty in Hk.
      repeat (apply elem_of_cons in Hk as [? | Hk]; [done |]).
      by apply elem_of_nil in Hk. }
  split.
  - intros Hnull Hk. destruct (Hfull e2 H2 Hk) as (r & Hr & Hemp).
    destruct (scan_errors_elem self df schema_report e1 H1)
      as [Hn | [_ Hother]]; [| by destruct (not_null_of_other e1 Hother)].
    apply null_pass_elem in Hn as (i & r' & Hr' & _ & Hemp' & He1).
    assert (row_index e1 = i) as Hi
      by (rewrite He1; by destruct (bool_decide _)).
    rewrite <- Hrow, Hi, Hr' in Hr. injection Hr as ->.
    rewrite <- Hcol in Hemp. congruence.
  - intros Hty1 Hty2.
    assert (e1 ∈ type_pass self df) as Ht.
    { apply (scan_errors_pass self df schema_report 1); [done |].
      by rewrite Hty1. }
    assert (e2 ∈ outlier_pass self df) as Ho.
    { apply (scan_errors_pass self df schema_report 3); [done |].
      by rewrite Hty2. }
    apply type_pass_records in Ht
      as (i & r & c & Hr & _ & _ & _ & Hnum & ->).
    apply outlier_pass_records in Ho
      as (i' & r' & c' & f & Hr' & _ & _ & _ & Hf & ->).
    simpl in Hrow, Hcol. subst i' c'.
    rewrite Hr in Hr'. injection Hr' as <-.
    apply numeric_false_to_float in Hnum. congruence.
Qed.

(** X5 at a sample: the empty cell of [Score] in row 6 has a null record,
    and the text cell of row 5 a type record; neither has an outlier
    record beside it. *)
Lemma X5_exclusive_kinds_witness :
  let errs := errors (scan (RT := Ref.runtime []) SampleOutlier.scanner
                        SampleOutlier.table SampleOutlier.report) in
  let e1 := mkDefect 6 "Score" null_business business in
  let e2 := mkDefect 5 "Score" type_inconsistent business in
  e1 ∈ errs ∧ e2 ∈ errs
  ∧ (∀ e, e ∈ errs → row_index e = 6 → col_name e = "Score" →
       error_type e ∉ [type_inconsistent; outlier; pattern_mismatch])
  ∧ (∀ e, e ∈ errs → row_index e = 5 → col_name e = "Score" →
       error_type e ≠ outlier).
Proof.
  intros errs e1 e2.
  assert (e1 ∈ errs) as H1 by compute_done.
  assert (e2 ∈ errs) as H2 by compute_done.
  split; [exact H1 |]. split; [exact H2 |]. split.
  - intros e He Hrow Hcol.
    assert (row_index e1 = row_index e) as Hr by (by rewrite Hrow).
    assert (col_name e1 = col_name e) as Hc by (by rewrite Hcol).
    pose proof (X5_exclusive_kinds (RT := Ref.runtime [])
                  SampleOutlier.scanner SampleOutlier.table
                  SampleOutlier.report e1 e H1 He Hr Hc) as [Hnull _].
    apply Hnull. by right.
  - intros e He Hrow Hcol.
    assert (row_index e2 = row_index e) as Hr by (by rewrite Hrow).
    assert (col_name e2 = col_name e) as Hc by (by rewrite Hcol).
    pose proof (X5_exclusive_kinds (RT := Ref.runtime [])
                  SampleOutlier.scanner SampleOutlier.table
                  SampleOutlier.report e2 e H2 He Hr Hc) as [_ Hty].
    by apply Hty.
Defined.



(** A comparison the code does not know is taken to hold. *)
Lemma eval_constraint_unknown `{RT : Runtime} lv op rv :
  op ∉ [">"; "<"; ">="; "<="; "=="] → _eval_constraint lv op rv = true.
Proof.
  intros Hop. unfold _eval_constraint. destruct lv, rv; try done.
  repeat (destruct (decide _) as [-> | _];
            [destruct Hop; repeat constructor |]).
  done.
Qed.

(** X7. A constraint is silently ignored when its operator is none of
    [>], [<], [>=], [<=], [==], when it lacks its left or right column, or
    when it names a column the table does not have: a scanner all of whose
    constraints are of this sort reports no [constraint_violation]. *)
Theorem X7_constraint_ignored `{RT : Runtime} (self : DataHealthScanner)
    (df : DataFrame) (schema_report : Report) :
  (∀ c, c ∈ constraints self →
     default ">" (c_op c) ∉ [">"; "<"; ">="; "<="; "=="]
     ∨ falsy (c_left c) = true ∨ falsy (c_right c) = true
     ∨ (∃ l, c_left c = Some l ∧ l ∉ columns df)
     ∨ (∃ r, c_right c = Some r ∧ r ∉ columns df)) →
  ∀ e, e ∈ errors (scan self df schema_report) →
    error_type e ≠ constraint_violation.
Proof.
  simpl. intros Hcs e He Hty.
  assert (e ∈ constraint_pass self df) as Hin.
  { apply (scan_errors_pass self df schema_report 5); [done |].
    by rewrite Hty. }
  unfold constraint_pass in Hin.
  apply elem_of_flat_map in Hin as (c & Hc & Hin).
  unfold constraint_check, has_column in Hin.
  destruct (c_left c) as [l |] eqn:Hl; [| by apply elem_of_nil in Hin].
  destruct (c_right c) as [r |] eqn:Hr; [| by apply elem_of_nil in Hin].
  destruct (Hcs c Hc) as [Hop | [Hf | [Hf | [(l' & Hl' & Hnin)
                                             | (r' & Hr' & Hnin)]]]].
  - destruct (_ || _); [by apply elem_of_nil in Hin |].
    apply elem_of_flat_map in Hin as ([i row] & _ & Hin). simpl in Hin.
    rewrite (eval_constraint_unknown _ _ _ Hop) in Hin.
    by apply elem_of_nil in Hin.
  - rewrite Hl in Hf. rewrite Hf in Hin. by apply elem_of_nil in Hin.
  - rewrite Hr in Hf. rewrite Hf, orb_true_r in Hin.
    by apply elem_of_nil in Hin.
  - rewrite Hl in Hl'. injection Hl' as <-.
    rewrite (bool_decide_eq_false_2 (l ∈ columns df)) in Hin by done.
    simpl in Hin. rewrite orb_true_r in Hin. by apply elem_of_nil in Hin.
  - rewrite Hr in Hr'. injection Hr' as <-.
    rewrite (bool_decide_eq_false_2 (r ∈ columns df)) in Hin by done.
    simpl in Hin. rewrite orb_true_r in Hin. by apply elem_of_nil in Hin.
Qed.

(** X7 at a sample: [High != Low] is not an operator of the scanner, and
    the rows where the two columns are equal, or differ, yield nothing. *)
Lemma X7_constraint_ignored_witness :
  let self :=
    mkScanner ["Low"] ["Low"] [] []
      [mkConstraint (Some "High") (Some "!=") (Some "Low")] in
  Forall (λ c, default ">" (c_op c) ∉ [">"; "<"; ">="; "<="; "=="])
    (constraints self)
  ∧ Forall (λ e, error_type e ≠ constraint_violation)
      (errors (scan (RT := Ref.runtime []) self SampleConstraint.table
                 SampleConstraint.report)).
Proof.
  intros self.
  assert (Forall (λ c, default ">" (c_op c) ∉ [">"; "<"; ">="; "<="; "=="])
            (constraints self)) as Hops.
  { apply Forall_cons. split; [compute_done | constructor]. }
  split; [exact Hops |]. apply Forall_forall.
  apply (X7_constraint_ignored (RT := Ref.runtime []) self).
  intros c Hc. left. revert c Hc. by apply Forall_forall.
Defined.

(** The loop over the rows flags a row per repeated key: the flagged rows
    and the distinct keys add up to the rows. *)
Lemma dup_from_count (df : DataFrame) (key_cols : list string) (i : nat)
    (rs : list (list cell)) (seen : gset (list string)) :
  length (dup_from df key_cols i rs seen)
  + size (list_to_set (row_key df key_cols <$> rs) ∪ seen)
  = length rs + size seen.
Proof.
  revert i seen. induction rs as [|r rs IH]; intros i seen.
  - simpl. f_equal. apply set_eq. intros x.
    rewrite elem_of_union, elem_of_empty. tauto.
  - rewrite fmap_cons, list_to_set_cons. cbn [dup_from length].
    destruct (decide (row_key df key_cols r ∈ seen)) as [Hin | Hnin].
    + rewrite bool_decide_eq_true_2 by done. cbn [length].
      specialize (IH (S i) seen).
      assert ({[row_key df key_cols r]}
              ∪ list_to_set (row_key df key_cols <$> rs) ∪ seen
              = list_to_set (row_key df key_cols <$> rs) ∪ seen
              :> gset (list string)) as ->; [| lia].
      apply set_eq. intros x.
      rewrite !elem_of_union, elem_of_singleton.
      split; [intros [[-> | ?] | ?]; tauto | tauto].
    + rewrite bool_decide_eq_false_2 by done.
      specialize (IH (S i) ({[row_key df key_cols r]} ∪ seen)).
      rewrite (size_union {[row_key df key_cols r]} seen) in IH
        by (by apply disjoint_singleton_l).
      rewrite size_singleton in IH.
      assert ({[row_key df key_cols r]}
              ∪ list_to_set (row_key df key_cols <$> rs) ∪ seen
              = list_to_set (row_key df key_cols <$> rs)
                ∪ ({[row_key df key_cols r]} ∪ seen)
              :> gset (list string)) as ->; [| lia].
      apply set_eq. intros x.
      rewrite !elem_of_union, elem_of_singleton. tauto.
Qed.

(** X8. When the table has one of the configured key columns, the number
    of [duplicate] records and the number of distinct keys of the table add
    up to its number of rows: the rows that are not flagged carry each key
    once. *)
Theorem X8_duplicate_count `{RT : Runtime} (self : DataHealthScanner)
    (df : DataFrame) (schema_report : Report) :
  keys_in_table self df ≠ [] →
  duplicates (counts (scan self df schema_report))
  + size (list_to_set (row_key df (keys_in_table self df) <$> rows df)
          : gset (list string))
  = nrows df.
Proof.
  intros Hkeys. simpl. unfold count_type.
  rewrite (filter_dup_scan self df schema_report) by done.
  rewrite filter_all by (by intros e [? _]%dup_pass_elem).
  unfold dup_pass. fold (keys_in_table self df).
  destruct (keys_in_table self df) as [|k ks] eqn:Hk; [done |].
  pose proof (dup_from_count df (k :: ks) 0 (rows df) ∅) as Hcount.
  rewrite size_empty, (right_id_L ∅ (∪)) in Hcount. unfold nrows. lia.
Qed.

(** X8 at a sample: two rows with the same name, one flagged, one key. *)
Lemma X8_duplicate_count_witness :
  keys_in_table SampleDup.with_key SampleDup.table ≠ []
  ∧ duplicates (counts (scan (RT := Ref.runtime []) SampleDup.with_key
                          SampleDup.table SampleDup.report)) = 1
  ∧ nrows SampleDup.table = 2.
Proof.
  assert (keys_in_table SampleDup.with_key SampleDup.table ≠ []) as Hk
    by compute_done.
  split; [exact Hk |].
  pose proof (X8_duplicate_count (RT := Ref.runtime []) SampleDup.with_key
                SampleDup.table SampleDup.report Hk) as Hsum.
  assert (size (list_to_set
                  (row_key SampleDup.table
                     (keys_in_table SampleDup.with_key SampleDup.table)
                   <$> rows SampleDup.table) : gset (list string)) = 1)
    as Hsize by (vm_compute; reflexivity).
  rewrite Hsize in Hsum. split; [| reflexivity]. unfold nrows in Hsum.
  simpl length in Hsum. lia.
Defined.

(** * Further properties of the merge *)

(** ** A run of the loop over the files *)

Lemma untouched_refl r : untouched r r.
Proof. by repeat split. Qed.

Lemma untouched_trans r1 r2 r3 :
  untouched r1 r2 → untouched r2 r3 → untouched r1 r3.
Proof.
  unfold untouched. intros (? & ? & ? & ? & ?) (? & ? & ? & ? & ?).
  repeat split; congruence.
Qed.

Lemma fatal_entries_app es es' :
  fatal_entries (es ++ es') = fatal_entries es + fatal_entries es'.
Proof. unfold fatal_entries. by rewrite filter_app, length_app. Qed.

Section LoopRun.
Context `{RT : Runtime}.
Variable key_cols : list string.
Variable template_incremental : bool.

(** A file that cannot be read: one entry more, and nothing else. *)
Lemma loop_body_unreadable i fp st e :
  _read_table fp = inl e →
  ∃ t, loop_body key_cols template_incremental i fp st
       = Continue (mkLoop (append_entry t (l_report st)) (l_merged st)
                     (l_fatal st) (l_cols st))
    ∧ status t = st_read_error ∧ match_rate t = None
    ∧ ∀ cols, described cols i fp t.
Proof.
  intros Hread. unfold loop_body. rewrite Hread. eexists.
  split; [done |]. split; [done |]. split; [done |].
  intros cols. unfold described. rewrite Hread. by repeat split.
Qed.

(** A later file, under the baseline [cols]. *)
Lemma loop_body_later_run i fp st cols :
  l_cols st = Some cols →
  ∃ t, loop_body key_cols template_incremental (S i) fp st
       = Continue (mkLoop (append_entry t (l_report st))
                     (l_merged st
                      ++ option_list (kept_of key_cols template_incremental
                                        cols (S i) fp))
                     (l_fatal st + fatal_entries [t]) (Some cols))
    ∧ described cols (S i) fp t ∧ match_rate t = None.
Proof.
  intros Hcols.
  destruct (_read_table fp) as [e | df] eqn:Hread.
  { destruct (loop_body_unreadable (S i) fp st e Hread)
      as (t & Hbody & Hst & Hrate & Hdesc).
    exists t. unfold kept_of, fatal_entries. rewrite Hread, Hbody, Hcols.
    rewrite filter_cons_False by (rewrite Hst; done). simpl.
    by rewrite app_nil_r, Nat.add_0_r. }
  unfold loop_body, kept_of, described. rewrite Hread, Hcols.
  pose proof (stripped_shape key_cols df) as [Hn Hc]. rewrite Hn, Hc.
  destruct (decide (mismatched cols (S i) df)) as [[_ Hmis] | Hok].
  - rewrite bool_decide_eq_true_2 by done.
    exists (with_columns (nrows df) cols (columns df) st_fatal_mismatch
              (Some "与基准表列名无交集，已跳过该表")
              (new_entry (path_name fp))).
    split; [| by repeat split].
    unfold fatal_entries. rewrite filter_cons_True by done. simpl.
    by rewrite app_nil_r, Nat.add_1_r.
  - rewrite bool_decide_eq_false_2.
    2:{ intros Hmis. apply Hok. by split. }
    exists (with_columns (nrows df)
              (filter (λ c, c ∉ columns df) cols)
              (filter (λ c, c ∉ cols) (columns df)) st_ok None
              (new_entry (path_name fp))).
    split; [| by repeat split].
    unfold fatal_entries. rewrite filter_cons_False by done. simpl.
    by rewrite Nat.add_0_r.
Qed.

Lemma kept_frames_cons cols i fp fps :
  kept_frames key_cols template_incremental cols i (fp :: fps)
  = option_list (kept_of key_cols template_incremental cols i fp)
    ++ kept_frames key_cols template_incremental cols (S i) fps.
Proof.
  unfold kept_frames. simpl.
  by destruct (kept_of key_cols template_incremental cols i fp).
Qed.

Lemma describe_all_cons cols i fp fps t es :
  described cols i fp t → match_rate t = None →
  describe_all cols (S i) fps es →
  describe_all cols i (fp :: fps) (t :: es).
Proof.
  intros Ht Hrate [Hlen Hes]. split; [simpl; lia |].
  intros [|j] fp' Hj; simpl in Hj.
  - injection Hj as <-. exists t. by rewrite Nat.add_0_r.
  - destruct (Hes j fp' Hj) as (t' & Ht' & Hd & Hr). exists t'.
    by rewrite Nat.add_succ_r.
Qed.

(** The later files, under the baseline [cols]: the loop goes through
    them all. *)
Lemma merge_loop_later_run fps : ∀ i st cols,
  l_cols st = Some cols →
  ∃ st' es,
    merge_loop key_cols template_incremental (S i) fps st = inl st'
    ∧ l_cols st' = Some cols
    ∧ untouched (l_report st) (l_report st')
    ∧ reference_columns (l_report st') = reference_columns (l_report st)
    ∧ l_merged st'
      = l_merged st
        ++ kept_frames key_cols template_incremental cols (S i) fps
    ∧ tables (l_report st') = tables (l_report st) ++ es
    ∧ describe_all cols (S i) fps es
    ∧ l_fatal st' = l_fatal st + fatal_entries es.
Proof.
  induction fps as [|fp fps IH]; intros i st cols Hcols.
  - exists st, []. simpl. rewrite !app_nil_r, Nat.add_0_r.
    repeat split; try done; intros j fp Hj; done.
  - destruct (loop_body_later_run i fp st cols Hcols)
      as (t & Hbody & Hdesc & Hrate).
    set (st1 := mkLoop (append_entry t (l_report st))
                  (l_merged st
                   ++ option_list (kept_of key_cols template_incremental
                                     cols (S i) fp))
                  (l_fatal st + fatal_entries [t]) (Some cols)) in Hbody.
    destruct (IH (S i) st1 cols eq_refl)
      as (st' & es & Hloop & Hc & Hu & Href & Hm & Ht & Hes & Hf).
    exists st', (t :: es). cbn [merge_loop]. rewrite Hbody.
    split; [done |]. split; [done |]. split; [done |].
    split; [done |]. split.
    { rewrite Hm, kept_frames_cons. simpl. by rewrite app_assoc. }
    split; [rewrite Ht; simpl; by rewrite <- app_assoc |].
    split; [by apply describe_all_cons |].
    rewrite Hf. change (t :: es) with ([t] ++ es).
    rewrite fatal_entries_app. simpl. lia.
Qed.

(** The later files when there is no baseline: the loop goes through them
    if none can be read, and fails at the first that can. *)
Lemma merge_loop_none_run fps : ∀ i st,
  l_cols st = None →
  if decide (Exists readable fps)
  then merge_loop key_cols template_incremental (S i) fps st
       = inr (Raised "TypeError: 'NoneType' object is not iterable")
  else ∃ st' es,
    merge_loop key_cols template_incremental (S i) fps st = inl st'
    ∧ l_cols st' = None
    ∧ untouched (l_report st) (l_report st')
    ∧ reference_columns (l_report st') = reference_columns (l_report st)
    ∧ l_merged st' = l_merged st
    ∧ tables (l_report st') = tables (l_report st) ++ es
    ∧ (∀ cols, describe_all cols (S i) fps es)
    ∧ fatal_entries es = 0
    ∧ l_fatal st' = l_fatal st.
Proof.
  induction fps as [|fp fps IH]; intros i st Hcols.
  - rewrite decide_False by (by intros ?%Exists_nil).
    exists st, []. simpl. rewrite app_nil_r.
    repeat split; try done; intros j fp Hj; done.
  - destruct (_read_table fp) as [e | df] eqn:Hread.
    + destruct (loop_body_unreadable (S i) fp st e Hread)
        as (t & Hbody & Hst & Hrate & Hdesc).
      specialize (IH (S i) (mkLoop (append_entry t (l_report st))
                              (l_merged st) (l_fatal st) (l_cols st)) Hcols).
      assert (¬ readable fp) as Hnot
        by (intros [df Hdf]; congruence).
      destruct (decide (Exists readable fps)) as [Hex | Hall].
      * rewrite decide_True by (by right). simpl. by rewrite Hbody.
      * rewrite decide_False by (by intros [? | ?]%Exists_cons).
        destruct IH as (st' & es & Hloop & Hc & Hu & Href & Hm & Ht & Hes
                        & Hf0 & Hf).
        exists st', (t :: es). simpl in *. rewrite Hbody.
        split; [done |]. split; [done |]. split; [done |].
        split; [done |]. split; [done |].
        split; [by rewrite Ht, <- app_assoc |].
        split; [intros cols; by apply describe_all_cons |].
        split; [| done].
        change (t :: es) with ([t] ++ es).
        rewrite fatal_entries_app, Hf0. unfold fatal_entries.
        by rewrite filter_cons_False by (rewrite Hst; done).
    + rewrite decide_True by (left; by exists df).
      simpl. unfold loop_body. by rewrite Hread, Hcols.
Qed.

End LoopRun.

Section MergeRun.
Context `{RT : Runtime}.
Variable baseline_columns : option (list string).
Variable template_incremental : bool.
Variable primary_key_columns : option (list string).

Lemma merge_and_report_unfold fp0 rest :
  merge_and_report (fp0 :: rest) baseline_columns template_incremental
    primary_key_columns
  = match merge_loop (default [] primary_key_columns) template_incremental 0
            (fp0 :: rest)
            (mkLoop (start_report fp0) [] 0
               (given_columns (fp0 :: rest) baseline_columns
                  template_incremental)) with
    | inr o => o
    | inl st => finish (default [] primary_key_columns) st
    end.
Proof. reflexivity. Qed.

(** File 0 is read and has a label twice: the merge stops there. *)
Lemma merge_loop_duplicates key_cols fp0 rest given df0 :
  _read_table fp0 = inr df0 → has_duplicates (columns df0) = true →
  merge_loop key_cols template_incremental 0 (fp0 :: rest)
    (mkLoop (start_report fp0) [] 0 given)
  = inr (Returned empty_frame
           (set_reference_columns (columns df0)
              (set_error "基准表存在重复列名，无法合并" (start_report fp0)))).
Proof.
  intros Hread Hdup. simpl. unfold loop_body. rewrite Hread.
  pose proof (stripped_shape key_cols df0) as [_ Hc]. rewrite Hc, Hdup.
  done.
Qed.

(** File 0 is read and its labels are distinct: the loop goes through all
    the files under the baseline in use. *)
Lemma merge_loop_readable key_cols fp0 rest df0 :
  _read_table fp0 = inr df0 → has_duplicates (columns df0) = false →
  let cols := baseline_in_use (fp0 :: rest) baseline_columns
                template_incremental in
  ∃ st,
    merge_loop key_cols template_incremental 0 (fp0 :: rest)
      (mkLoop (start_report fp0) [] 0
         (given_columns (fp0 :: rest) baseline_columns template_incremental))
    = inl st
    ∧ run_facts key_cols template_incremental (fp0 :: rest) cols
        (start_report fp0) st
    ∧ reference_columns (l_report st) = cols.
Proof.
  intros Hread Hdup cols.
  set (given := given_columns (fp0 :: rest) baseline_columns
                  template_incremental).
  assert (cols = match given with
                 | None | Some [] => columns df0
                 | Some c => c
                 end) as Hcols.
  { unfold cols, baseline_in_use. fold given. rewrite Hread.
    by destruct given as [[|c cs] |]. }
  pose proof (stripped_shape key_cols df0) as [Hn Hc].
  set (t := with_columns (nrows df0)
              (filter (λ c, c ∉ columns df0) cols)
              (filter (λ c, c ∉ cols) (columns df0)) st_ok None
              (new_entry (path_name fp0))).
  set (st1 := mkLoop
                (append_entry t
                   (set_reference_columns cols (start_report fp0)))
                [kept_frame key_cols template_incremental cols 0 df0] 0
                (Some cols)).
  assert (loop_body key_cols template_incremental 0 fp0
            (mkLoop (start_report fp0) [] 0 given) = Continue st1) as Hbody.
  { unfold loop_body. rewrite Hread, Hn, Hc, Hdup. cbn [l_cols l_merged].
    rewrite <- Hcols. unfold st1, kept_frame. simpl.
    by destruct key_cols. }
  destruct (merge_loop_later_run key_cols template_incremental rest 0 st1
              cols eq_refl)
    as (st & es & Hloop & _ & Hu & Href & Hm & Ht & Hes & Hf).
  exists st. cbn [merge_loop]. rewrite Hbody. split; [done |].
  assert (described cols 0 fp0 t) as Hdesc.
  { unfold described. rewrite Hread.
    rewrite decide_False by (by intros [? _]). by repeat split. }
  split; [| done]. unfold run_facts. split; [done |]. split.
  { rewrite Hm, kept_frames_cons. unfold kept_of. rewrite Hread.
    by rewrite decide_False by (by intros [? _]). }
  rewrite Ht. simpl. split; [by apply describe_all_cons |].
  rewrite Hf. simpl. change (t :: es) with ([t] ++ es).
  by rewrite fatal_entries_app.
Qed.

(** File 0 cannot be read and there are columns given: the loop goes
    through all the files under them, and the report has no baseline. *)
Lemma merge_loop_unreadable key_cols fp0 rest e given :
  _read_table fp0 = inl e →
  given_columns (fp0 :: rest) baseline_columns template_incremental
  = Some given →
  let cols := baseline_in_use (fp0 :: rest) baseline_columns
                template_incremental in
  ∃ st,
    merge_loop key_cols template_incremental 0 (fp0 :: rest)
      (mkLoop (start_report fp0) [] 0 (Some given))
    = inl st
    ∧ run_facts key_cols template_incremental (fp0 :: rest) cols
        (start_report fp0) st
    ∧ reference_columns (l_report st) = [].
Proof.
  intros Hread Hgiven cols.
  assert (cols = given) as ->.
  { unfold cols, baseline_in_use. rewrite Hgiven, Hread.
    by destruct given. }
  destruct (loop_body_unreadable key_cols template_incremental 0 fp0
              (mkLoop (start_report fp0) [] 0 (Some given)) e Hread)
    as (t & Hbody & Hst & Hrate & Hdesc).
  simpl in Hbody.
  set (st1 := mkLoop (append_entry t (start_report fp0)) [] 0 (Some given))
    in Hbody.
  destruct (merge_loop_later_run key_cols template_incremental rest 0 st1
              given eq_refl)
    as (st & es & Hloop & _ & Hu & Href & Hm & Ht & Hes & Hf).
  exists st. cbn [merge_loop]. rewrite Hbody. split; [done |].
  split; [| done]. unfold run_facts. split; [done |]. split.
  { rewrite Hm, kept_frames_cons. unfold kept_of. by rewrite Hread. }
  rewrite Ht. simpl. split; [by apply describe_all_cons |].
  rewrite Hf. simpl. change (t :: es) with ([t] ++ es).
  rewrite fatal_entries_app. unfold fatal_entries at 2.
  by rewrite filter_cons_False by (rewrite Hst; done).
Qed.

(** File 0 cannot be read and no column is given: the loop goes through
    the files when none can be read, and fails otherwise. *)
Lemma merge_loop_no_baseline key_cols fp0 rest e :
  _read_table fp0 = inl e →
  given_columns (fp0 :: rest) baseline_columns template_incremental = None →
  if decide (Exists readable rest)
  then merge_loop key_cols template_incremental 0 (fp0 :: rest)
         (mkLoop (start_report fp0) [] 0 None)
       = inr (Raised "TypeError: 'NoneType' object is not iterable")
  else ∃ st,
    merge_loop key_cols template_incremental 0 (fp0 :: rest)
      (mkLoop (start_report fp0) [] 0 None)
    = inl st
    ∧ run_facts key_cols template_incremental (fp0 :: rest)
        (baseline_in_use (fp0 :: rest) baseline_columns
           template_incremental) (start_report fp0) st
    ∧ reference_columns (l_report st) = [].
Proof.
  intros Hread Hgiven.
  destruct (loop_body_unreadable key_cols template_incremental 0 fp0
              (mkLoop (start_report fp0) [] 0 None) e Hread)
    as (t & Hbody & Hst & Hrate & Hdesc).
  simpl in Hbody.
  set (st1 := mkLoop (append_entry t (start_report fp0)) [] 0 None)
    in Hbody.
  pose proof (merge_loop_none_run key_cols template_incremental rest 0 st1
                eq_refl) as Hrun.
  destruct (decide (Exists readable rest)) as [Hex | Hall].
  { cbn [merge_loop]. by rewrite Hbody. }
  destruct Hrun as (st & es & Hloop & _ & Hu & Href & Hm & Ht & Hes & Hf0
                    & Hf).
  exists st. cbn [merge_loop]. rewrite Hbody. split; [done |].
  split; [| done]. unfold run_facts. split; [done |]. split.
  { rewrite Hm, kept_frames_cons. unfold kept_of. rewrite Hread. simpl.
    unfold kept_frames.
    generalize (baseline_in_use (fp0 :: rest) baseline_columns
                  template_incremental).
    intros cols. clear -Hall. revert Hall. generalize 1.
    induction rest as [|fp fps IH]; intros n Hall; [done |].
    simpl. unfold kept_of at 1. simpl.
    destruct (_read_table fp) as [e | df] eqn:Hfp.
    - apply IH. intros Hex. apply Hall. by right.
    - destruct Hall. left. by exists df. }
  rewrite Ht. simpl. split; [by apply describe_all_cons |].
  rewrite Hf. simpl. change (t :: es) with ([t] ++ es).
  rewrite fatal_entries_app, Hf0. unfold fatal_entries.
  by rewrite filter_cons_False by (rewrite Hst; done).
Qed.

End MergeRun.

(** ** The report after the joins *)

Lemma up_to_rate_trans t1 t2 t3 :
  up_to_rate t1 t2 → up_to_rate t2 t3 → up_to_rate t1 t3.
Proof.
  intros [-> | [r ->]] [-> | [r' ->]]; [by left | right; by exists r'
                                       | right; by exists r |].
  right. by exists r'.
Qed.

Lemma up_to_rate_alter r idx ts :
  Forall2 up_to_rate ts (alter (set_match_rate r) idx ts).
Proof.
  revert idx. induction ts as [|t ts IH]; intros [|idx]; simpl;
    constructor; try apply IH.
  - right. by exists r.
  - clear. induction ts; constructor; [by left | done].
  - by left.
Qed.

Lemma Forall2_up_to_rate_refl ts : Forall2 up_to_rate ts ts.
Proof. induction ts; constructor; [by left | done]. Qed.

Lemma Forall2_up_to_rate_trans ts1 ts2 ts3 :
  Forall2 up_to_rate ts1 ts2 → Forall2 up_to_rate ts2 ts3 →
  Forall2 up_to_rate ts1 ts3.
Proof.
  intros H12. revert ts3. induction H12 as [|t1 t2 l1 l2 Ht _ IH];
    intros ts3 H23; inversion H23; subst; constructor.
  - by eapply up_to_rate_trans.
  - by apply IH.
Qed.

Section JoinEntries.
Context `{RT : Runtime}.

Lemma join_body_up_to_rate first kcu idx right_df acc :
  Forall2 up_to_rate (tables acc.2)
    (tables (join_body first kcu idx right_df acc).2).
Proof.
  destruct acc as [lf rep]. unfold join_body.
  destruct (merge_on_of kcu lf right_df) as [|k ks];
    [apply Forall2_up_to_rate_refl |].
  cbn zeta.
  match goal with
  | |- context [if ?b then _ else _] => destruct b
  end; simpl; apply up_to_rate_alter.
Qed.

Lemma join_loop_up_to_rate first kcu rights : ∀ idx acc,
  Forall2 up_to_rate (tables acc.2)
    (tables (join_loop first kcu idx rights acc).2).
Proof.
  induction rights as [|r rs IH]; intros idx acc; simpl;
    [apply Forall2_up_to_rate_refl |].
  eapply Forall2_up_to_rate_trans; [apply join_body_up_to_rate | apply IH].
Qed.

Lemma combine_up_to_rate key_cols merged report result report' :
  combine key_cols merged report = (result, report') →
  Forall2 up_to_rate (tables report) (tables report').
Proof.
  unfold combine. destruct key_cols as [|k ks].
  { intros [= <- <-]. apply Forall2_up_to_rate_refl. }
  destruct merged as [|first rights].
  { intros [= <- <-]. apply Forall2_up_to_rate_refl. }
  destruct (filter _ (k :: ks)) as [|c cs].
  { intros [= <- <-]. apply Forall2_up_to_rate_refl. }
  pose proof (join_loop_up_to_rate first (c :: cs) rights 1 (first, report))
    as Hrate.
  destruct (join_loop _ _ _ _ _) as [lf rep1]. by intros [= <- <-].
Qed.

Lemma described_up_to_rate cols i fp t t' :
  up_to_rate t t' → described cols i fp t → described cols i fp t'.
Proof. by intros [-> | [r ->]]. Qed.

Lemma fatal_entries_up_to_rate ts ts' :
  Forall2 up_to_rate ts ts' → fatal_entries ts' = fatal_entries ts.
Proof.
  unfold fatal_entries. induction 1 as [|t t' l l' Ht _ IH]; [done |].
  assert (status t' = status t) as Hst by (by destruct Ht as [-> | [r ->]]).
  destruct (decide (status t = st_fatal_mismatch)).
  - rewrite !filter_cons_True by congruence. simpl. by rewrite IH.
  - rewrite !filter_cons_False by congruence. done.
Qed.

(** What the end of the function makes of the state the loop leaves. *)
Lemma finish_facts key_cols st df rep :
  finish key_cols st = Returned df rep →
  error rep = error (l_report st)
  ∧ reference_columns rep = reference_columns (l_report st)
  ∧ reference_file rep = reference_file (l_report st)
  ∧ fatal_mismatch_count rep = l_fatal st
  ∧ merged_row_count rep = nrows df
  ∧ Forall2 up_to_rate (tables (l_report st)) (tables rep)
  ∧ match l_merged st with
    | [] => df = empty_frame
    | _ :: _ =>
        ∃ rep', combine key_cols (l_merged st)
                  (set_fatal_mismatch_count (l_fatal st) (l_report st))
                = (df, rep')
    end.
Proof.
  unfold finish. destruct (l_merged st) as [|first rights] eqn:Hm.
  { intros [= <- <-]. simpl. repeat split.
    apply Forall2_up_to_rate_refl. }
  destruct (combine _ _ _) as [result report'] eqn:Hcomb.
  intros [= <- <-]. simpl.
  pose proof (combine_up_to_rate _ _ _ _ _ Hcomb) as Hrate.
  destruct (combine_rows _ _ _ _ _ _ Hcomb) as (He & Hr & Hf & _).
  assert (reference_file report' = reference_file (l_report st)) as Hfile.
  { revert Hcomb. unfold combine. destruct key_cols as [|k ks];
      [by intros [= _ <-] |].
    destruct (filter _ (k :: ks)) as [|c cs]; [by intros [= _ <-] |].
    pose proof (join_loop_keeps first (c :: cs) 1 rights
                  (first, set_fatal_mismatch_count (l_fatal st)
                            (l_report st))) as Hkeep.
    destruct (join_loop _ _ _ _ _) as [lf rep1].
    intros [= _ <-]. by destruct Hkeep as (_ & _ & _ & ? & _). }
  repeat split; try done. by exists report'.
Qed.

End JoinEntries.

(** ** The outcomes of a merge *)

Section Outcomes.
Context `{RT : Runtime}.
Variable file_paths : list string.
Variable baseline_columns : option (list string).
Variable template_incremental : bool.
Variable primary_key_columns : option (list string).

(** The four ways a merge ends: on an empty list, on a first file with a
    label twice, on the exception of a missing baseline, or after the loop
    has gone through all the files. *)
Lemma merge_and_report_cases :
  let merge := merge_and_report file_paths baseline_columns
                 template_incremental primary_key_columns in
  let key_cols := default [] primary_key_columns in
  let cols := baseline_in_use file_paths baseline_columns
                template_incremental in
  let given := given_columns file_paths baseline_columns
                 template_incremental in
  match file_paths with
  | [] =>
      merge = Returned empty_frame
                (mkReport (Some "file_paths 为空") "" [] [] 0 0 None)
  | fp0 :: rest =>
      match _read_table fp0 with
      | inr df0 =>
          if has_duplicates (columns df0)
          then merge
               = Returned empty_frame
                   (set_reference_columns (columns df0)
                      (set_error "基准表存在重复列名，无法合并"
                         (start_report fp0)))
          else ∃ st,
            run_facts key_cols template_incremental file_paths cols
              (start_report fp0) st
            ∧ reference_columns (l_report st) = cols
            ∧ merge = finish key_cols st
      | inl _ =>
          if decide (given = None ∧ Exists readable rest)
          then merge = Raised "TypeError: 'NoneType' object is not iterable"
          else ∃ st,
            run_facts key_cols template_incremental file_paths cols
              (start_report fp0) st
            ∧ reference_columns (l_report st) = []
            ∧ merge = finish key_cols st
      end
  end.
Proof.
  intros merge key_cols cols given. subst merge.
  destruct file_paths as [|fp0 rest] eqn:Hfps; [done |].
  rewrite merge_and_report_unfold. fold key_cols. fold given.
  destruct (_read_table fp0) as [e | df0] eqn:Hread.
  - destruct given as [g |] eqn:Hgiven.
    + rewrite decide_False by (by intros [? _]).
      destruct (merge_loop_unreadable baseline_columns template_incremental
                  key_cols fp0 rest e g Hread Hgiven)
        as (st & Hloop & Hfacts & Href).
      exists st. by rewrite Hloop.
    + pose proof (merge_loop_no_baseline baseline_columns
                    template_incremental key_cols fp0 rest e Hread Hgiven)
        as Hrun.
      destruct (decide (Exists readable rest)) as [Hex | Hall].
      * rewrite decide_True by done. by rewrite Hrun.
      * rewrite decide_False by (by intros [_ ?]).
        destruct Hrun as (st & Hloop & Hfacts & Href).
        exists st. by rewrite Hloop.
  - destruct (has_duplicates (columns df0)) eqn:Hdup.
    + by rewrite (merge_loop_duplicates template_incremental key_cols fp0
                    rest given df0 Hread Hdup).
    + destruct (merge_loop_readable baseline_columns template_incremental
                  key_cols fp0 rest df0 Hread Hdup)
        as (st & Hloop & Hfacts & Href).
      exists st. fold given in Hloop. by rewrite Hloop.
Qed.

End Outcomes.

Lemma finish_returns `{RT : Runtime} key_cols st :
  ∃ df rep, finish key_cols st = Returned df rep.
Proof.
  unfold finish. destruct (l_merged st); [by eexists _, _ |].
  destruct (combine _ _ _). by eexists _, _.
Qed.

Lemma given_columns_none `{RT : Runtime} fps baseline incr :
  given_columns fps baseline incr = None
  ↔ incr = false ∧ default [] baseline = [].
Proof.
  unfold given_columns. destruct incr.
  - split; [done | by intros [? _]].
  - destruct baseline as [[|c cs] |]; simpl; split; try done;
      by intros [_ ?].
Qed.

(** X9. The merge without baseline when file 0 cannot be read.  Outside
    incremental mode and without baseline columns from the caller, when
    file 0 cannot be read and a later file can, [merge_and_report] does not
    return, whatever the key columns are: the [TypeError] of iterating
    over the missing baseline escapes it at the first later file that is
    read. *)
Theorem X9_merge_raises `{RT : Runtime} (fp0 : string) (rest : list string)
    (baseline_columns primary_key_columns : option (list string)) :
  default [] baseline_columns = [] →
  ¬ readable fp0 → Exists readable rest →
  merge_and_report (fp0 :: rest) baseline_columns false primary_key_columns
  = Raised "TypeError: 'NoneType' object is not iterable".
Proof.
  intros Hb Hnot Hex.
  pose proof (merge_and_report_cases (fp0 :: rest) baseline_columns false
                primary_key_columns) as Hcases.
  cbv beta iota zeta in Hcases.
  destruct (_read_table fp0) as [e | df0] eqn:Hread.
  - destruct (decide _) as [_ | Hn]; [done |].
    destruct Hn. split; [by apply given_columns_none | done].
  - destruct Hnot. by exists df0.
Qed.

(** X9 at a sample: [a.txt] and [c.txt] cannot be read, [b.csv] can. *)
Lemma X9_merge_raises_witness :
  merge_and_report (RT := Ref.runtime SampleMerge.files)
    ["a.txt"; "c.txt"; "b.csv"] None false (Some ["K"])
  = Raised "TypeError: 'NoneType' object is not iterable".
Proof.
  apply (X9_merge_raises (RT := Ref.runtime SampleMerge.files)).
  - reflexivity.
  - intros [df Hdf]. vm_compute in Hdf. discriminate.
  - apply Exists_cons_tl, Exists_cons_hd. exists SampleMerge.b.
    vm_compute. reflexivity.
Defined.

Lemma run_facts_error `{RT : Runtime} key_cols incr fps cols fp0 st df rep :
  run_facts key_cols incr fps cols (start_report fp0) st →
  finish key_cols st = Returned df rep → error rep = None.
Proof.
  intros ((He & _) & _) Hfin.
  apply finish_facts in Hfin as (-> & _). by rewrite He.
Qed.

(** X10. A merge that returns has a top-level [error] in its report in two
    situations only: the list of files is empty, or file 0 is read and has
    a column label twice.  The outcome is then the empty table with a
    report that has no entry and counts no row and no Fatal Mismatch. *)
Theorem X10_fatal_error `{RT : Runtime} (file_paths : list string)
    (baseline_columns : option (list string)) (template_incremental : bool)
    (primary_key_columns : option (list string))
    (df : DataFrame) (rep : Report) :
  merge_and_report file_paths baseline_columns template_incremental
    primary_key_columns = Returned df rep →
  (error rep ≠ None ↔
   file_paths = []
   ∨ ∃ fp0 rest df0, file_paths = fp0 :: rest
       ∧ _read_table fp0 = inr df0 ∧ ¬ NoDup (columns df0))
  ∧ (error rep ≠ None →
     df = empty_frame ∧ tables rep = [] ∧ merged_row_count rep = 0
     ∧ fatal_mismatch_count rep = 0).
Proof.
  pose proof (merge_and_report_cases file_paths baseline_columns
                template_incremental primary_key_columns) as Hcases.
  cbn zeta in Hcases. intros Hret.
  destruct file_paths as [|fp0 rest].
  { rewrite Hcases in Hret. injection Hret as <- <-. simpl.
    split; [| done]. split; [by left | done]. }
  assert (∀ st cols,
    run_facts (default [] primary_key_columns) template_incremental
      (fp0 :: rest) cols (start_report fp0) st →
    finish (default [] primary_key_columns) st = Returned df rep →
    error rep = None) as Hfin by (intros; by eapply run_facts_error).
  destruct (_read_table fp0) as [e | df0] eqn:Hread.
  - destruct (decide _); [congruence |].
    destruct Hcases as (st & Hfacts & _ & Hm). rewrite Hm in Hret.
    rewrite (Hfin st _ Hfacts Hret). split; [| done].
    split; [done |]. intros [? | (? & ? & ? & [= <- <-] & ? & _)]; congruence.
  - destruct (has_duplicates (columns df0)) eqn:Hdup.
    + rewrite Hcases in Hret. injection Hret as <- <-. simpl.
      split; [| done]. split; [| done]. intros _. right.
      exists fp0, rest, df0. repeat split; try done.
      unfold has_duplicates in Hdup. apply negb_true_iff in Hdup.
      by apply bool_decide_eq_false in Hdup.
    + destruct Hcases as (st & Hfacts & _ & Hm). rewrite Hm in Hret.
      rewrite (Hfin st _ Hfacts Hret). split; [| done].
      split; [done |].
      intros [? | (? & ? & df0' & [= <- <-] & Hr & Hnd)]; [done |].
      rewrite Hread in Hr. injection Hr as <-.
      unfold has_duplicates in Hdup. apply negb_false_iff in Hdup.
      by apply bool_decide_eq_true in Hdup.
Qed.

(** X10 at a sample: a first file with the label [A] twice. *)
Lemma X10_fatal_error_witness :
  let files := [("d.csv", mkDF ["A"; "A"] [[Some "1"; Some "2"]])] in
  ∃ df rep,
    merge_and_report (RT := Ref.runtime files) ["d.csv"] None false None
    = Returned df rep
    ∧ error rep = Some "基准表存在重复列名，无法合并"
    ∧ df = empty_frame ∧ tables rep = [] ∧ merged_row_count rep = 0
    ∧ fatal_mismatch_count rep = 0.
Proof.
  intros files.
  assert (∃ df rep,
    merge_and_report (RT := Ref.runtime files) ["d.csv"] None false None
    = Returned df rep
    ∧ error rep = Some "基准表存在重复列名，无法合并")
    as (df & rep & Hm & He)
    by (eexists _, _; split; vm_compute; reflexivity).
  exists df, rep. split; [exact Hm |]. split; [exact He |].
  destruct (X10_fatal_error (RT := Ref.runtime files) ["d.csv"] None false
              None df rep Hm) as [_ Hempty].
  apply Hempty. by rewrite He.
Defined.

(** A merge that returns without a top-level error has gone through all
    the files, and ends on the state the loop leaves. *)
Lemma merge_returned_run `{RT : Runtime} (file_paths : list string)
    (baseline_columns : option (list string)) (template_incremental : bool)
    (primary_key_columns : option (list string))
    (df : DataFrame) (rep : Report) :
  merge_and_report file_paths baseline_columns template_incremental
    primary_key_columns = Returned df rep →
  error rep = None →
  let cols := baseline_in_use file_paths baseline_columns
                template_incremental in
  ∃ fp0 rest st,
    file_paths = fp0 :: rest
    ∧ run_facts (default [] primary_key_columns) template_incremental
        file_paths cols (start_report fp0) st
    ∧ reference_columns (l_report st)
      = (if decide (readable fp0) then cols else [])
    ∧ finish (default [] primary_key_columns) st = Returned df rep.
Proof.
  pose proof (merge_and_report_cases file_paths baseline_columns
                template_incremental primary_key_columns) as Hcases.
  cbn zeta in Hcases. intros Hret Herr cols.
  destruct file_paths as [|fp0 rest] eqn:Hfps.
  { rewrite Hcases in Hret. injection Hret as <- <-. done. }
  exists fp0, rest.
  destruct (_read_table fp0) as [e | df0] eqn:Hread.
  - destruct (decide (_ ∧ _)); [congruence |].
    destruct Hcases as (st & Hfacts & Href & Hm). exists st.
    rewrite decide_False by (intros [d Hd]; congruence).
    split; [done |]. split; [done |]. split; [done | congruence].
  - destruct (has_duplicates (columns df0)).
    { rewrite Hcases in Hret. injection Hret as <- <-. done. }
    destruct Hcases as (st & Hfacts & Href & Hm). exists st.
    rewrite decide_True by (by exists df0).
    split; [done |]. split; [done |]. split; [done | congruence].
Qed.

Lemma describe_all_up_to_rate `{RT : Runtime} cols i fps ts ts' :
  Forall2 up_to_rate ts ts' → describe_all cols i fps ts →
  length ts' = length fps
  ∧ ∀ j fp, fps !! j = Some fp →
      ∃ t, ts' !! j = Some t ∧ described cols (i + j) fp t.
Proof.
  intros Hrate [Hlen Hall]. split.
  - by rewrite <- (Forall2_length _ _ _ Hrate).
  - intros j fp Hj. destruct (Hall j fp Hj) as (t & Ht & Hd & _).
    destruct (Forall2_lookup_l _ _ _ _ _ Hrate Ht) as (t' & Ht' & Hr).
    exists t'. split; [done |]. by eapply described_up_to_rate.
Qed.

(** X11. The report of a merge that returns without a top-level error has
    one entry per file, in the order of the files, and the entry of a file
    describes it under the baseline in use (the columns the caller gives or
    incremental mode computes, and otherwise the columns of file 0): the
    name of the file; for a file that cannot be read the status
    [read_error], no row, no column and the text of the exception; for a
    file after the first that shares no column with the baseline the
    status Fatal Mismatch, its number of rows, the whole baseline as
    missing and all its columns as extra; and otherwise the status [ok],
    its number of rows, the baseline columns it lacks and its columns
    outside the baseline.  The report names file 0 as the reference, and
    its [reference_columns] are the baseline when file 0 is read and empty
    when it is not. *)
Theorem X11_report_describes_files `{RT : Runtime} (file_paths : list string)
    (baseline_columns : option (list string)) (template_incremental : bool)
    (primary_key_columns : option (list string))
    (df : DataFrame) (rep : Report) :
  merge_and_report file_paths baseline_columns template_incremental
    primary_key_columns = Returned df rep →
  error rep = None →
  let cols := baseline_in_use file_paths baseline_columns
                template_incremental in
  length (tables rep) = length file_paths
  ∧ (∀ j fp, file_paths !! j = Some fp →
       ∃ t, tables rep !! j = Some t ∧ described cols j fp t)
  ∧ (∀ fp0, file_paths !! 0 = Some fp0 →
       reference_file rep = path_name fp0
       ∧ reference_columns rep = if decide (readable fp0) then cols else []).
Proof.
  intros Hret Herr cols.
  destruct (merge_returned_run _ _ _ _ _ _ Hret Herr)
    as (fp0 & rest & st & Hfps & Hfacts & Href & Hfin).
  fold cols in Hfacts, Href.
  destruct Hfacts as ((_ & Hfile & _) & _ & Hdesc & _).
  apply finish_facts in Hfin as (_ & Hr & Hf & _ & _ & Hrate & _).
  destruct (describe_all_up_to_rate cols 0 file_paths _ _ Hrate Hdesc)
    as [Hlen Hall].
  split; [done |]. split; [done |]. rewrite Hfps.
  intros fp [= <-]. split; [by rewrite Hf, Hfile | by rewrite Hr].
Qed.

(** X11 at a sample: [a.csv] is the reference, [b.csv] lacks [A] and has
    [B] besides, [c.txt] is not of a format that is read. *)
Lemma X11_report_describes_files_witness :
  let fps := ["a.csv"; "b.csv"; "c.txt"] in
  ∃ df rep,
    merge_and_report (RT := Ref.runtime SampleMerge.files) fps None false
      None = Returned df rep
    ∧ error rep = None
    ∧ baseline_in_use (RT := Ref.runtime SampleMerge.files) fps None false
      = ["K"; "A"]
    ∧ length (tables rep) = 3
    ∧ (∀ j fp, fps !! j = Some fp →
         ∃ t, tables rep !! j = Some t
           ∧ described (RT := Ref.runtime SampleMerge.files) ["K"; "A"] j fp
               t)
    ∧ reference_file rep = "a.csv" ∧ reference_columns rep = ["K"; "A"].
Proof.
  intros fps.
  assert (∃ df rep,
    merge_and_report (RT := Ref.runtime SampleMerge.files) fps None false
      None = Returned df rep
    ∧ error rep = None) as (df & rep & Hm & He)
    by (eexists _, _; split; vm_compute; reflexivity).
  assert (baseline_in_use (RT := Ref.runtime SampleMerge.files) fps None
            false = ["K"; "A"]) as Hcols by (vm_compute; reflexivity).
  exists df, rep. split; [exact Hm |]. split; [exact He |].
  split; [exact Hcols |].
  destruct (X11_report_describes_files (RT := Ref.runtime SampleMerge.files)
              fps None false None df rep Hm He) as (Hlen & Hdesc & Href).
  rewrite Hcols in Hdesc, Href.
  split; [exact Hlen |]. split; [exact Hdesc |].
  destruct (Href "a.csv" eq_refl) as [Hfile Hrc].
  split; [exact Hfile |]. rewrite Hrc. by vm_compute.
Defined.

(** X12. In every outcome that is returned, the counters of the report
    agree with what is returned: [merged_row_count] is the number of rows
    of the merged table, and [fatal_mismatch_count] the number of entries
    with the status Fatal Mismatch. *)
Theorem X12_report_counters `{RT : Runtime} (file_paths : list string)
    (baseline_columns : option (list string)) (template_incremental : bool)
    (primary_key_columns : option (list string))
    (df : DataFrame) (rep : Report) :
  merge_and_report file_paths baseline_columns template_incremental
    primary_key_columns = Returned df rep →
  merged_row_count rep = nrows df
  ∧ fatal_mismatch_count rep = fatal_entries (tables rep).
Proof.
  pose proof (merge_and_report_cases file_paths baseline_columns
                template_incremental primary_key_columns) as Hcases.
  cbn zeta in Hcases. intros Hret.
  destruct file_paths as [|fp0 rest].
  { rewrite Hcases in Hret. by injection Hret as <- <-. }
  assert (∀ st cols,
    run_facts (default [] primary_key_columns) template_incremental
      (fp0 :: rest) cols (start_report fp0) st →
    finish (default [] primary_key_columns) st = Returned df rep →
    merged_row_count rep = nrows df
    ∧ fatal_mismatch_count rep = fatal_entries (tables rep)) as Hfin.
  { intros st cols (_ & _ & _ & Hfatal) Hfin.
    apply finish_facts in Hfin as (_ & _ & _ & Hf & Hn & Hrate & _).
    split; [done |].
    by rewrite (fatal_entries_up_to_rate _ _ Hrate), Hf. }
  destruct (_read_table fp0) as [e | df0] eqn:Hread.
  - destruct (decide _); [congruence |].
    destruct Hcases as (st & Hfacts & _ & Hm). rewrite Hm in Hret.
    by eapply Hfin.
  - destruct (has_duplicates (columns df0)).
    + rewrite Hcases in Hret. by injection Hret as <- <-.
    + destruct Hcases as (st & Hfacts & _ & Hm). rewrite Hm in Hret.
      by eapply Hfin.
Qed.

(** X12 at a sample: two files stacked, and a third that shares no column
    with them. *)
Lemma X12_report_counters_witness :
  let files := SampleMerge.files ++ [("z.csv", mkDF ["Z"] [[Some "1"]])] in
  ∃ df rep,
    merge_and_report (RT := Ref.runtime files) ["a.csv"; "b.csv"; "z.csv"]
      None false None = Returned df rep
    ∧ nrows df = 5 ∧ merged_row_count rep = 5
    ∧ fatal_entries (tables rep) = 1 ∧ fatal_mismatch_count rep = 1.
Proof.
  intros files.
  assert (∃ df rep,
    merge_and_report (RT := Ref.runtime files) ["a.csv"; "b.csv"; "z.csv"]
      None false None = Returned df rep
    ∧ nrows df = 5 ∧ fatal_entries (tables rep) = 1)
    as (df & rep & Hm & Hn & Hf)
    by (eexists _, _; split; [| split]; vm_compute; reflexivity).
  exists df, rep. split; [exact Hm |]. split; [exact Hn |].
  destruct (X12_report_counters (RT := Ref.runtime files)
              ["a.csv"; "b.csv"; "z.csv"] None false None df rep Hm)
    as [Hrows Hfatal].
  split; [by rewrite Hrows |]. split; [exact Hf | by rewrite Hfatal].
Defined.

(** ** The merged table *)

(** Aligning an aligned frame changes nothing. *)
Lemma reindex_idem cols df :
  reindex cols (reindex cols df) = reindex cols df.
Proof.
  unfold reindex. simpl. f_equal. rewrite map_map.
  apply map_ext. intros r. apply map_ext_in. intros c Hc.
  apply row_get_map. by apply list_elem_of_In.
Qed.

Lemma concat_columns_same cols d ds :
  Forall (λ d', columns d' = cols) (d :: ds) →
  concat_columns (d :: ds) = cols.
Proof.
  intros [Hd Hds]%Forall_cons. unfold concat_columns.
  assert (forallb (λ d', bool_decide (columns d' = columns d)) ds = true)
    as ->; [| done].
  apply forallb_forall. intros d' Hin%list_elem_of_In.
  apply bool_decide_eq_true. rewrite Hd.
  by apply (proj1 (Forall_forall _ _) Hds).
Qed.

(** Stacking frames that are aligned on [cols] gives their rows one after
    the other, under [cols]. *)
Lemma pd_concat_aligned cols d ds :
  Forall (λ d', ∃ x, d' = reindex cols x) (d :: ds) →
  pd_concat (d :: ds) = mkDF cols (flat_map rows (d :: ds)).
Proof.
  intros Hall. unfold pd_concat.
  rewrite (concat_columns_same cols).
  2:{ eapply Forall_impl; [exact Hall |]. by intros d' [x ->]. }
  f_equal. induction Hall as [|d' l [x ->] _ IH]; [done |].
  cbn [flat_map]. by rewrite reindex_idem, IH.
Qed.

Section Stacked.
Context `{RT : Runtime}.
Variable template_incremental : bool.
Variable cols : list string.

Lemma kept_frames_stack fps : ∀ i,
  Forall (λ d, ∃ x, d = reindex cols x)
    (kept_frames [] template_incremental cols i fps)
  ∧ flat_map rows (kept_frames [] template_incremental cols i fps)
    = flat_map (λ ifp : nat * string, contributed cols ifp.1 ifp.2)
        (enumerate_from i fps).
Proof.
  induction fps as [|fp fps IH]; intros i; [by split |].
  rewrite kept_frames_cons. cbn [enumerate_from flat_map fst snd].
  destruct (IH (S i)) as [Hall Hrows].
  unfold kept_of, contributed.
  destruct (_read_table fp) as [e | df]; [done |].
  destruct (decide (mismatched cols i df)); [done |].
  assert (kept_frame [] template_incremental cols i df = reindex cols df)
    as -> by (by destruct i).
  simpl. split; [constructor; [by exists df | done] |].
  by rewrite Hrows.
Qed.

End Stacked.

(** X13. Without primary-key columns, a merge that returns without a
    top-level error stacks the files: the rows of the merged table are the
    rows of the files in the order of the files, each aligned on the
    baseline in use (a cell per baseline column, taken from the file when
    it has the column and missing otherwise), the files that cannot be read
    or are a Fatal Mismatch bringing none.  Its columns are the baseline
    as soon as one file is kept, and it has none otherwise. *)
Theorem X13_stacked_rows `{RT : Runtime} (file_paths : list string)
    (baseline_columns : option (list string)) (template_incremental : bool)
    (primary_key_columns : option (list string))
    (df : DataFrame) (rep : Report) :
  default [] primary_key_columns = [] →
  merge_and_report file_paths baseline_columns template_incremental
    primary_key_columns = Returned df rep →
  error rep = None →
  let cols := baseline_in_use file_paths baseline_columns
                template_incremental in
  rows df
  = flat_map (λ ifp : nat * string, contributed cols ifp.1 ifp.2)
      (enumerate_from 0 file_paths)
  ∧ columns df
    = if decide (kept_frames [] template_incremental cols 0 file_paths = [])
      then [] else cols.
Proof.
  intros Hkeys Hret Herr cols.
  destruct (merge_returned_run _ _ _ _ _ _ Hret Herr)
    as (fp0 & rest & st & Hfps & Hfacts & _ & Hfin).
  fold cols in Hfacts. rewrite Hkeys in Hfacts, Hfin.
  destruct Hfacts as (_ & Hm & _).
  destruct (kept_frames_stack template_incremental cols file_paths 0)
    as [Hall Hrows].
  apply finish_facts in Hfin as (_ & _ & _ & _ & _ & _ & Hend).
  rewrite Hm in Hend. rewrite <- Hrows.
  destruct (kept_frames [] template_incremental cols 0 file_paths)
    as [|d ds] eqn:Hkept.
  { subst df. by rewrite decide_True. }
  rewrite decide_False by done. destruct Hend as [rep' Hcomb].
  unfold combine in Hcomb. injection Hcomb as <- _.
  by rewrite (pd_concat_aligned cols).
Qed.

(** X13 at a sample: the rows of [a.csv], then those of [b.csv] with
    their [K] and no [A]. *)
Lemma X13_stacked_rows_witness :
  let fps := ["a.csv"; "b.csv"; "c.txt"] in
  ∃ df rep,
    merge_and_report (RT := Ref.runtime SampleMerge.files) fps None false
      None = Returned df rep
    ∧ error rep = None
    ∧ rows df
      = [ [Some "k1"; Some "1"]; [Some " k2"; Some "2"];
          [Some "k1 "; None]; [Some "k1"; None]; [Some "k3"; None] ]
    ∧ columns df = ["K"; "A"].
Proof.
  intros fps.
  assert (∃ df rep,
    merge_and_report (RT := Ref.runtime SampleMerge.files) fps None false
      None = Returned df rep
    ∧ error rep = None) as (df & rep & Hm & He)
    by (eexists _, _; split; vm_compute; reflexivity).
  exists df, rep. split; [exact Hm |]. split; [exact He |].
  destruct (X13_stacked_rows (RT := Ref.runtime SampleMerge.files) fps None
              false None df rep eq_refl Hm He) as [Hrows Hcols].
  split; [rewrite Hrows | rewrite Hcols]; vm_compute; reflexivity.
Defined.

Lemma kept_frames_later_columns `{RT : Runtime} key_cols incr cols fps :
  ∀ i, Forall (λ d, columns d = cols)
         (kept_frames key_cols incr cols (S i) fps).
Proof.
  induction fps as [|fp fps IH]; intros i; [constructor |].
  rewrite kept_frames_cons. apply Forall_app. split; [| apply IH].
  unfold kept_of. destruct (_read_table fp) as [e | df]; [constructor |].
  destruct (decide _); constructor; [done | constructor].
Qed.

(** X14. When file 0 is read, a merge that returns without a top-level
    error gives the merged table the [reference_columns] of its report, in
    their order, and these are the baseline in use; this holds outside
    incremental mode, without primary-key columns, and whenever file 0 has
    one of the primary-key columns. *)
Theorem X14_columns_reference `{RT : Runtime} (file_paths : list string)
    (baseline_columns : option (list string)) (template_incremental : bool)
    (primary_key_columns : option (list string))
    (df : DataFrame) (rep : Report) (fp0 : string) (df0 : DataFrame) :
  merge_and_report file_paths baseline_columns template_incremental
    primary_key_columns = Returned df rep →
  error rep = None →
  file_paths !! 0 = Some fp0 → _read_table fp0 = inr df0 →
  template_incremental = false
  ∨ default [] primary_key_columns = []
  ∨ (∃ k, k ∈ default [] primary_key_columns ∧ k ∈ columns df0) →
  columns df = reference_columns rep
  ∧ reference_columns rep
    = baseline_in_use file_paths baseline_columns template_incremental.
Proof.
  pose proof (merge_and_report_cases file_paths baseline_columns
                template_incremental primary_key_columns) as Hcases.
  cbn zeta in Hcases. intros Hret Herr Hfp0 Hread Hmode.
  destruct file_paths as [|fp rest] eqn:Hfps; [done |].
  injection Hfp0 as ->. rewrite Hread in Hcases.
  destruct (has_duplicates (columns df0)).
  { rewrite Hcases in Hret. injection Hret as <- <-. done. }
  destruct Hcases as (st & Hfacts & Href & Hm). rewrite Hm in Hret.
  set (cols := baseline_in_use (fp0 :: rest) baseline_columns
                 template_incremental) in *.
  set (key_cols := default [] primary_key_columns) in *.
  destruct Hfacts as (_ & Hmerged & _).
  apply finish_facts in Hret as (_ & Hr & _ & _ & _ & _ & Hend).
  rewrite Hr, Href. split; [| done].
  rewrite Hmerged, kept_frames_cons in Hend. unfold kept_of in Hend.
  rewrite Hread in Hend.
  rewrite decide_False in Hend by (by intros [? _]).
  cbn [option_list app] in Hend. destruct Hend as [rep' Hcomb].
  pose proof (kept_frames_later_columns key_cols template_incremental cols
                rest 0) as Hlater.
  revert Hcomb Hlater.
  generalize (kept_frames key_cols template_incremental cols 1 rest).
  intros rights Hcomb Hlater.
  set (first := kept_frame key_cols template_incremental cols 0 df0) in *.
  change (option_list (Some first) ++ rights) with (first :: rights)
    in Hcomb.
  destruct (decide (filter (λ c, c ∈ columns first) key_cols = []))
    as [Hnone | Hsome].
  - rewrite combine_no_join in Hcomb by done. injection Hcomb as <- _.
    simpl. apply concat_columns_same. constructor; [| done].
    unfold first, kept_frame.
    destruct key_cols as [|k ks] eqn:Hk; [done |].
    destruct template_incremental; [| done].
    destruct Hmode as [? | [? | (k' & Hin & Hcol)]]; [done | done |].
    exfalso. pose proof (stripped_shape (k :: ks) df0) as [_ Hc].
    assert (k' ∈ filter (λ c, c ∈ columns first) (k :: ks)) as Hf.
    { apply list_elem_of_filter. split; [| done].
      unfold first, kept_frame. by rewrite Hc. }
    rewrite Hnone in Hf. by apply elem_of_nil in Hf.
  - rewrite combine_join in Hcomb by done. cbn zeta in Hcomb.
    injection Hcomb as <- <-. simpl.
    pose proof (join_loop_keeps first
                  (filter (λ c, c ∈ columns first) key_cols) 1 rights
                  (first, set_fatal_mismatch_count (l_fatal st)
                            (l_report st))) as (_ & _ & Hrc & _).
    simpl in Hrc. by rewrite Hrc.
Qed.

(** X14 at a sample: a join on [K], which file 0 has. *)
Lemma X14_columns_reference_witness :
  ∃ df rep,
    merge_and_report (RT := Ref.runtime SampleMerge.files)
      ["a.csv"; "b.csv"] None true (Some ["K"]) = Returned df rep
    ∧ error rep = None
    ∧ columns df = ["K"; "A"; "B"]
    ∧ reference_columns rep = ["K"; "A"; "B"].
Proof.
  assert (∃ df rep,
    merge_and_report (RT := Ref.runtime SampleMerge.files)
      ["a.csv"; "b.csv"] None true (Some ["K"]) = Returned df rep
    ∧ error rep = None) as (df & rep & Hm & He)
    by (eexists _, _; split; vm_compute; reflexivity).
  exists df, rep. split; [exact Hm |]. split; [exact He |].
  assert (_read_table (RT := Ref.runtime SampleMerge.files) "a.csv"
          = inr SampleMerge.a) as Hread by (vm_compute; reflexivity).
  assert (true = false ∨ default [] (Some ["K"]) = []
          ∨ ∃ k, k ∈ default [] (Some ["K"]) ∧ k ∈ columns SampleMerge.a)
    as Hmode.
  { right. right. exists "K". split; compute_done. }
  destruct (X14_columns_reference (RT := Ref.runtime SampleMerge.files)
              ["a.csv"; "b.csv"] None true (Some ["K"]) df rep "a.csv"
              SampleMerge.a Hm He eq_refl Hread Hmode) as [Hcols Href].
  rewrite Hcols, Href. split; vm_compute; reflexivity.
Defined.

(** ** Incremental mode *)

Section Incremental.
Context `{RT : Runtime}.

Lemma readable_columns_from fps : ∀ (acc : gset string) c,
  c ∈ foldl (λ all_cols fp,
               match _read_table fp with
               | inr df => all_cols ∪ list_to_set (columns df)
               | inl _ => all_cols
               end) acc fps
  ↔ c ∈ acc ∨ ∃ fp df, fp ∈ fps ∧ _read_table fp = inr df ∧ c ∈ columns df.
Proof.
  induction fps as [|fp fps IH]; intros acc c; simpl.
  - split; [by left |]. intros [? | (? & ? & ?%elem_of_nil & _)]; done.
  - rewrite IH. split.
    + intros [Hacc | (fp' & df & Hin & Hread & Hc)].
      * destruct (_read_table fp) as [e | df] eqn:Hread; [by left |].
        apply elem_of_union in Hacc as [? | Hc%elem_of_list_to_set];
          [by left |].
        right. exists fp, df. split; [left | done].
      * right. exists fp', df. split; [by right | done].
    + intros [Hacc | (fp' & df & Hin & Hread & Hc)].
      * left. destruct (_read_table fp); [done |].
        apply elem_of_union. by left.
      * apply elem_of_cons in Hin as [-> | Hin].
        -- left. rewrite Hread. apply elem_of_union. right.
           by apply elem_of_list_to_set.
        -- right. by exists fp', df.
Qed.

(** The incremental columns hold every column of every file that can be
    read. *)
Lemma incremental_columns_covers fps o fp df c :
  fp ∈ fps → _read_table fp = inr df → c ∈ columns df →
  c ∈ incremental_columns fps o.
Proof.
  intros Hfp Hread Hc. unfold incremental_columns.
  assert (c ∈ readable_columns fps) as Hall.
  { unfold readable_columns. apply readable_columns_from. right.
    by exists fp, df. }
  assert (∀ (base : list string) (all_cols : gset string),
    c ∈ all_cols →
    c ∈ base ++ merge_sort String.le
                  (elements (all_cols ∖ list_to_set base))) as Hin.
  { intros base all_cols Hca. apply elem_of_app.
    destruct (decide (c ∈ base)) as [? | Hnb]; [by left |]. right.
    rewrite merge_sort_Permutation. apply elem_of_elements.
    apply elem_of_difference. split; [done |].
    by rewrite elem_of_list_to_set. }
  destruct (default [] o) as [|b bs].
  - destruct fps as [|fp1 fps']; [by apply Hin |].
    destruct (_read_table fp1) as [e | df1]; apply Hin; [done |].
    apply elem_of_union. by left.
  - by apply Hin.
Qed.

End Incremental.

(** X15. In incremental mode no column of a file is left out: every
    column of every file that can be read is in the baseline in use, and
    in the report of a merge that returns without a top-level error no
    entry has an extra column. *)
Theorem X15_incremental_keeps_columns `{RT : Runtime}
    (file_paths : list string) (baseline_columns : option (list string))
    (primary_key_columns : option (list string))
    (df : DataFrame) (rep : Report) :
  merge_and_report file_paths baseline_columns true primary_key_columns
  = Returned df rep →
  error rep = None →
  (∀ fp d c, fp ∈ file_paths → _read_table fp = inr d → c ∈ columns d →
     c ∈ baseline_in_use file_paths baseline_columns true)
  ∧ Forall (λ t, extra_columns t = []) (tables rep).
Proof.
  intros Hret Herr.
  assert (∀ fp d c, fp ∈ file_paths → _read_table fp = inr d →
            c ∈ columns d →
            c ∈ baseline_in_use file_paths baseline_columns true) as Hcov.
  { intros fp d c Hfp Hread Hc. unfold baseline_in_use, given_columns.
    pose proof (incremental_columns_covers file_paths
                  (match baseline_columns with
                   | None | Some [] => None
                   | Some cols => Some cols
                   end) fp d c Hfp Hread Hc) as Hin.
    destruct (incremental_columns _ _) as [|x xs]; [| done].
    by apply elem_of_nil in Hin. }
  split; [exact Hcov |].
  destruct (merge_returned_run _ _ _ _ _ _ Hret Herr)
    as (fp0 & rest & st & _ & (_ & _ & Hall & _) & _ & Hfin).
  apply finish_facts in Hfin as (_ & _ & _ & _ & _ & Hrate & _).
  destruct (describe_all_up_to_rate _ 0 file_paths _ _ Hrate Hall)
    as [Hlen Hdesc].
  apply Forall_forall. intros t Ht.
  apply list_elem_of_lookup in Ht as [j Hj].
  assert (j < length file_paths) as Hlt
    by (rewrite <- Hlen; by eapply lookup_lt_Some).
  apply lookup_lt_is_Some in Hlt as [fp Hfp].
  destruct (Hdesc j fp Hfp) as (t' & Ht' & _ & Hd).
  rewrite Hj in Ht'. injection Ht' as <-. clear Hall.
  assert (fp ∈ file_paths) as Hin
    by (apply list_elem_of_lookup; by exists j).
  destruct (_read_table fp) as [e | d] eqn:Hread.
  { by destruct Hd as (_ & _ & _ & ? & _). }
  destruct Hd as (_ & _ & Hd).
  assert (∀ c, c ∈ columns d →
               c ∈ baseline_in_use file_paths baseline_columns true)
    as Hall by (intros c; by apply (Hcov fp d c)).
  destruct (decide _) as [[_ Hmis] | _].
  - destruct Hd as (_ & _ & ->).
    destruct (columns d) as [|c cs]; [done |].
    apply Forall_cons in Hmis as [Hc _]. destruct Hc. apply Hall. left.
  - destruct Hd as (_ & _ & ->). apply filter_none.
    intros c Hc Hn. by apply Hn, Hall.
Qed.

(** X15 at a sample: [B], which only [b.csv] has, joins the baseline. *)
Lemma X15_incremental_keeps_columns_witness :
  ∃ df rep,
    merge_and_report (RT := Ref.runtime SampleMerge.files)
      ["a.csv"; "b.csv"] None true None = Returned df rep
    ∧ error rep = None
    ∧ baseline_in_use (RT := Ref.runtime SampleMerge.files)
        ["a.csv"; "b.csv"] None true = ["K"; "A"; "B"]
    ∧ Forall (λ t, extra_columns t = []) (tables rep).
Proof.
  assert (∃ df rep,
    merge_and_report (RT := Ref.runtime SampleMerge.files)
      ["a.csv"; "b.csv"] None true None = Returned df rep
    ∧ error rep = None) as (df & rep & Hm & He)
    by (eexists _, _; split; vm_compute; reflexivity).
  exists df, rep. split; [exact Hm |]. split; [exact He |].
  split; [vm_compute; reflexivity |].
  by destruct (X15_incremental_keeps_columns
                 (RT := Ref.runtime SampleMerge.files) ["a.csv"; "b.csv"]
                 None None df rep Hm He) as [_ Hextra].
Defined.

(** ** Stripping the key columns *)

Section Strip.

Lemma drop_prefix_Some p l q : Py.drop_prefix p l = Some q ↔ l = p ++ q.
Proof.
  revert l. induction p as [|a p IH]; intros l; simpl.
  - split; [by intros [= ->] | by intros ->].
  - destruct l as [|b l]; [by split |].
    destruct (decide (a = b)) as [-> | Hne].
    + rewrite IH. split; [by intros -> | by intros [= ->]].
    + split; [done | intros [= -> _]; done].
Qed.

Lemma head_omap_None {A B} (f : A → option B) (l : list A) :
  head (omap f l) = None ↔ ∀ x, x ∈ l → f x = None.
Proof.
  induction l as [|x l IH]; simpl.
  - split; [by intros _ x ?%elem_of_nil | done].
  - destruct (f x) as [y |] eqn:Hx; simpl.
    + split; [done |]. intros Hall. specialize (Hall x). rewrite Hx in Hall.
      by apply Hall; left.
    + rewrite IH. split.
      * intros Hall y [-> | Hy]%elem_of_cons; [done | by apply Hall].
      * intros Hall y Hy. apply Hall. by right.
Qed.

Variable toks : list (list ascii).
Hypothesis toks_nonempty : Forall (λ t, t ≠ []) toks.

Lemma drop_space_length l l' :
  Py.drop_space toks l = Some l' → length l' < length l.
Proof.
  unfold Py.drop_space. destruct l as [|c l]; [done |].
  destruct (Py.is_space c); [intros [= <-]; simpl; lia |].
  intros Hhead.
  destruct (omap (λ t, Py.drop_prefix t (c :: l)) toks) as [|q qs] eqn:Hom;
    [done |].
  injection Hhead as ->.
  assert (l' ∈ omap (λ t, Py.drop_prefix t (c :: l)) toks) as Hin
    by (rewrite Hom; left).
  apply list_elem_of_omap in Hin as (t & Ht & Hdrop).
  apply drop_prefix_Some in Hdrop. rewrite Hdrop, length_app.
  assert (t ≠ []) as Hne by (by apply (proj1 (Forall_forall _ _)
                                         toks_nonempty)).
  destruct t; [done | simpl; lia].
Qed.

(** With enough fuel nothing is left to strip. *)
Lemma lstrip_go_done fuel : ∀ l,
  length l ≤ fuel → Py.drop_space toks (Py.lstrip_go toks fuel l) = None.
Proof.
  induction fuel as [|fuel IH]; intros l Hlen; simpl.
  - destruct l; [done | simpl in Hlen; lia].
  - destruct (Py.drop_space toks l) as [l' |] eqn:Hd; [| done].
    apply IH. apply drop_space_length in Hd. lia.
Qed.

Lemma lstrip_go_fixed fuel l :
  Py.drop_space toks l = None → Py.lstrip_go toks fuel l = l.
Proof. intros Hd. destruct fuel; simpl; [done | by rewrite Hd]. Qed.

(** What is stripped is taken from the front. *)
Lemma lstrip_go_suffix fuel : ∀ l, ∃ p, l = p ++ Py.lstrip_go toks fuel l.
Proof.
  induction fuel as [|fuel IH]; intros l; simpl; [by exists [] |].
  destruct (Py.drop_space toks l) as [l' |] eqn:Hd; [| by exists []].
  destruct (IH l') as [p Hp].
  unfold Py.drop_space in Hd. destruct l as [|c l]; [done |].
  destruct (Py.is_space c).
  - injection Hd as <-. exists (c :: p). simpl. by rewrite <- Hp.
  - destruct (omap (λ t, Py.drop_prefix t (c :: l)) toks) as [|q qs] eqn:Hom;
      [done |].
    injection Hd as ->.
    assert (l' ∈ omap (λ t, Py.drop_prefix t (c :: l)) toks) as Hin
      by (rewrite Hom; left).
    apply list_elem_of_omap in Hin as (t & _ & Hdrop).
    apply drop_prefix_Some in Hdrop. exists (t ++ p).
    by rewrite <- app_assoc, <- Hp.
Qed.

(** A list with nothing to strip at the front keeps this when cut at the
    back. *)
Lemma drop_space_prefix p q :
  Py.drop_space toks (p ++ q) = None → Py.drop_space toks p = None.
Proof.
  unfold Py.drop_space. destruct p as [|c p]; [done |]. simpl.
  destruct (Py.is_space c); [done |].
  rewrite !head_omap_None. intros Hall t Ht. specialize (Hall t Ht).
  destruct (Py.drop_prefix t (c :: p)) as [r |] eqn:Hd; [| done].
  apply drop_prefix_Some in Hd.
  assert (Py.drop_prefix t (c :: p ++ q) = Some (r ++ q)) as Hd'.
  { apply drop_prefix_Some. rewrite app_assoc, <- Hd. done. }
  congruence.
Qed.

End Strip.

Lemma wide_spaces_nonempty : Forall (λ t, t ≠ []) Py.wide_spaces.
Proof. by apply Forall_forall; intros t Ht; vm_compute in Ht;
  repeat (apply elem_of_cons in Ht as [-> | Ht]; [done |]);
  apply elem_of_nil in Ht. Qed.

Lemma wide_spaces_rev_nonempty :
  Forall (λ t, t ≠ []) (map reverse Py.wide_spaces).
Proof. by apply Forall_forall; intros t Ht; vm_compute in Ht;
  repeat (apply elem_of_cons in Ht as [-> | Ht]; [done |]);
  apply elem_of_nil in Ht. Qed.

(** [s.strip().strip() == s.strip()] *)
Lemma strip_idem s : Py.strip (Py.strip s) = Py.strip s.
Proof.
  unfold Py.strip. rewrite list_ascii_of_string_of_list_ascii. f_equal.
  set (x := Py.lstrip_list (list_ascii_of_string s)).
  assert (Py.drop_space Py.wide_spaces x = None) as Hx
    by (apply lstrip_go_done; [apply wide_spaces_nonempty | done]).
  unfold Py.rstrip_list at 2 3.
  set (y := Py.lstrip_go (map reverse Py.wide_spaces) (length x)
              (reverse x)).
  assert (Py.drop_space (map reverse Py.wide_spaces) y = None) as Hy.
  { apply lstrip_go_done; [apply wide_spaces_rev_nonempty |].
    by rewrite length_reverse. }
  assert (Py.lstrip_list (reverse y) = reverse y) as ->.
  { apply lstrip_go_fixed.
    destruct (lstrip_go_suffix (map reverse Py.wide_spaces) (length x)
                (reverse x)) as [p Hp].
    fold y in Hp. apply (f_equal reverse) in Hp.
    rewrite reverse_involutive, reverse_app in Hp.
    apply (drop_space_prefix _ _ (reverse p)). by rewrite <- Hp. }
  unfold Py.rstrip_list. rewrite reverse_involutive.
  by rewrite lstrip_go_fixed.
Qed.

Lemma zip_with_id_r {A B} (f : A → B → B) (l : list A) (k : list B) :
  length k = length l → (∀ x y, x ∈ l → f x y = y) → zip_with f l k = k.
Proof.
  revert k. induction l as [|x l IH]; intros [|y k] Hlen Hf; simpl in *;
    try done.
  rewrite Hf by left. f_equal. apply IH; [lia |].
  intros x' y' Hx'. apply Hf. by right.
Qed.

Lemma zip_with_twice {A B} (f g : A → B → B) (l : list A) (k : list B) :
  zip_with f l (zip_with g l k) = zip_with (λ x y, f x (g x y)) l k.
Proof.
  revert k. induction l as [|x l IH]; intros [|y k]; simpl; try done.
  by rewrite IH.
Qed.

Lemma zip_with_ext_in {A B C} (f g : A → B → C) (l : list A) (k : list B) :
  (∀ x y, x ∈ l → f x y = g x y) → zip_with f l k = zip_with g l k.
Proof.
  revert k. induction l as [|x l IH]; intros [|y k] Hfg; simpl; try done.
  rewrite Hfg by left. f_equal. apply IH. intros x' y' Hx'.
  apply Hfg. by right.
Qed.

Lemma strip_cell_cons k ks c v :
  strip_cell ks c (strip_cell [k] c v) = strip_cell (k :: ks) c v.
Proof.
  unfold strip_cell.
  destruct (decide (c ∈ [k])) as [Hk%list_elem_of_singleton | Hk].
  - subst c. rewrite (decide_True (P := k ∈ k :: ks)) by left.
    destruct (decide (k ∈ ks)); [| done]. simpl. by rewrite strip_idem.
  - assert (c ≠ k) as Hne by (intros ->; apply Hk; left).
    destruct (decide (c ∈ ks)) as [Hin | Hnin].
    + by rewrite decide_True by (by right).
    + rewrite decide_False; [done |].
      by intros [? | ?]%elem_of_cons.
Qed.

Lemma strip_cell_idem ks c v :
  strip_cell ks c (strip_cell ks c v) = strip_cell ks c v.
Proof.
  unfold strip_cell. destruct (decide (c ∈ ks)); [| done].
  simpl. by rewrite strip_idem.
Qed.

(** One step of the loop over the key columns, on a rectangular frame. *)
Lemma strip_column_form col df :
  rectangular df →
  strip_column col df
  = mkDF (columns df)
      (map (λ r, zip_with (strip_cell [col]) (columns df) r) (rows df)).
Proof.
  intros Hrect. unfold strip_column, has_column.
  destruct (decide (col ∈ columns df)) as [Hin | Hnin].
  - rewrite bool_decide_eq_true_2 by done. f_equal.
    apply map_ext. intros r. apply zip_with_ext_in. intros c v _.
    unfold strip_cell.
    destruct (decide (c = col)) as [-> | Hne].
    + by rewrite decide_True by left.
    + rewrite decide_False; [done |].
      by intros ?%list_elem_of_singleton.
  - rewrite bool_decide_eq_false_2 by done. destruct df as [cols rs].
    simpl in *. f_equal. symmetry.
    rewrite <- (map_id rs) at 2. apply map_ext_in.
    intros r Hr%list_elem_of_In. apply zip_with_id_r.
    + by apply (proj1 (Forall_forall _ _) Hrect).
    + intros c v Hc. unfold strip_cell. rewrite decide_False; [done |].
      intros ->%list_elem_of_singleton. done.
Qed.

Lemma strip_cells_rectangular ks df :
  rectangular df →
  rectangular
    (mkDF (columns df)
       (map (λ r, zip_with (strip_cell ks) (columns df) r) (rows df))).
Proof.
  unfold rectangular. simpl. intros Hrect. apply Forall_forall.
  intros r' (r & -> & Hr)%list_elem_of_fmap.
  rewrite length_zip_with.
  rewrite (proj1 (Forall_forall _ _) Hrect r) by done.
  lia.
Qed.

(** The whole loop: every key column the frame has is stripped once. *)
Lemma strip_keys_form keys : ∀ df,
  rectangular df →
  _strip_primary_key_columns df keys
  = mkDF (columns df)
      (map (λ r, zip_with (strip_cell keys) (columns df) r) (rows df)).
Proof.
  unfold _strip_primary_key_columns.
  induction keys as [|k ks IH]; intros df Hrect.
  - simpl. destruct df as [cols rs]. simpl in *. f_equal. symmetry.
    rewrite <- (map_id rs) at 2. apply map_ext_in.
    intros r Hr%list_elem_of_In. apply zip_with_id_r.
    + by apply (proj1 (Forall_forall _ _) Hrect).
    + intros c v _. unfold strip_cell. rewrite decide_False; [done |].
      by intros ?%elem_of_nil.
  - cbn [foldl]. rewrite strip_column_form by done.
    rewrite IH by (by apply strip_cells_rectangular). simpl.
    f_equal. rewrite map_map. apply map_ext. intros r.
    rewrite zip_with_twice. apply zip_with_ext_in. intros c v _.
    apply strip_cell_cons.
Qed.

Lemma row_get_zip_with (f : string → cell → cell) cols r c :
  c ∈ cols → length r = length cols →
  row_get cols (zip_with f cols r) c = f c (row_get cols r c).
Proof.
  intros Hc Hlen. unfold row_get.
  destruct (index_of_elem c cols Hc) as [j Hj]. rewrite Hj.
  apply index_of_Some in Hj. rewrite lookup_zip_with, Hj. simpl.
  destruct (r !! j) as [v |] eqn:Hv; [done |].
  apply lookup_ge_None in Hv. apply lookup_lt_Some in Hj. lia.
Qed.

(** X16. On a table as the readers produce it (distinct column labels,
    rows as wide as the header), [_strip_primary_key_columns] keeps the
    labels and the number of rows, replaces every cell of a column listed
    among the key columns by its stripped text, a missing cell becoming the
    text [nan], and leaves every other cell as it is; key columns the table
    does not have are ignored.  Stripping twice is stripping once. *)
Theorem X16_strip_key_columns (df : DataFrame) (key_columns : list string) :
  NoDup (columns df) → rectangular df →
  let out := _strip_primary_key_columns df key_columns in
  columns out = columns df
  ∧ nrows out = nrows df
  ∧ (∀ i r c, rows df !! i = Some r → c ∈ columns df →
       iloc out i c
       = if decide (c ∈ key_columns)
         then Some (Py.strip (default "nan" (row_get (columns df) r c)))
         else row_get (columns df) r c)
  ∧ _strip_primary_key_columns out key_columns = out.
Proof.
  intros _ Hrect out. subst out.
  rewrite (strip_keys_form key_columns df Hrect).
  split; [done |]. split; [unfold nrows; simpl; by rewrite length_map |].
  split.
  - intros i r c Hr Hc. unfold iloc. simpl.
    change (map ?f (rows df)) with (f <$> rows df).
    rewrite list_lookup_fmap, Hr. simpl.
    rewrite row_get_zip_with; [done | done |].
    by apply (proj1 (Forall_forall _ _) Hrect), list_elem_of_lookup_2 with i.
  - rewrite strip_keys_form by (by apply strip_cells_rectangular).
    simpl. f_equal. rewrite map_map. apply map_ext. intros r.
    rewrite zip_with_twice. apply zip_with_ext_in. intros c v _.
    apply strip_cell_idem.
Qed.

(** X16 at a sample: the key [ k2] of the second row loses its blank, and
    the column [A] is left alone. *)
Lemma X16_strip_key_columns_witness :
  let out := _strip_primary_key_columns SampleMerge.a ["K"; "Id"] in
  NoDup (columns SampleMerge.a) ∧ rectangular SampleMerge.a
  ∧ iloc out 1 "K" = Some "k2" ∧ iloc out 1 "A" = Some "2"
  ∧ _strip_primary_key_columns out ["K"; "Id"] = out.
Proof.
  intros out.
  assert (NoDup (columns SampleMerge.a)) as Hnd by compute_done.
  assert (rectangular SampleMerge.a) as Hrect by (repeat constructor).
  split; [exact Hnd |]. split; [exact Hrect |].
  destruct (X16_strip_key_columns SampleMerge.a ["K"; "Id"] Hnd Hrect)
    as (_ & _ & Hcell & Hidem).
  subst out.
  split; [| split; [| exact Hidem]].
  - rewrite (Hcell 1 [Some " k2"; Some "2"] "K" eq_refl); [| compute_done].
    vm_compute. reflexivity.
  - rewrite (Hcell 1 [Some " k2"; Some "2"] "A" eq_refl); [| compute_done].
    vm_compute. reflexivity.
Defined.

(** ** From the merged table back to the files *)

(** A list made of blocks, one per element of [l], whose lengths a second
    list [ts] records: the element at position [i] is in the block whose
    cumulative range holds [i]. *)
Lemma lookup_flat_map_blocks {A B T} (f : nat * A → list B) (g : T → nat)
    (l : list A) : ∀ (ts : list T) (s i k : nat) (x : A) (t : T),
  (∀ j y, l !! j = Some y →
     ∃ u, ts !! j = Some u ∧ length (f (s + j, y)) = g u) →
  l !! k = Some x → ts !! k = Some t →
  sum_list_with g (take k ts) ≤ i →
  i < sum_list_with g (take k ts) + g t →
  flat_map f (enumerate_from s l) !! i
  = f (s + k, x) !! (i - sum_list_with g (take k ts)).
Proof.
  induction l as [|y l IH]; intros ts s i k x t Hlen Hk Ht Hlo Hhi;
    [done |].
  destruct (Hlen 0 y eq_refl) as (u & Hu & Hlu).
  destruct ts as [|u' ts]; [done |]. injection Hu as ->.
  cbn [enumerate_from flat_map]. rewrite Nat.add_0_r in Hlu.
  destruct k as [|k].
  - injection Hk as ->. injection Ht as ->. simpl in *.
    rewrite Nat.sub_0_r, Nat.add_0_r. by rewrite lookup_app_l by lia.
  - simpl in Hk, Ht, Hlo, Hhi. rewrite lookup_app_r by lia.
    rewrite (IH ts (S s) (i - length (f (s, y))) k x t); try done; try lia.
    + simpl. rewrite Nat.add_succ_r. f_equal. lia.
    + intros j z Hj. destruct (Hlen (S j) z Hj) as (u' & Hu' & Hl').
      exists u'. split; [done |]. by rewrite <- Hl', Nat.add_succ_r.
Qed.

Lemma length_flat_map_blocks {A B T} (f : nat * A → list B) (g : T → nat)
    (l : list A) : ∀ (ts : list T) (s : nat),
  (∀ j y, l !! j = Some y →
     ∃ u, ts !! j = Some u ∧ length (f (s + j, y)) = g u) →
  length ts = length l →
  length (flat_map f (enumerate_from s l)) = sum_list_with g ts.
Proof.
  induction l as [|y l IH]; intros ts s Hblocks Hlen.
  - by destruct ts.
  - destruct ts as [|u ts]; [done |].
    destruct (Hblocks 0 y eq_refl) as (u' & [= <-] & Hl0).
    rewrite Nat.add_0_r in Hl0.
    cbn [enumerate_from flat_map sum_list_with].
    rewrite length_app, Hl0. f_equal.
    apply IH; [| simpl in Hlen; lia].
    intros j z Hj. destruct (Hblocks (S j) z Hj) as (u' & Hu' & Hl').
    exists u'. split; [done |]. by rewrite <- Hl', Nat.add_succ_r.
Qed.

Lemma index_of_None c cols : c ∉ cols → index_of c cols = None.
Proof.
  induction cols as [|d cols IH]; intros Hc; simpl; [done |].
  rewrite decide_False by (intros ->; apply Hc; left).
  rewrite IH; [done |]. intros ?. apply Hc. by right.
Qed.

Section RowSource.
Context `{RT : Runtime}.

(** The rows a file brings are as many as its entry records, when the
    entry is no Fatal Mismatch. *)
Lemma contributed_length cols j fp t :
  described cols j fp t → status t ≠ st_fatal_mismatch →
  length (contributed cols j fp) = row_count t.
Proof.
  unfold described, contributed. intros [_ Hd] Hst.
  destruct (_read_table fp) as [e | d].
  { by destruct Hd as (_ & -> & _). }
  destruct Hd as (-> & _ & Hd).
  destruct (decide (mismatched cols j d)); [by destruct Hd as (? & _) |].
  unfold reindex, nrows. simpl. by rewrite length_map.
Qed.

End RowSource.

(** X17. After a stacked merge (no primary-key columns) that returns
    without a top-level error and skips no file as a Fatal Mismatch, the
    walk of [_row_index_to_file_index] over the report finds, for every row
    of the merged table, the file the row was read from: the row is the row
    of that file at the offset of the index in the range of the entry,
    aligned on the baseline in use, and the [missing_columns] of the entry
    are the baseline columns the file lacks.  Hence the scan of the merged
    table under its report flags a cell [null_structural] exactly when the
    file its row was read from lacks the column. *)
Theorem X17_stacked_row_source `{RT : Runtime} (file_paths : list string)
    (baseline_columns : option (list string)) (template_incremental : bool)
    (primary_key_columns : option (list string))
    (df : DataFrame) (rep : Report) (self : DataHealthScanner) :
  default [] primary_key_columns = [] →
  merge_and_report file_paths baseline_columns template_incremental
    primary_key_columns = Returned df rep →
  error rep = None →
  Forall (λ t, status t ≠ st_fatal_mismatch) (tables rep) →
  let cols := baseline_in_use file_paths baseline_columns
                template_incremental in
  ∀ i r, rows df !! i = Some r →
    let k := _row_index_to_file_index i rep in
    ∃ fp d r0,
      file_paths !! k = Some fp ∧ _read_table fp = inr d
      ∧ rows_before rep k ≤ i
      ∧ rows d !! (i - rows_before rep k) = Some r0
      ∧ r = map (row_get (columns d) r0) cols
      ∧ missing_of rep k = filter (λ c, c ∉ columns d) cols
      ∧ ∀ c, mkDefect i c null_structural structural
               ∈ errors (scan self df rep)
             ↔ c ∈ cols ∧ c ∉ columns d.
Proof.
  intros Hkeys Hret Herr Hnofatal cols i r Hr k.
  destruct (merge_returned_run _ _ _ _ _ _ Hret Herr)
    as (fp0 & rest & st & Hfps & (_ & Hm & Hall & _) & _ & Hfin).
  fold cols in Hm, Hall. rewrite Hkeys in Hm, Hfin.
  apply finish_facts in Hfin as (_ & _ & _ & _ & _ & Hrate & Hend).
  destruct (describe_all_up_to_rate _ 0 file_paths _ _ Hrate Hall)
    as [Hlen Hdesc]. clear Hall Hrate.
  (* the merged table is the stack of the frames kept *)
  assert (rows df
          = flat_map (λ ifp : nat * string, contributed cols ifp.1 ifp.2)
              (enumerate_from 0 file_paths)
          ∧ (rows df ≠ [] → columns df = cols)) as [Hrows Hcols].
  { destruct (kept_frames_stack template_incremental cols file_paths 0)
      as [Haligned Hstack].
    rewrite Hm in Hend. rewrite <- Hstack.
    destruct (kept_frames [] template_incremental cols 0 file_paths)
      as [|d ds].
    { subst df. done. }
    destruct Hend as [rep' Hcomb]. unfold combine in Hcomb.
    injection Hcomb as <- _. by rewrite (pd_concat_aligned cols). }
  assert (columns df = cols) as Hdfcols
    by (apply Hcols; intros Hnil; by rewrite Hnil in Hr).
  clear Hcols Hend Hm.
  (* every file brings as many rows as its entry records *)
  assert (∀ j fp, file_paths !! j = Some fp →
            ∃ t, tables rep !! j = Some t
              ∧ length (contributed cols (0 + j) fp) = row_count t)
    as Hblocks.
  { intros j fp Hj. destruct (Hdesc j fp Hj) as (t & Ht & Hd).
    exists t. split; [done |]. apply contributed_length; [done |].
    by apply (proj1 (Forall_forall _ _) Hnofatal),
       list_elem_of_lookup_2 with j. }
  (* the walk finds the block of the row *)
  assert (i < sum_list_with row_count (tables rep)) as Hi.
  { rewrite <- (length_flat_map_blocks
                  (λ ifp : nat * string, contributed cols ifp.1 ifp.2)
                  row_count file_paths (tables rep) 0 Hblocks Hlen).
    rewrite <- Hrows. by eapply lookup_lt_Some. }
  destruct (file_index_from_spec i 0 0 (tables rep)) as [Hwalk _]; [lia |].
  destruct Hwalk as (j & t & Hk & Ht & Hlo & Hhi); [simpl; lia |].
  simpl in Hk, Hlo, Hhi. fold (_row_index_to_file_index i rep) in Hk.
  fold k in Hk. subst j. fold (rows_before rep k) in Hlo, Hhi.
  assert (is_Some (file_paths !! k)) as [fp Hfp].
  { apply lookup_lt_is_Some. rewrite <- Hlen. by eapply lookup_lt_Some. }
  rewrite Hrows in Hr.
  rewrite (lookup_flat_map_blocks _ row_count file_paths (tables rep) 0 i k
             fp t Hblocks Hfp Ht Hlo Hhi) in Hr.
  fold (rows_before rep k) in Hr. simpl in Hr.
  destruct (Hdesc k fp Hfp) as (t' & Ht' & _ & Hd).
  rewrite Ht in Ht'. injection Ht' as <-.
  unfold contributed in Hr.
  destruct (_read_table fp) as [e | d] eqn:Hread; [done |].
  destruct Hd as (_ & _ & Hd). rewrite Nat.add_0_l in Hd.
  destruct (decide (mismatched cols k d)); [done |].
  destruct Hd as (_ & Hmiss & _).
  unfold reindex in Hr. simpl in Hr.
  change (map ?f (rows d)) with (f <$> rows d) in Hr.
  rewrite list_lookup_fmap in Hr.
  destruct (rows d !! (i - rows_before rep k)) as [r0 |] eqn:Hr0; [| done].
  injection Hr as <-.
  assert (missing_of rep k = filter (λ c, c ∉ columns d) cols) as Hmis
    by (unfold missing_of; by rewrite Ht).
  exists fp, d, r0. do 5 (split; [done |]).
  split; [exact Hmis |].
  assert (rows df !! i = Some (map (row_get (columns d) r0) cols)) as Hrow.
  { rewrite Hrows.
    rewrite (lookup_flat_map_blocks _ row_count file_paths (tables rep) 0 i
               k fp t Hblocks Hfp Ht Hlo Hhi).
    fold (rows_before rep k). simpl. unfold contributed.
    rewrite Hread. rewrite decide_False by done.
    unfold reindex. simpl.
    change (map ?f (rows d)) with (f <$> rows d).
    by rewrite list_lookup_fmap, Hr0. }
  intros c. simpl. split.
  - intros He.
    destruct (scan_errors_elem self df rep _ He) as [Hn | [Hsev _]];
      [| done].
    apply null_pass_elem in Hn as (i' & r' & _ & _ & _ & Heq). simpl in Heq.
    destruct (bool_decide_reflect
                (c ∈ missing_of rep (_row_index_to_file_index i' rep)))
      as [Hin | _]; [| done].
    injection Heq as <-. fold k in Hin. rewrite Hmis in Hin.
    by apply list_elem_of_filter in Hin as [? ?].
  - intros [Hc Hnc]. unfold scan_errors. apply elem_of_app. left.
    apply null_pass_elem. exists i, (map (row_get (columns d) r0) cols).
    simpl. rewrite Hdfcols. split; [done |]. split; [done |]. split.
    + rewrite row_get_map by done. unfold row_get.
      by rewrite index_of_None.
    + fold k. rewrite bool_decide_eq_true_2; [done |]. rewrite Hmis.
      by apply list_elem_of_filter.
Qed.

(** X17 at a sample: row 3 of the stack of [a.csv], [b.csv] and [c.txt] is
    the second row of [b.csv], which has no column [A]: its cell in [A] is
    reported as a structural null, its cell in [K] is not. *)
Lemma X17_stacked_row_source_witness :
  let fps := ["a.csv"; "b.csv"; "c.txt"] in
  ∃ df rep,
    merge_and_report (RT := Ref.runtime SampleMerge.files) fps None false
      None = Returned df rep
    ∧ error rep = None
    ∧ Forall (λ t, status t ≠ st_fatal_mismatch) (tables rep)
    ∧ rows df !! 3 = Some [Some "k1"; None]
    ∧ _row_index_to_file_index 3 rep = 1
    ∧ mkDefect 3 "A" null_structural structural
      ∈ errors (scan (RT := Ref.runtime SampleMerge.files) Sample.scanner df
                  rep)
    ∧ mkDefect 3 "K" null_structural structural
      ∉ errors (scan (RT := Ref.runtime SampleMerge.files) Sample.scanner df
                  rep).
Proof.
  intros fps.
  assert (∃ df rep,
    merge_and_report (RT := Ref.runtime SampleMerge.files) fps None false
      None = Returned df rep
    ∧ error rep = None
    ∧ Forall (λ t, status t ≠ st_fatal_mismatch) (tables rep)
    ∧ rows df !! 3 = Some [Some "k1"; None]
    ∧ _row_index_to_file_index 3 rep = 1)
    as (df & rep & Hm & He & Hnf & Hr & Hk).
  { eexists _, _. split; [vm_compute; reflexivity |].
    split; [vm_compute; reflexivity |].
    split; [| split; vm_compute; reflexivity].
    repeat (apply Forall_cons; split; [by vm_compute |]). constructor. }
  exists df, rep. do 5 (split; [done |]).
  destruct (X17_stacked_row_source (RT := Ref.runtime SampleMerge.files) fps
              None false None df rep Sample.scanner eq_refl Hm He Hnf 3 _ Hr)
    as (fp & d & r0 & Hfp & Hread & _ & _ & _ & _ & Hscan).
  rewrite Hk in Hfp. injection Hfp as <-.
  assert (d = SampleMerge.b) as ->.
  { assert (_read_table (RT := Ref.runtime SampleMerge.files) "b.csv"
            = inr SampleMerge.b) as Hb by (vm_compute; reflexivity).
    rewrite Hb in Hread. by injection Hread. }
  split.
  - apply Hscan. split; compute_done.
  - intros Hin. apply Hscan in Hin as [_ Hnot]. apply Hnot. compute_done.
Defined.

(** * Properties of the header analysis *)

Section HeaderFacts.
Context `{HR : HeaderReaders}.

Lemma filter_not_in_self (h : list string) : filter (λ c, c ∉ h) h = [].
Proof. apply filter_none. intros c Hc Hn. by apply Hn. Qed.

(** The loop of the analysis once the baseline is fixed. *)
Lemma headers_fold_some entries : ∀ b out,
  foldl headers_step (Some b, b, out) entries
  = (Some b, b, out ++ map (header_entry b) entries).
Proof.
  induction entries as [|[name content] entries IH]; intros b out; simpl.
  - by rewrite app_nil_r.
  - unfold header_entry at 1. simpl.
    destruct (_read_header_columns_from_bytes content name) as [e | h];
      rewrite IH, <- app_assoc; done.
Qed.

(** The loop before the baseline is fixed. *)
Lemma headers_fold_none entries : ∀ out,
  let base := default [] (head (readable_headers entries)) in
  ∃ o, foldl headers_step (None, [], out) entries
       = (o, base, out ++ map (header_entry base) entries).
Proof.
  induction entries as [|[name content] entries IH]; intros out; simpl.
  - exists None. by rewrite app_nil_r.
  - unfold readable_headers, header_entry at 1. simpl.
    destruct (_read_header_columns_from_bytes content name) as [e | h].
    + destruct (IH (out ++ [mkHeaderEntry name [] [] 0 (Some e)]))
        as [o Ho].
      exists o. rewrite Ho, <- app_assoc. done.
    + exists (Some h). simpl. rewrite headers_fold_some, <- app_assoc.
      simpl. by rewrite filter_not_in_self.
Qed.

End HeaderFacts.

(** X18. The header analysis takes as baseline the header of the first
    file whose header can be read (no column when there is none), and
    gives one entry per file, in the order of the files: for a file whose
    header cannot be read the text of the exception, and otherwise the
    baseline columns the header lacks, the labels of the header outside
    the baseline, both in their order, and the number of rows. *)
Theorem X18_header_analysis `{HR : HeaderReaders}
    (file_entries : list (string * string)) :
  let rep := analyze_headers_only_from_contents file_entries in
  let base := default [] (head (readable_headers file_entries)) in
  base_columns rep = base
  ∧ files rep = map (header_entry base) file_entries.
Proof.
  intros rep base. subst rep base.
  unfold analyze_headers_only_from_contents.
  destruct file_entries as [|nc entries]; [done |].
  destruct (headers_fold_none (nc :: entries) []) as [o Ho].
  cbv zeta in Ho. by rewrite Ho.
Qed.

(** ** The order of the intersection *)

Section KeyOrder.
Variable base : list string.

Lemma key_le_trans : Transitive (key_le base).
Proof.
  intros c d e [Hcd | [Hcd Hs]] [Hde | [Hde Hs']]; unfold key_le;
    [left; lia | left; lia | left; lia |].
  right. split; [lia | by etrans].
Qed.

Lemma key_le_total : Total (key_le base).
Proof.
  intros c d. unfold key_le.
  destruct (Nat.lt_trichotomy (index_key base c) (index_key base d))
    as [? | [Heq | ?]]; [by left; left | | by right; left].
  destruct (stdpp.base.total String.le c d); [left | right]; right; split; done.
Qed.

Lemma key_le_antisym : AntiSymm (=) (key_le base).
Proof.
  intros c d [Hcd | [Hcd Hs]] [Hdc | [Hdc Hs']]; try lia.
  by apply (anti_symm String.le).
Qed.

Lemma index_key_lookup i c :
  NoDup base → base !! i = Some c → index_key base c = i.
Proof.
  intros Hnd Hi. unfold index_key. by rewrite (index_of_lookup base i c).
Qed.

Lemma StronglySorted_filter {A} (R : relation A) (P : A → Prop)
    `{∀ x, Decision (P x)} (l : list A) :
  StronglySorted R l → StronglySorted R (filter P l).
Proof.
  induction 1 as [|x l Hl IH Hx]; [constructor |].
  destruct (decide (P x)).
  - rewrite filter_cons_True by done. constructor; [done |].
    apply Forall_forall. intros y [_ Hy]%list_elem_of_filter.
    by apply (proj1 (Forall_forall _ _) Hx).
  - by rewrite filter_cons_False.
Qed.

Lemma base_sorted : NoDup base → StronglySorted (key_le base) base.
Proof.
  intros Hnd.
  assert (∀ l k, base = k ++ l → StronglySorted (key_le base) l) as Hgen.
  { induction l as [|c l IH]; intros k Hk; [constructor |].
    constructor.
    - apply (IH (k ++ [c])). by rewrite <- app_assoc.
    - apply Forall_forall. intros d Hd.
      apply list_elem_of_lookup in Hd as [j Hj]. left.
      rewrite (index_key_lookup (length k) c); [| done |].
      2:{ rewrite Hk. by rewrite list_lookup_middle. }
      rewrite (index_key_lookup (length k + S j) d); [lia | done |].
      rewrite Hk, lookup_app_r by lia.
      replace (length k + S j - length k) with (S j) by lia. done. }
  by apply (Hgen base []).
Qed.

(** Sorting a set of baseline columns by the key of the intersection puts
    them in the order of the baseline. *)
Lemma sort_by_key (X : gset string) (P : string → Prop)
    `{∀ c, Decision (P c)} :
  NoDup base → (∀ c, c ∈ X ↔ c ∈ base ∧ P c) →
  merge_sort (key_le base) (elements X) = filter P base.
Proof.
  intros Hnd HX.
  apply (@StronglySorted_unique _ (key_le base) key_le_antisym).
  - apply (@StronglySorted_merge_sort _ (key_le base) _ key_le_trans
             key_le_total).
  - by apply StronglySorted_filter, base_sorted.
  - rewrite merge_sort_Permutation. apply NoDup_Permutation.
    + apply NoDup_elements.
    + by apply NoDup_filter.
    + intros c. rewrite elem_of_elements, HX, list_elem_of_filter. tauto.
Qed.

End KeyOrder.

(** ** The sets of the strategy *)

Lemma foldl_inter_elem (c : string) (rest : list (gset string)) :
  ∀ s0, c ∈ foldl (∩) s0 rest ↔ ∀ s, s ∈ s0 :: rest → c ∈ s.
Proof.
  induction rest as [|s rest IH]; intros s0; simpl.
  - split; [by intros Hc s ->%list_elem_of_singleton |].
    intros Hc. apply Hc. by left.
  - rewrite IH. split.
    + intros Hall t Ht.
      assert (c ∈ s0 ∩ s) as [H0 Hs]%elem_of_intersection
        by (apply Hall; by left).
      apply elem_of_cons in Ht as [-> | Ht]; [done |].
      apply elem_of_cons in Ht as [-> | Ht]; [done |].
      apply Hall. by right.
    + intros Hall t Ht. apply elem_of_cons in Ht as [-> | Ht].
      * apply elem_of_intersection. split; apply Hall;
          [by left | by right; left].
      * apply Hall. by do 2 right.
Qed.

Lemma foldl_union_elem (c : string) (l : list (gset string)) :
  ∀ s0, c ∈ foldl (∪) s0 l ↔ c ∈ s0 ∨ ∃ s, s ∈ l ∧ c ∈ s.
Proof.
  induction l as [|s l IH]; intros s0; simpl.
  - split; [by left | intros [? | (s & Hs & _)]; [done |]].
    by apply elem_of_nil in Hs.
  - rewrite IH, elem_of_union. split.
    + intros [[? | ?] | (t & Ht & Hc)]; [by left | |].
      * right. exists s. split; [by left | done].
      * right. exists t. split; [by right | done].
    + intros [? | (t & Ht & Hc)]; [by left; left |].
      apply elem_of_cons in Ht as [-> | Ht]; [by left; right |].
      right. by exists t.
Qed.

Lemma file_sets_elem base ents s :
  s ∈ file_sets base ents ↔
  ∃ i ent, ents !! i = Some ent ∧ has_error ent = false
    ∧ s = if Nat.eqb i 0 then list_to_set base
          else (list_to_set base ∖ list_to_set (h_missing ent))
               ∪ list_to_set (h_extra ent).
Proof.
  unfold file_sets. rewrite list_elem_of_omap. split.
  - intros ([i ent] & Hin & Hs).
    apply enumerate_from_lookup in Hin as [_ Hi].
    rewrite Nat.sub_0_r in Hi. exists i, ent.
    destruct (has_error ent); [done |].
    split; [done |]. split; [done |].
    destruct (Nat.eqb i 0); by apply (inj Some) in Hs.
  - intros (i & ent & Hi & He & ->). exists (i, ent). split.
    + apply enumerate_from_lookup. rewrite Nat.sub_0_r. split; [lia | done].
    + rewrite He. by destruct (Nat.eqb i 0).
Qed.

Lemma header_set (base h : list string) :
  (list_to_set base ∖ list_to_set (filter (λ c, c ∉ h) base))
  ∪ list_to_set (filter (λ c, c ∉ base) h)
  = (list_to_set h : gset string).
Proof.
  apply set_eq. intros c.
  rewrite elem_of_union, elem_of_difference, !elem_of_list_to_set,
    !list_elem_of_filter.
  destruct (decide (c ∈ h)), (decide (c ∈ base)); tauto.
Qed.

Section StrategyFacts.
Context `{HR : HeaderReaders}.

Lemma readable_headers_elem entries h :
  h ∈ readable_headers entries ↔
  ∃ i nc, entries !! i = Some nc
    ∧ _read_header_columns_from_bytes nc.2 nc.1 = inr h.
Proof.
  unfold readable_headers. rewrite list_elem_of_omap. split.
  - intros (nc & [i Hi]%list_elem_of_lookup & Hh). exists i, nc.
    split; [done |].
    destruct (_read_header_columns_from_bytes nc.2 nc.1); [done |].
    by apply (inj Some) in Hh as ->.
  - intros (i & nc & Hi & Hh). exists nc.
    split; [by eapply list_elem_of_lookup_2 |]. by rewrite Hh.
Qed.

Lemma readable_headers_first entries nc h :
  entries !! 0 = Some nc →
  _read_header_columns_from_bytes nc.2 nc.1 = inr h →
  head (readable_headers entries) = Some h.
Proof.
  destruct entries as [|nc' entries]; [done |]. simpl.
  intros [= ->] Hh. unfold readable_headers. simpl. by rewrite Hh.
Qed.

(** Every set of the strategy is the set of the baseline or the set of a
    header that could be read. *)
Lemma file_sets_sound entries s :
  let heads := readable_headers entries in
  let base := default [] (head heads) in
  s ∈ file_sets base (map (header_entry base) entries) →
  s = list_to_set base ∨ ∃ h, h ∈ heads ∧ s = list_to_set h.
Proof.
  intros heads base (i & ent & Hi & He & ->)%file_sets_elem.
  destruct (Nat.eqb i 0); [by left |].
  rewrite list_lookup_fmap in Hi.
  destruct (entries !! i) as [nc|] eqn:Hnc; [| done].
  apply (inj Some) in Hi as <-.
  unfold header_entry in *.
  destruct (_read_header_columns_from_bytes nc.2 nc.1) as [e | h] eqn:Hh.
  - left. simpl. apply set_eq. intros c.
    rewrite elem_of_union, elem_of_difference, elem_of_empty. tauto.
  - right. exists h. split.
    + apply readable_headers_elem. by exists i, nc.
    + simpl. apply header_set.
Qed.

(** Every header that could be read gives one of the sets. *)
Lemma file_sets_complete entries h :
  let heads := readable_headers entries in
  let base := default [] (head heads) in
  h ∈ heads →
  list_to_set h ∈ file_sets base (map (header_entry base) entries).
Proof.
  intros heads base (i & nc & Hi & Hh)%readable_headers_elem.
  apply file_sets_elem. exists i, (header_entry base nc).
  rewrite list_lookup_fmap, Hi. split; [done |].
  unfold header_entry. rewrite Hh. simpl. split; [done |].
  destruct i as [|i]; simpl.
  - subst base heads. by rewrite (readable_headers_first entries nc h).
  - by rewrite header_set.
Qed.

Lemma baseline_is_head entries :
  let heads := readable_headers entries in
  let base := default [] (head heads) in
  (heads = [] ∧ base = []) ∨ base ∈ heads.
Proof.
  intros heads base. subst base. destruct heads as [|h heads].
  - by left.
  - right. simpl. by left.
Qed.

(** The closed form of the analysis. *)
Lemma analyze_headers_form (entries : list (string * string)) :
  let base := default [] (head (readable_headers entries)) in
  analyze_headers_only_from_contents entries
  = mkHeaderReport base (map (header_entry base) entries).
Proof.
  intros base. subst base. destruct entries as [|nc entries]; [done |].
  unfold analyze_headers_only_from_contents.
  destruct (headers_fold_none (nc :: entries) []) as [o Ho].
  cbv zeta in Ho. by rewrite Ho.
Qed.

Lemma strategy_sets entries :
  let heads := readable_headers entries in
  let base := default [] (head heads) in
  let all_sets := file_sets base (map (header_entry base) entries) in
  let iu :=
    match all_sets with
    | [] => (list_to_set base : gset string, list_to_set base)
    | s0 :: rest => (foldl (∩) s0 rest, foldl (∪) ∅ all_sets)
    end in
  (∀ c, c ∈ iu.1 ↔ c ∈ base ∧ Forall (λ h, c ∈ h) heads)
  ∧ (∀ c, c ∈ iu.2 ↔ ∃ h, h ∈ heads ∧ c ∈ h).
Proof.
  intros heads base all_sets iu.
  pose proof (file_sets_sound entries) as Hsound.
  pose proof (file_sets_complete entries) as Hcomplete.
  pose proof (baseline_is_head entries) as Hbase.
  cbv zeta in Hsound, Hcomplete, Hbase.
  fold heads in Hsound, Hcomplete, Hbase.
  fold base in Hsound, Hcomplete, Hbase.
  fold all_sets in Hsound, Hcomplete.
  assert (heads ≠ [] → base ∈ heads) as Hne.
  { intros Hn. by destruct Hbase as [[? _] | ?]. }
  assert (base ≠ [] → base ∈ heads) as Hne'.
  { intros Hn. by destruct Hbase as [[_ ?] | ?]. }
  subst iu. destruct all_sets as [|s0 rest] eqn:Hall; cbn [fst snd].
  - assert (heads = []) as Hh.
    { destruct heads as [|h hs] eqn:Hheads; [done |].
      assert (h ∈ h :: hs) as Hin by (by left).
      apply Hcomplete in Hin. by apply elem_of_nil in Hin. }
    assert (base = []) as Hb.
    { destruct Hbase as [[_ ?] | Hin]; [done |].
      rewrite Hh in Hin. by apply elem_of_nil in Hin. }
    rewrite Hh, Hb. split; intros c; rewrite elem_of_list_to_set.
    + split; [intros []%elem_of_nil | by intros [[]%elem_of_nil _]].
    + split; [intros []%elem_of_nil |].
      by intros (h & []%elem_of_nil & _).
  - split; intros c.
    + rewrite foldl_inter_elem, Forall_forall. split.
      * intros Hc.
        assert (c ∈ base) as Hcb.
        { destruct (Hsound s0) as [Hs | (h & Hh & Hs)]; [by left | |].
          - rewrite <- (elem_of_list_to_set (C := gset string)), <- Hs.
            apply Hc. by left.
          - rewrite <- (elem_of_list_to_set (C := gset string)).
            apply Hc, Hcomplete, Hne. intros Hn. rewrite Hn in Hh.
            by apply elem_of_nil in Hh. }
        split; [done |]. intros h Hh.
        rewrite <- (elem_of_list_to_set (C := gset string)).
        by apply Hc, Hcomplete.
      * intros [Hcb Hc] s Hs.
        destruct (Hsound s Hs) as [-> | (h & Hh & ->)];
          rewrite elem_of_list_to_set; [done | by apply Hc].
    + rewrite foldl_union_elem. split.
      * intros [[]%elem_of_empty | (s & Hs & Hc)].
        destruct (Hsound s Hs) as [-> | (h & Hh & ->)];
          rewrite elem_of_list_to_set in Hc.
        -- exists base. split; [| done]. apply Hne'. intros Hn.
           rewrite Hn in Hc. by apply elem_of_nil in Hc.
        -- by exists h.
      * intros (h & Hh & Hc). right. exists (list_to_set h).
        split; [by apply Hcomplete |]. by rewrite elem_of_list_to_set.
Qed.

End StrategyFacts.

(** ** The columns of the strategy *)

Lemma strategy_columns (b : HeaderReport) :
  let all_sets := file_sets (base_columns b) (files b) in
  let iu :=
    match all_sets with
    | [] =>
        (list_to_set (base_columns b) : gset string,
         list_to_set (base_columns b))
    | s0 :: rest => (foldl (∩) s0 rest, foldl (∪) ∅ all_sets)
    end in
  columns_intersection (_strategy_from_base b)
  = merge_sort (key_le (base_columns b)) (elements iu.1)
  ∧ columns_union (_strategy_from_base b)
    = base_columns b
      ++ merge_sort String.le
           (elements (iu.2 ∖ list_to_set (base_columns b))).
Proof.
  destruct b as [bc fs]. unfold _strategy_from_base.
  cbn [base_columns files].
  destruct bc as [|c bc], fs as [|f fs];
    try (destruct (file_sets _ _); done).
  cbn [file_sets enumerate_from omap list_omap columns_intersection
       columns_union fst snd list_to_set].
  by rewrite difference_diag_L, elements_empty.
Qed.

Section StrategyColumns.
Context `{HR : HeaderReaders}.

Lemma with_strategy_columns entries with_preview preview_extend_extra :
  let s := analyze_headers_with_strategy_from_contents entries with_preview
             preview_extend_extra in
  let out :=
    _strategy_from_base (analyze_headers_only_from_contents entries) in
  columns_intersection s = columns_intersection out
  ∧ columns_union s = columns_union out
  ∧ suggested_primary_key s = suggested_primary_key out.
Proof.
  unfold analyze_headers_with_strategy_from_contents.
  destruct with_preview,
    (base_columns (analyze_headers_only_from_contents entries)), entries;
    done.
Qed.

End StrategyColumns.

(** X19: the columns common to the files.  [columns_intersection] of the
    strategy holds the columns of the baseline (the header of the first
    file that can be read) that every readable header has, in the order of
    the baseline, when the baseline repeats no label. *)
Theorem X19_columns_intersection `{HR : HeaderReaders}
    (file_entries : list (string * string))
    (with_preview preview_extend_extra : bool) :
  let heads := readable_headers file_entries in
  let base := default [] (head heads) in
  let s := analyze_headers_with_strategy_from_contents file_entries
             with_preview preview_extend_extra in
  NoDup base →
  columns_intersection s = filter (λ c, Forall (λ h, c ∈ h) heads) base.
Proof.
  intros heads base s Hnd. subst s.
  destruct (with_strategy_columns file_entries with_preview
              preview_extend_extra) as [-> _].
  rewrite analyze_headers_form. fold heads. fold base.
  destruct (strategy_columns
    (mkHeaderReport base (map (header_entry base) file_entries)))
    as [-> _].
  cbn [base_columns files].
  apply sort_by_key; [done |].
  apply (strategy_sets file_entries).
Qed.

(** X19 at a sample: of the uploads [broken.csv], [a.csv] and [b.xlsx] the
    baseline is the header [K], [A] of [a.csv], and [K] is the only column
    that [b.xlsx] has too. *)
Lemma X19_columns_intersection_witness :
  let HR := SampleHeaders.readers SampleHeaders.store in
  default [] (head (readable_headers SampleHeaders.uploads)) = ["K"; "A"]
  ∧ columns_intersection
      (analyze_headers_with_strategy_from_contents SampleHeaders.uploads
         true true) = ["K"].
Proof.
  intros HR.
  assert (default [] (head (readable_headers SampleHeaders.uploads))
          = ["K"; "A"]) as Hb by (vm_compute; reflexivity).
  split; [done |].
  rewrite (X19_columns_intersection SampleHeaders.uploads true true).
  - vm_compute. reflexivity.
  - rewrite Hb. compute_done.
Defined.

(** X20: the columns of any file.  [columns_union] of the strategy is the
    baseline followed by the labels of the readable headers that the
    baseline lacks, each once and in increasing order. *)
Theorem X20_columns_union `{HR : HeaderReaders}
    (file_entries : list (string * string))
    (with_preview preview_extend_extra : bool) :
  let heads := readable_headers file_entries in
  let base := default [] (head heads) in
  let s := analyze_headers_with_strategy_from_contents file_entries
             with_preview preview_extend_extra in
  ∃ others,
    columns_union s = base ++ others
    ∧ StronglySorted String.le others
    ∧ NoDup others
    ∧ ∀ c, c ∈ others ↔ (c ∉ base) ∧ ∃ h, h ∈ heads ∧ c ∈ h.
Proof.
  intros heads base s. subst s.
  destruct (with_strategy_columns file_entries with_preview
              preview_extend_extra) as (_ & -> & _).
  rewrite analyze_headers_form. fold heads. fold base.
  destruct (strategy_columns
    (mkHeaderReport base (map (header_entry base) file_entries)))
    as [_ ->].
  cbn [base_columns files].
  eexists. split; [done |]. split; [| split].
  - apply StronglySorted_merge_sort; apply _.
  - rewrite merge_sort_Permutation. apply NoDup_elements.
  - intros c.
    pose proof (proj2 (strategy_sets file_entries) c) as Hc.
    cbv zeta in Hc. fold heads in Hc. fold base in Hc.
    rewrite merge_sort_Permutation, elem_of_elements, elem_of_difference,
      elem_of_list_to_set, Hc. tauto.
Qed.

(** ** The suggested primary key *)

Lemma keyword_inner kw cols : ∀ acc,
  let out :=
    foldl (λ acc col,
      if str_in kw col && negb (bool_decide (col ∈ acc))
      then acc ++ [col] else acc) acc cols in
  (NoDup acc → NoDup out)
  ∧ ∀ c, c ∈ out ↔ c ∈ acc ∨ (c ∈ cols ∧ str_in kw c = true).
Proof.
  induction cols as [|col cols IH]; intros acc; simpl.
  - split; [done |]. intros c. split; [by left |].
    by intros [? | [[]%elem_of_nil _]].
  - destruct (str_in kw col) eqn:Hkw; simpl.
    + destruct (bool_decide_reflect (col ∈ acc)) as [Hin | Hin]; simpl.
      * destruct (IH acc) as [Hnd Hel]. split; [done |].
        intros c. rewrite Hel, elem_of_cons. split.
        -- intros [? | [? ?]]; [by left | right; split; [by right | done]].
        -- intros [? | [[-> | ?] ?]]; [by left | by left | by right].
      * destruct (IH (acc ++ [col])) as [Hnd Hel]. split.
        -- intros Ha. apply Hnd. apply NoDup_app. split; [done |].
           split; [| apply NoDup_singleton].
           by intros x Hx ->%list_elem_of_singleton.
        -- intros c. rewrite Hel, elem_of_app, list_elem_of_singleton,
             elem_of_cons. split.
           ++ intros [[? | ->] | [? ?]];
                [by left | right; split; [by left | done]
                | right; split; [by right | done]].
           ++ intros [? | [[-> | ?] ?]];
                [by left; left | by left; right | by right].
    + destruct (IH acc) as [Hnd Hel]. split; [done |].
      intros c. rewrite Hel, elem_of_cons. split.
      * intros [? | [? ?]]; [by left | right; split; [by right | done]].
      * intros [? | [[-> | ?] Hc]]; [by left | congruence | by right].
Qed.

Lemma keyword_outer cols kws : ∀ acc,
  let out :=
    foldl (λ acc kw,
      foldl (λ acc col,
        if str_in kw col && negb (bool_decide (col ∈ acc))
        then acc ++ [col] else acc) acc cols) acc kws in
  (NoDup acc → NoDup out)
  ∧ ∀ c, c ∈ out ↔
      c ∈ acc ∨ (c ∈ cols ∧ ∃ kw, kw ∈ kws ∧ str_in kw c = true).
Proof.
  induction kws as [|kw kws IH]; intros acc; simpl.
  - split; [done |]. intros c. split; [by left |].
    by intros [? | [_ (kw & []%elem_of_nil & _)]].
  - destruct (keyword_inner kw cols acc) as [Hnd1 Hel1].
    cbv zeta in Hnd1, Hel1.
    set (acc1 := foldl _ acc cols) in *.
    destruct (IH acc1) as [Hnd Hel]. split; [by intros ?; apply Hnd, Hnd1 |].
    intros c. rewrite Hel, Hel1. split.
    + intros [[? | [? ?]] | [? (k & ? & ?)]]; [by left | |].
      * right. split; [done |]. exists kw. split; [by left | done].
      * right. split; [done |]. exists k. split; [by right | done].
    + intros [? | [? (k & [-> | ?]%elem_of_cons & ?)]];
        [by left; left | by left; right |].
      right. split; [done |]. by exists k.
Qed.

Lemma strategy_key (b : HeaderReport) :
  let ci := columns_intersection (_strategy_from_base b) in
  suggested_primary_key (_strategy_from_base b)
  = match keyword_columns ci with
    | [] => take 2 ci
    | cols => cols
    end.
Proof.
  assert (∀ l : list string,
    (if Nat.leb 2 (length l) then take 2 l else take 1 l) = take 2 l) as Ht.
  { intros [|x [|y l]]; done. }
  destruct b as [bc fs]. unfold _strategy_from_base.
  cbn [base_columns files].
  destruct bc as [|c bc], fs as [|f fs]; [done | ..];
    destruct (file_sets _ _);
    cbn [suggested_primary_key columns_intersection];
    by rewrite Ht.
Qed.

Lemma strategy_intersection_NoDup (b : HeaderReport) :
  NoDup (columns_intersection (_strategy_from_base b)).
Proof.
  destruct (strategy_columns b) as [-> _].
  rewrite merge_sort_Permutation. apply NoDup_elements.
Qed.

(** X21: the suggested primary key.  It repeats no column.  When a column
    common to the files contains one of the key words, the key holds the
    common columns that contain a key word; otherwise it is the first two
    common columns (the only one, or none, when there are fewer). *)
Theorem X21_suggested_primary_key `{HR : HeaderReaders}
    (file_entries : list (string * string))
    (with_preview preview_extend_extra : bool) :
  let s := analyze_headers_with_strategy_from_contents file_entries
             with_preview preview_extend_extra in
  let key_word c :=
    ∃ kw, kw ∈ PRIMARY_KEY_KEYWORDS ∧ str_in kw c = true in
  NoDup (suggested_primary_key s)
  ∧ (Exists key_word (columns_intersection s) →
     ∀ c, c ∈ suggested_primary_key s ↔
          c ∈ columns_intersection s ∧ key_word c)
  ∧ (¬ Exists key_word (columns_intersection s) →
     suggested_primary_key s = take 2 (columns_intersection s)).
Proof.
  intros s key_word. subst s.
  destruct (with_strategy_columns file_entries with_preview
              preview_extend_extra) as (-> & _ & ->).
  set (b := analyze_headers_only_from_contents file_entries).
  rewrite strategy_key.
  pose proof (strategy_intersection_NoDup b) as Hnd.
  set (ci := columns_intersection (_strategy_from_base b)) in *.
  destruct (keyword_outer ci PRIMARY_KEY_KEYWORDS []) as [Hknd Hkel].
  cbv zeta in Hknd, Hkel. fold (keyword_columns ci) in Hknd, Hkel.
  assert (∀ c, c ∈ keyword_columns ci ↔ c ∈ ci ∧ key_word c) as Hel.
  { intros c. rewrite Hkel. split; [| by right].
    by intros [[]%elem_of_nil | ?]. }
  destruct (keyword_columns ci) as [|k ks] eqn:Hk.
  - split; [by apply (sublist_NoDup (take 2 ci) ci); [| apply sublist_take] |].
    split; [| done].
    intros (c & Hc & Hkw)%Exists_exists.
    assert (c ∈ []) as []%elem_of_nil. by apply Hel.
  - split; [apply Hknd; constructor |]. split; [done |].
    intros Hno. exfalso. apply Hno, Exists_exists.
    destruct (proj1 (Hel k)) as [Hin Hkw]; [by left |].
    by exists k.
Qed.

(** ** The preview of the merge *)

Lemma dict_set_fresh {V} (k : string) (v : V) (d : list (string * V)) :
  k ∉ map fst d → dict_set k v d = d ++ [(k, v)].
Proof.
  induction d as [|[k' v'] d IH]; intros Hk; [done |]. simpl in *.
  apply not_elem_of_cons in Hk as [Hne Hk].
  destruct (decide (k' = k)); [congruence |]. by rewrite IH.
Qed.

Lemma dict_of_NoDup {V} (items : list (string * V)) :
  NoDup (map fst items) → dict_of items = items.
Proof.
  unfold dict_of.
  assert (∀ acc : list (string * V), NoDup (map fst (acc ++ items)) →
    foldl (λ d kv, dict_set kv.1 kv.2 d) acc items = acc ++ items) as Hgen.
  { induction items as [|[k v] items IH]; intros acc Hnd; simpl.
    - by rewrite app_nil_r.
    - rewrite dict_set_fresh.
      + rewrite IH; rewrite <- app_assoc; done.
      + rewrite map_app in Hnd. apply NoDup_app in Hnd as (_ & Hd & _).
        intros Hk. apply (Hd k Hk). simpl. by left. }
  intros Hnd. by apply (Hgen []).
Qed.

Lemma all_cols_elem (ents : list HeaderEntry) (c : string) :
  ∀ X : gset string,
  c ∈ foldl (λ all_cols ent,
        if has_error ent then all_cols
        else all_cols ∪ list_to_set (h_extra ent)) X ents
  ↔ c ∈ X ∨ ∃ ent, ent ∈ ents ∧ has_error ent = false ∧ c ∈ h_extra ent.
Proof.
  induction ents as [|ent ents IH]; intros X; simpl.
  - split; [by left |]. by intros [? | (ent & []%elem_of_nil & _)].
  - rewrite IH. destruct (has_error ent) eqn:He.
    + split.
      * intros [? | (e & ? & ? & ?)]; [by left |].
        right. exists e. split; [by right | done].
      * intros [? | (e & [-> | ?]%elem_of_cons & ? & ?)];
          [by left | congruence |].
        right. by exists e.
    + rewrite elem_of_union, elem_of_list_to_set. split.
      * intros [[? | ?] | (e & ? & ? & ?)]; [by left | |].
        -- right. exists ent. split; [by left | done].
        -- right. exists e. split; [by right | done].
      * intros [? | (e & [-> | ?]%elem_of_cons & ? & ?)];
          [by left; left | by left; right |].
        right. by exists e.
Qed.

Section PreviewFacts.
Context `{HR : HeaderReaders}.

Lemma extra_of_entries entries base c :
  (∃ ent, ent ∈ map (header_entry base) entries
     ∧ has_error ent = false ∧ c ∈ h_extra ent)
  ↔ (c ∉ base) ∧ ∃ h, h ∈ readable_headers entries ∧ c ∈ h.
Proof.
  split.
  - intros (ent & (nc & -> & Hnc)%list_elem_of_fmap & _ & Hc).
    unfold header_entry in Hc.
    destruct (_read_header_columns_from_bytes nc.2 nc.1) as [e | h] eqn:Hh;
      simpl in Hc; [by apply elem_of_nil in Hc |].
    apply list_elem_of_filter in Hc as [Hcb Hch]. split; [done |].
    exists h. split; [| done]. apply readable_headers_elem.
    apply list_elem_of_lookup in Hnc as [i Hi]. by exists i, nc.
  - intros (Hcb & h & (i & nc & Hi & Hh)%readable_headers_elem & Hc).
    exists (header_entry base nc). split.
    + apply list_elem_of_fmap. exists nc.
      split; [done | by eapply list_elem_of_lookup_2].
    + unfold header_entry. rewrite Hh. simpl. split; [done |].
      by apply list_elem_of_filter.
Qed.

(** The columns of the preview that lists the extra columns. *)
Lemma preview_cols_form entries :
  let heads := readable_headers entries in
  let base := default [] (head heads) in
  let b := mkHeaderReport base (map (header_entry base) entries) in
  let all_cols : gset string :=
    foldl (λ all_cols ent,
      if has_error ent then all_cols
      else all_cols ∪ list_to_set (h_extra ent))
      (list_to_set base) (files b) in
  base ++ merge_sort String.le (elements (all_cols ∖ list_to_set base))
  = columns_union (_strategy_from_base b).
Proof.
  intros heads base b all_cols.
  destruct (strategy_columns b) as [_ ->]. subst all_cols b.
  cbn [base_columns files].
  f_equal. f_equal. f_equal. apply set_eq. intros c.
  pose proof (proj2 (strategy_sets entries) c) as Hc.
  cbv zeta in Hc. fold heads in Hc. fold base in Hc.
  rewrite !elem_of_difference, Hc, all_cols_elem.
  rewrite (extra_of_entries entries base c), elem_of_list_to_set.
  fold heads. tauto.
Qed.

End PreviewFacts.

(** X22: the columns of the preview.  Without a baseline column the preview
    is empty.  Otherwise the preview that lists the extra columns has the
    columns of [columns_union] of the strategy, and the preview that does
    not has the columns of the baseline. *)
Theorem X22_preview_columns `{HR : HeaderReaders}
    (file_entries : list (string * string)) (max_rows : nat)
    (with_preview preview_extend_extra : bool) :
  let base := default [] (head (readable_headers file_entries)) in
  let s := analyze_headers_with_strategy_from_contents file_entries
             with_preview preview_extend_extra in
  let p extend_extra :=
    build_merge_preview_from_contents file_entries extend_extra max_rows in
  match base with
  | [] => ∀ extend_extra, p extend_extra = mkPreview [] []
  | _ :: _ =>
      p_columns (p true) = columns_union s ∧ p_columns (p false) = base
  end.
Proof.
  intros base s p. subst s p.
  destruct (with_strategy_columns file_entries with_preview
              preview_extend_extra) as (_ & -> & _).
  unfold build_merge_preview_from_contents.
  rewrite analyze_headers_form. fold base. cbn [base_columns files].
  pose proof (preview_cols_form file_entries) as Hcols.
  cbv zeta in Hcols. fold base in Hcols. cbn [files] in Hcols.
  destruct base as [|c base']; [done |].
  cbn [p_columns]. by rewrite Hcols.
Qed.

(** X23: the rows of the preview.  When the baseline has a column and
    repeats none, the preview holds, file after file, one dictionary per
    row read from the file; its keys are the columns of the preview in
    their order, and the value under a column is the cell of the row
    under that label, or nothing when the file has no such column.  A file
    that cannot be read gives no row. *)
Theorem X23_preview_rows `{HR : HeaderReaders}
    (file_entries : list (string * string)) (extend_extra : bool)
    (max_rows : nat) :
  let base := default [] (head (readable_headers file_entries)) in
  let p :=
    build_merge_preview_from_contents file_entries extend_extra max_rows in
  base ≠ [] → NoDup base →
  p_rows p
  = flat_map (λ nc : string * string,
      match _read_table_from_bytes nc.2 nc.1 (Some max_rows) with
      | inl _ => []
      | inr df =>
          map (λ r, map (λ c, (c, row_get (columns df) r c)) (p_columns p))
            (rows df)
      end) file_entries.
Proof.
  intros base p Hne Hnd. subst p.
  unfold build_merge_preview_from_contents.
  rewrite analyze_headers_form. fold base. cbn [base_columns files].
  destruct base as [|c0 base'] eqn:Hbase; [done |].
  set (cols := if extend_extra then _ else _).
  cbn [p_rows p_columns].
  assert (NoDup cols) as Hcols.
  { subst cols. destruct extend_extra; [| done].
    apply NoDup_app. split; [done |]. split.
    - intros c Hc. rewrite merge_sort_Permutation, elem_of_elements,
        elem_of_difference, elem_of_list_to_set. tauto.
    - rewrite merge_sort_Permutation. apply NoDup_elements. }
  apply flat_map_ext. intros nc.
  destruct (_read_table_from_bytes nc.2 nc.1 (Some max_rows)) as [e | df];
    [done |].
  unfold reindex. cbn [rows]. rewrite map_map. apply map_ext. intros r.
  rewrite dict_of_NoDup.
  - apply map_ext_in. intros c Hc%list_elem_of_In.
    by rewrite row_get_map.
  - rewrite map_map. cbn [fst]. by rewrite map_id.
Qed.

(** X23 at a sample: the preview of the uploads [broken.csv], [a.csv] and
    [b.xlsx] with the extra columns has the columns [K], [A], [B]; its
    first row is the first row of [a.csv], with nothing under [B]. *)
Lemma X23_preview_rows_witness :
  let HR := SampleHeaders.readers SampleHeaders.store in
  let p := build_merge_preview_from_contents SampleHeaders.uploads true 1 in
  p_columns p = ["K"; "A"; "B"]
  ∧ p_rows p
    = [ [("K", Some "k1"); ("A", Some "1"); ("B", None)];
        [("K", Some "k1 "); ("A", None); ("B", Some "x")] ].
Proof.
  intros HR p.
  assert (default [] (head (readable_headers SampleHeaders.uploads))
          = ["K"; "A"]) as Hb by (vm_compute; reflexivity).
  assert (p_columns p = ["K"; "A"; "B"]) as Hc by (vm_compute; reflexivity).
  split; [done |]. subst p.
  rewrite (X23_preview_rows SampleHeaders.uploads true 1).
  - rewrite Hc. vm_compute. reflexivity.
  - by rewrite Hb.
  - rewrite Hb. compute_done.
Defined.

(** * Properties of the inferred rules *)

Lemma append_new_elem (x c : string) (l : list string) :
  c ∈ append_new x l ↔ c ∈ l ∨ c = x.
Proof.
  unfold append_new. destruct (bool_decide_reflect (x ∈ l)) as [Hx | Hx].
  - split; [by left | by intros [? | ->]].
  - by rewrite elem_of_app, list_elem_of_singleton.
Qed.

Lemma append_new_NoDup (x : string) (l : list string) :
  NoDup l → NoDup (append_new x l).
Proof.
  intros Hl. unfold append_new.
  destruct (bool_decide_reflect (x ∈ l)) as [Hx | Hx]; [done |].
  apply NoDup_app. split; [done |]. split; [| apply NoDup_singleton].
  by intros c Hc ->%list_elem_of_singleton.
Qed.

Lemma dict_set_keys {V} (k c : string) (v : V) (d : list (string * V)) :
  c ∈ map fst (dict_set k v d) ↔ c ∈ map fst d ∨ c = k.
Proof.
  induction d as [|[k' v'] d IH]; simpl.
  - rewrite list_elem_of_singleton. split; [by right | by intros [?%elem_of_nil | ?]].
  - destruct (decide (k' = k)) as [-> | Hne]; simpl.
    + rewrite !elem_of_cons. tauto.
    + rewrite !elem_of_cons, IH. tauto.
Qed.

Lemma dict_set_NoDup {V} (k : string) (v : V) (d : list (string * V)) :
  NoDup (map fst d) → NoDup (map fst (dict_set k v d)).
Proof.
  induction d as [|[k' v'] d IH]; simpl; intros Hnd.
  - apply NoDup_singleton.
  - apply NoDup_cons in Hnd as [Hk Hnd].
    destruct (decide (k' = k)) as [-> | Hne]; simpl.
    + by apply NoDup_cons.
    + apply NoDup_cons. split; [| by apply IH].
      rewrite dict_set_keys. by intros [? | ?].
Qed.

Lemma dict_set_elem {V} (k c : string) (v p : V) (d : list (string * V)) :
  NoDup (map fst d) →
  (c, p) ∈ dict_set k v d ↔ (c = k ∧ p = v) ∨ (c ≠ k ∧ (c, p) ∈ d).
Proof.
  induction d as [|[k' v'] d IH]; simpl; intros Hnd.
  - rewrite list_elem_of_singleton. split.
    + intros [= -> ->]. by left.
    + intros [[-> ->] | [_ []%elem_of_nil]]. done.
  - apply NoDup_cons in Hnd as [Hk Hnd].
    destruct (decide (k' = k)) as [-> | Hne].
    + rewrite !elem_of_cons. split.
      * intros [[= -> ->] | Hin]; [by left |]. right. split; [| by right].
        intros ->. apply Hk. apply list_elem_of_fmap. by exists (k, p).
      * intros [[-> ->] | [Hne [[= -> ->] | Hin]]];
          [by left | done | by right].
    + rewrite !elem_of_cons, (IH Hnd). split.
      * intros [[= -> ->] | [[-> ->] | [? ?]]];
          [right; split; [done | by left] | by left |].
        right. split; [done | by right].
      * intros [[-> ->] | [? [[= -> ->] | ?]]];
          [by right; left | by left | by right; right].
Qed.

(** The pattern that the loop leaves under a column. *)
Lemma infer_step_form num outl pat prop col :
  infer_step (num, outl, pat, prop) col
  = if _is_text_name_column col then (num, outl, pat, prop)
    else
      let col_any := Py.strip col in
      let num1 :=
        if any_in OUTLIER_KEYWORDS col_any then append_new col num
        else num in
      let outl1 :=
        if any_in OUTLIER_KEYWORDS col_any
           && negb (_is_proportion_column col)
        then append_new col outl else outl in
      let num2 :=
        if any_in NUMERIC_TYPE_KEYWORDS col_any then append_new col num1
        else num1 in
      let pat1 :=
        if any_in DATE_KEYWORDS col_any then dict_set col DATE_PATTERN pat
        else pat in
      let prop1 :=
        if any_in DATE_KEYWORDS col_any then prop ++ [date_rule col]
        else prop in
      let pat2 :=
        if email_column col then dict_set col EMAIL_PATTERN pat1
        else pat1 in
      let prop2 :=
        if email_column col then prop1 ++ [email_rule col] else prop1 in
      (num2, outl1, pat2, prop2).
Proof.
  unfold infer_step.
  destruct (_is_text_name_column col); [done |].
  destruct (any_in OUTLIER_KEYWORDS (Py.strip col)),
    (_is_proportion_column col),
    (any_in NUMERIC_TYPE_KEYWORDS (Py.strip col)),
    (any_in DATE_KEYWORDS (Py.strip col)), (email_column col); done.
Qed.

Lemma infer_fold cols :
  ∀ (num outl : list string) (pat : list (string * string)) prop
    (seen : list string),
  NoDup num → NoDup outl → NoDup (map fst pat) →
  (∀ c p, (c, p) ∈ pat ↔ c ∈ seen ∧ pattern_of c = Some p) →
  ∃ num' outl' pat' prop',
    foldl infer_step (num, outl, pat, prop) cols = (num', outl', pat', prop')
    ∧ NoDup num' ∧ NoDup outl' ∧ NoDup (map fst pat')
    ∧ (∀ c, c ∈ num' ↔ c ∈ num ∨ (c ∈ cols ∧ numeric_name c = true))
    ∧ (∀ c, c ∈ outl' ↔ c ∈ outl ∨ (c ∈ cols ∧ outlier_name c = true))
    ∧ (∀ c p, (c, p) ∈ pat' ↔
         (c ∈ seen ∨ c ∈ cols) ∧ pattern_of c = Some p).
Proof.
  induction cols as [|col cols IH];
    intros num outl pat prop seen Hnum Houtl Hpat Hel.
  - exists num, outl, pat, prop. repeat split; try done.
    + by left.
    + by intros [? | [[]%elem_of_nil _]].
    + by left.
    + by intros [? | [[]%elem_of_nil _]].
    + apply Hel in H as [? ?]. by left.
    + by apply Hel.
    + intros [[? | []%elem_of_nil] ?]. by apply Hel.
  - cbn [foldl]. rewrite infer_step_form.
    destruct (_is_text_name_column col) eqn:Htext.
    + destruct (IH num outl pat prop (seen ++ [col]))
        as (num' & outl' & pat' & prop' & Hf & ? & ? & ? & Hn & Ho & Hp);
        try done.
      { intros c p. rewrite Hel, elem_of_app, list_elem_of_singleton.
        split; [intros [? ?]; split; [by left | done] |].
        intros [[? | ->] Hc]; [done |].
        unfold pattern_of in Hc. by rewrite Htext in Hc. }
      exists num', outl', pat', prop'. split; [done |].
      do 3 (split; [done |]). split; [| split].
      * intros c. rewrite Hn, elem_of_cons. split; [tauto |].
        intros [? | [[-> | ?] Hc]]; [by left | | by right].
        unfold numeric_name in Hc. by rewrite Htext in Hc.
      * intros c. rewrite Ho, elem_of_cons. split; [tauto |].
        intros [? | [[-> | ?] Hc]]; [by left | | by right].
        unfold outlier_name in Hc. by rewrite Htext in Hc.
      * intros c p. rewrite Hp, elem_of_app, list_elem_of_singleton,
          elem_of_cons. tauto.
    + cbv zeta.
      set (num2 := if any_in NUMERIC_TYPE_KEYWORDS _ then _ else _).
      set (outl1 := if any_in OUTLIER_KEYWORDS _ && _ then _ else _).
      set (pat2 := if email_column col then _ else _).
      set (prop2 := if email_column col then _ else _).
      assert (NoDup num2 ∧ ∀ c, c ∈ num2 ↔
                c ∈ num ∨ (c = col ∧ numeric_name col = true))
        as [Hnum2 Hin2].
      { subst num2. unfold numeric_name. rewrite Htext.
        destruct (any_in OUTLIER_KEYWORDS (Py.strip col)),
          (any_in NUMERIC_TYPE_KEYWORDS (Py.strip col)); simpl;
          (split; [by repeat apply append_new_NoDup |]); intros c;
          rewrite ?append_new_elem; intuition (subst; try done; congruence). }
      assert (NoDup outl1 ∧ ∀ c, c ∈ outl1 ↔
                c ∈ outl ∨ (c = col ∧ outlier_name col = true))
        as [Houtl1 Hin1].
      { subst outl1. unfold outlier_name. rewrite Htext.
        destruct (any_in OUTLIER_KEYWORDS (Py.strip col)),
          (_is_proportion_column col); simpl;
          (split; [by repeat apply append_new_NoDup |]); intros c;
          rewrite ?append_new_elem; intuition (subst; try done; congruence). }
      assert (NoDup (map fst pat2) ∧ ∀ c p, (c, p) ∈ pat2 ↔
                c ∈ seen ++ [col] ∧ pattern_of c = Some p)
        as [Hpat2 Hinp].
      { subst pat2. 
        assert (∀ c p, c ≠ col →
          ((c, p) ∈ pat ↔ c ∈ seen ++ [col] ∧ pattern_of c = Some p))
          as Hother.
        { intros c p Hne. rewrite Hel, elem_of_app, list_elem_of_singleton.
          tauto. }
        assert (col ∈ seen ++ [col]) as Hcol.
        { apply elem_of_app. right. by apply list_elem_of_singleton. }
        pose proof (dict_set_NoDup col DATE_PATTERN pat Hpat) as Hd.
        destruct (email_column col) eqn:Hemail.
        - split.
          { destruct (any_in DATE_KEYWORDS (Py.strip col));
              by apply dict_set_NoDup. }
          intros c p.
          assert (pattern_of col = Some EMAIL_PATTERN) as Hpc.
          { unfold pattern_of. by rewrite Htext, Hemail. }
          destruct (any_in DATE_KEYWORDS (Py.strip col)).
          + rewrite (dict_set_elem _ _ _ _ _ Hd),
              (dict_set_elem _ _ _ _ _ Hpat).
            destruct (decide (c = col)) as [-> | Hne].
            * rewrite Hpc. intuition (subst; try done; congruence).
            * rewrite (Hother c p Hne). intuition (subst; try done; congruence).
          + rewrite (dict_set_elem _ _ _ _ _ Hpat).
            destruct (decide (c = col)) as [-> | Hne].
            * rewrite Hpc. intuition (subst; try done; congruence).
            * rewrite (Hother c p Hne). intuition (subst; try done; congruence).
        - destruct (any_in DATE_KEYWORDS (Py.strip col)) eqn:Hdate.
          + split; [done |]. intros c p.
            assert (pattern_of col = Some DATE_PATTERN) as Hpc.
            { unfold pattern_of. by rewrite Htext, Hemail, Hdate. }
            rewrite (dict_set_elem _ _ _ _ _ Hpat).
            destruct (decide (c = col)) as [-> | Hne].
            * rewrite Hpc. intuition (subst; try done; congruence).
            * rewrite (Hother c p Hne). intuition (subst; try done; congruence).
          + split; [done |]. intros c p.
            assert (pattern_of col = None) as Hpc.
            { unfold pattern_of. by rewrite Htext, Hemail, Hdate. }
            destruct (decide (c = col)) as [-> | Hne].
            * rewrite Hel, Hpc. intuition (subst; try done; congruence).
            * apply (Hother c p Hne). }
      destruct (IH num2 outl1 pat2 prop2 (seen ++ [col]))
        as (num' & outl' & pat' & prop' & Hf & ? & ? & ? & Hn & Ho & Hp);
        try done.
      exists num', outl', pat', prop'. split; [done |].
      do 3 (split; [done |]). split; [| split].
      * intros c. rewrite Hn, Hin2, elem_of_cons. intuition (subst; try done; congruence).
      * intros c. rewrite Ho, Hin1, elem_of_cons. intuition (subst; try done; congruence).
      * intros c p. rewrite Hp, elem_of_app, list_elem_of_singleton,
          elem_of_cons. tauto.
Qed.

Lemma infer_fold_rules cols : ∀ num outl pat prop,
  (foldl infer_step (num, outl, pat, prop) cols).2
  = prop ++ flat_map pattern_rules_of cols.
Proof.
  induction cols as [|col cols IH]; intros num outl pat prop.
  - by rewrite app_nil_r.
  - cbn [foldl flat_map]. rewrite infer_step_form. unfold pattern_rules_of.
    destruct (_is_text_name_column col); [by rewrite IH |].
    cbv zeta. rewrite IH.
    destruct (any_in DATE_KEYWORDS (Py.strip col)), (email_column col);
      by rewrite <- ?app_assoc.
Qed.

Lemma default_numeric_elem (base : list string) (c : string) :
  c ∈ filter (λ c, c ∈ base) DEFAULT_NUMERIC_COLUMNS
  → c ∈ base ∧ numeric_name c = true.
Proof.
  intros [Hb Hc]%list_elem_of_filter.
  apply list_elem_of_singleton in Hc as ->. split; [done |].
  vm_compute. reflexivity.
Qed.

(** The result of the inference, field by field. *)
Lemma infer_rules_facts (base : list string) :
  let r := _infer_rules_from_columns base in
  NoDup (Inferred.numeric_columns r)
  ∧ NoDup (Inferred.outlier_columns r)
  ∧ NoDup (map fst (Inferred.pattern_columns r))
  ∧ (∀ c, c ∈ Inferred.numeric_columns r ↔
          c ∈ base ∧ numeric_name c = true)
  ∧ (∀ c, c ∈ Inferred.outlier_columns r ↔
          c ∈ base ∧ outlier_name c = true)
  ∧ (∀ c p, (c, p) ∈ Inferred.pattern_columns r ↔
          c ∈ base ∧ pattern_of c = Some p)
  ∧ Inferred.proposed_rules r
    = flat_map pattern_rules_of base
      ++ map outlier_rule (Inferred.outlier_columns r)
  ∧ Inferred.constraints r = [].
Proof.
  intros r. subst r. unfold _infer_rules_from_columns.
  set (num0 := filter (λ c, c ∈ base) DEFAULT_NUMERIC_COLUMNS).
  pose proof (infer_fold_rules base num0 [] [] []) as Hrules.
  destruct (infer_fold base num0 [] [] [] [])
    as (num & outl & pat & prop & Hf & Hnum & Houtl & Hpat & Hn & Ho & Hp).
  - apply NoDup_filter. apply NoDup_singleton.
  - constructor.
  - constructor.
  - intros c p. split; [by intros ?%elem_of_nil |].
    by intros [?%elem_of_nil _].
  - rewrite Hf in Hrules |- *. cbn [snd app] in Hrules.
    cbn [Inferred.numeric_columns Inferred.outlier_columns
         Inferred.pattern_columns Inferred.proposed_rules
         Inferred.constraints].
    do 3 (split; [done |]). split; [| split; [| split; [| split]]].
    + intros c. rewrite Hn. split; [| by right].
      intros [Hc | ?]; [| done]. by apply default_numeric_elem.
    + intros c. rewrite Ho. split; [| by right].
      by intros [?%elem_of_nil | ?].
    + intros c p. rewrite Hp. split; [| intros [? ?]; split; [by right | done]].
      by intros [[?%elem_of_nil | ?] ?].
    + by rewrite Hrules.
    + done.
Qed.

Lemma outlier_name_numeric (c : string) :
  outlier_name c = true → numeric_name c = true.
Proof.
  unfold outlier_name, numeric_name.
  destruct (_is_text_name_column c), (any_in OUTLIER_KEYWORDS (Py.strip c));
    simpl; done.
Qed.

(** X24: the numeric and the outlier columns of the inferred rules.  A
    column of the table is numeric exactly when it is not a text column and
    its name has a key word of the outlier or of the numeric columns; it is
    an outlier column exactly when it is neither a text nor a proportion
    column and its name has a key word of the outlier columns.  Neither
    list repeats a column, and every outlier column is numeric. *)
Theorem X24_inferred_numeric_outlier (base_columns : list string) :
  let r := _infer_rules_from_columns base_columns in
  NoDup (Inferred.numeric_columns r)
  ∧ NoDup (Inferred.outlier_columns r)
  ∧ (∀ c, c ∈ Inferred.numeric_columns r ↔
          c ∈ base_columns ∧ numeric_name c = true)
  ∧ (∀ c, c ∈ Inferred.outlier_columns r ↔
          c ∈ base_columns ∧ outlier_name c = true)
  ∧ (∀ c, c ∈ Inferred.outlier_columns r → c ∈ Inferred.numeric_columns r).
Proof.
  intros r.
  destruct (infer_rules_facts base_columns)
    as (Hnum & Houtl & _ & Hn & Ho & _).
  fold r in Hnum, Houtl, Hn, Ho.
  do 4 (split; [done |]).
  intros c [Hb Hc]%Ho. apply Hn. split; [done |].
  by apply outlier_name_numeric.
Qed.

(** X25: the patterns of the inferred rules.  The dictionary has one
    pattern for each column of the table that is not a text column and
    whose name has a key word of the e-mail addresses or of the dates, and
    for no other column; the pattern is that of the e-mail addresses
    whenever the name has a key word of theirs. *)
Theorem X25_inferred_patterns (base_columns : list string) :
  let r := _infer_rules_from_columns base_columns in
  NoDup (map fst (Inferred.pattern_columns r))
  ∧ ∀ c p, (c, p) ∈ Inferred.pattern_columns r ↔
      c ∈ base_columns ∧ pattern_of c = Some p.
Proof.
  intros r.
  destruct (infer_rules_facts base_columns) as (_ & _ & Hpat & _ & _ & Hp & _).
  done.
Qed.

(** X26: the rules proposed to the user are rules that the scan applies.
    Every proposed rule names one column of the table: an outlier rule
    names an outlier column, a pattern rule a column that has a pattern.
    Every outlier column has its outlier rule, and every column that has a
    pattern has a pattern rule. *)
Theorem X26_proposed_rules (base_columns : list string) :
  let r := _infer_rules_from_columns base_columns in
  (∀ rule, rule ∈ Inferred.proposed_rules r →
     ∃ c, c ∈ base_columns ∧ Inferred.columns rule = [c]
       ∧ ((Inferred.rule_type rule = "outlier"
           ∧ c ∈ Inferred.outlier_columns r)
          ∨ (Inferred.rule_type rule = "pattern"
             ∧ c ∈ map fst (Inferred.pattern_columns r))))
  ∧ (∀ c, c ∈ Inferred.outlier_columns r →
          outlier_rule c ∈ Inferred.proposed_rules r)
  ∧ (∀ c, c ∈ map fst (Inferred.pattern_columns r) →
          ∃ rule, rule ∈ Inferred.proposed_rules r
            ∧ Inferred.rule_type rule = "pattern"
            ∧ Inferred.columns rule = [c]).
Proof.
  intros r.
  destruct (infer_rules_facts base_columns)
    as (_ & _ & _ & _ & Ho & Hp & Hrules & _).
  fold r in Ho, Hp, Hrules. rewrite Hrules.
  assert (∀ c, c ∈ map fst (Inferred.pattern_columns r) ↔
               c ∈ base_columns ∧ is_Some (pattern_of c)) as Hkeys.
  { intros c. rewrite list_elem_of_fmap. split.
    - intros ([c' p] & -> & [Hb Hc]%Hp). by split.
    - intros [Hb [p Hc]]. exists (c, p). split; [done |]. by apply Hp. }
  split; [| split].
  - intros rule [Hr | Hr]%elem_of_app.
    + apply list_elem_of_In, in_flat_map in Hr as (c & Hc%list_elem_of_In & Hr).
      apply list_elem_of_In in Hr.
      exists c. split; [done |].
      assert (Inferred.columns rule = [c]
              ∧ Inferred.rule_type rule = "pattern"
              ∧ is_Some (pattern_of c)) as (? & ? & ?).
      { unfold pattern_rules_of, pattern_of in *.
        destruct (_is_text_name_column c); [by apply elem_of_nil in Hr |].
        destruct (any_in DATE_KEYWORDS (Py.strip c)), (email_column c);
          cbn [app] in Hr;
          repeat (apply elem_of_cons in Hr as [-> | Hr]; [by eauto |]);
          by apply elem_of_nil in Hr. }
      split; [done |]. right. split; [done |]. by apply Hkeys.
    + apply list_elem_of_fmap in Hr as (c & -> & Hc).
      exists c. split; [by apply Ho in Hc as [? _] |].
      split; [done |]. by left.
  - intros c Hc. apply elem_of_app. right. apply list_elem_of_fmap.
    by exists c.
  - intros c [Hb Hc]%Hkeys.
    assert (∃ rule, rule ∈ pattern_rules_of c
              ∧ Inferred.rule_type rule = "pattern"
              ∧ Inferred.columns rule = [c]) as (rule & Hr & ? & ?).
    { unfold pattern_rules_of, pattern_of in *.
      destruct (_is_text_name_column c); [by destruct Hc |].
      destruct (any_in DATE_KEYWORDS (Py.strip c)), (email_column c);
        try (by destruct Hc);
        eexists; (split; [by left |]); done. }
    exists rule. split; [| done]. apply elem_of_app. left.
    apply list_elem_of_In, in_flat_map. exists c.
    split; by apply list_elem_of_In.
Qed.

(** ** The scan with the inferred rules *)

Lemma or_default_elem {A} (l d : list A) (x : A) :
  x ∈ or_default (Some l) d → x ∈ l ∨ (l = [] ∧ x ∈ d).
Proof. destruct l; simpl; [by right | by left]. Qed.

(** X27: what the scan of [merge_and_scan] can report.  It reports no
    violated constraint.  A type error or an outlier is reported only in a
    column of the table that is not a text column and whose name has a key
    word of the outlier or of the numeric columns; a pattern mismatch only
    in a column of the table that is not a text column and whose name has a
    key word of the dates or of the e-mail addresses. *)
Theorem X27_scan_inferred `{RT : Runtime} (df : DataFrame)
    (schema_report : Report) (primary_key_list : option (list string))
    (e : Defect) :
  e ∈ errors (merge_and_scan_health df schema_report primary_key_list) →
  error_type e ≠ constraint_violation
  ∧ (error_type e = type_inconsistent ∨ error_type e = outlier →
     col_name e ∈ columns df ∧ numeric_name (col_name e) = true)
  ∧ (error_type e = pattern_mismatch →
     col_name e ∈ columns df ∧ is_Some (pattern_of (col_name e))).
Proof.
  unfold merge_and_scan_health.
  destruct (_ && _); [by intros ?%elem_of_nil |].
  set (ref_cols := match reference_columns schema_report with
                   | [] => columns df | _ => _ end).
  destruct (infer_rules_facts ref_cols)
    as (_ & _ & _ & Hn & Ho & Hp & _ & Hcons).
  cbv zeta in Hn, Ho, Hp, Hcons.
  set (r := _infer_rules_from_columns ref_cols) in *.
  unfold scan_health, scan. cbn [errors].
  set (self := new_scanner _ _ _ _ _). intros He.
  assert (∀ c, c ∈ numeric_columns self → numeric_name c = true) as Hnum.
  { intros c [Hc | [_ Hc]]%or_default_elem.
    - by apply Hn in Hc as [_ ?].
    - apply list_elem_of_singleton in Hc as ->. vm_compute. reflexivity. }
  assert (∀ c, c ∈ outlier_columns self → numeric_name c = true) as Hout.
  { intros c [Hc | [_ Hc]]%or_default_elem.
    - apply Ho in Hc as [_ ?]. by apply outlier_name_numeric.
    - by apply elem_of_nil in Hc. }
  assert (∀ c p, (c, p) ∈ pattern_columns self → pattern_of c = Some p)
    as Hpat.
  { intros c p [Hc | [_ Hc]]%or_default_elem.
    - by apply Hp in Hc as [_ ?].
    - by apply elem_of_nil in Hc. }
  assert (constraint_pass self df = []) as Hcp.
  { unfold constraint_pass. subst self. cbn [new_scanner constraints].
    by rewrite Hcons. }
  split; [| split].
  - intros Hk.
    assert (e ∈ constraint_pass self df) as Hin.
    { apply (scan_errors_pass self df schema_report 5); [done |].
      by rewrite Hk. }
    rewrite Hcp in Hin. by apply elem_of_nil in Hin.
  - intros [Hk | Hk].
    + assert (e ∈ type_pass self df) as Hin.
      { apply (scan_errors_pass self df schema_report 1); [done |].
        by rewrite Hk. }
      apply type_pass_records in Hin
        as (i & row & c & _ & Hc & Hdf & _ & _ & ->).
      split; [done | by apply Hnum].
    + assert (e ∈ outlier_pass self df) as Hin.
      { apply (scan_errors_pass self df schema_report 3); [done |].
        by rewrite Hk. }
      apply outlier_pass_records in Hin
        as (i & row & c & f & _ & Hdf & Hc & _ & _ & ->).
      split; [done |]. destruct Hc; [by apply Hnum | by apply Hout].
  - intros Hk.
    assert (e ∈ pattern_pass self df) as Hin.
    { apply (scan_errors_pass self df schema_report 4); [done |].
      by rewrite Hk. }
    apply pattern_pass_records in Hin
      as (i & row & c & p & search & _ & Hc & Hdf & _ & _ & _ & ->).
    split; [done |]. cbn [col_name]. by rewrite (Hpat c p Hc).
Qed.

(** X27 at a sample: the score [abc] of the merged table is reported as a
    type error, in the column [分数], which is a numeric column by its
    name. *)
Lemma X27_scan_inferred_witness :
  let RT := Ref.runtime [] in
  let e := mkDefect 0 "分数" type_inconsistent business in
  e ∈ errors (merge_and_scan_health SampleInferred.merged
                SampleInferred.report None)
  ∧ "分数" ∈ columns SampleInferred.merged
  ∧ numeric_name "分数" = true.
Proof.
  intros RT e.
  assert (e ∈ errors (merge_and_scan_health SampleInferred.merged
                        SampleInferred.report None)) as He
    by compute_done.
  split; [done |].
  destruct (X27_scan_inferred SampleInferred.merged SampleInferred.report
              None e He) as (_ & Ht & _).
  apply Ht. by left.
Defined.

(** ** The cache of uploads *)

Lemma dict_set_length {V} (k : string) (v : V) (d : list (string * V)) :
  length (dict_set k v d) ≤ S (length d).
Proof.
  induction d as [|[k' v'] d IH]; simpl; [lia |].
  destruct (decide (k' = k)); simpl; lia.
Qed.

Lemma dict_set_last {V} (k : string) (v : V) (d : list (string * V)) :
  (k, v) ∈ dict_set k v d.
Proof.
  induction d as [|[k' v'] d IH]; simpl; [by left |].
  destruct (decide (k' = k)); [by left | by right].
Qed.

Lemma dict_set_other {V} (k : string) (v : V) (d : list (string * V)) kv :
  kv ∈ d → kv.1 ≠ k → kv ∈ dict_set k v d.
Proof.
  induction d as [|[k' v'] d IH]; simpl; [by intros ?%elem_of_nil |].
  intros [-> | Hin]%elem_of_cons Hne.
  - destruct (decide (k' = k)); [done | by left].
  - destruct (decide (k' = k)); right; [done | by apply IH].
Qed.

(** X28: the cache of uploads stays within its bound.  A cache of at most
    20 uploads has at most 20 after a request has stored its upload; the
    new upload is in the cache; an upload stored before under another key
    is still there, the oldest one excepted when the cache was full. *)
Theorem X28_cache_bound {V} (cache_key : string) (file_entries : V)
    (_upload_cache : list (string * V)) :
  length _upload_cache ≤ _CACHE_MAX_ENTRIES →
  let cache := cache_upload cache_key file_entries _upload_cache in
  length cache ≤ _CACHE_MAX_ENTRIES
  ∧ (cache_key, file_entries) ∈ cache
  ∧ ∀ i kv, _upload_cache !! i = Some kv → kv.1 ≠ cache_key →
      (length _upload_cache < _CACHE_MAX_ENTRIES ∨ 0 < i) → kv ∈ cache.
Proof.
  intros Hlen cache. subst cache. unfold cache_upload.
  split; [| split].
  - unfold _evict_cache_if_needed.
    destruct (Nat.ltb_spec (length _upload_cache) _CACHE_MAX_ENTRIES)
      as [Hlt | Hge].
    + pose proof (dict_set_length cache_key file_entries _upload_cache).
      lia.
    + destruct _upload_cache as [|x rest];
        [unfold _CACHE_MAX_ENTRIES in *; simpl in *; lia |].
      pose proof (dict_set_length cache_key file_entries rest).
      cbn [length] in Hlen. lia.
  - apply dict_set_last.
  - intros i kv Hi Hne Hfull. apply dict_set_other; [| done].
    unfold _evict_cache_if_needed.
    destruct (Nat.ltb_spec (length _upload_cache) _CACHE_MAX_ENTRIES).
    + by eapply list_elem_of_lookup_2.
    + destruct Hfull as [? | Hpos]; [lia |].
      destruct _upload_cache as [|x rest]; [done |].
      destruct i as [|i]; [lia |]. simpl in Hi.
      by eapply list_elem_of_lookup_2.
Qed.

(** X28 at a sample: a new upload stored in a full cache leaves twenty
    uploads; the second oldest upload is still there. *)
Lemma X28_cache_bound_witness :
  length SampleInferred.cache = _CACHE_MAX_ENTRIES
  ∧ length (cache_upload "new" 99 SampleInferred.cache) ≤ _CACHE_MAX_ENTRIES
  ∧ ("B", 1) ∈ cache_upload "new" 99 SampleInferred.cache.
Proof.
  assert (length SampleInferred.cache = _CACHE_MAX_ENTRIES) as Hlen
    by reflexivity.
  split; [done |].
  destruct (X28_cache_bound "new" 99 SampleInferred.cache) as (Hb & _ & Hk).
  - by rewrite Hlen.
  - split; [done |]. apply (Hk 1); [reflexivity | done | right; lia].
Defined.
